(** * AI-Gallery: ingestion, tagging worker and review queue

    A shallow embedding of the ingestion-and-tagging pipeline of the
    gallery backend:

    - [backend/database.py]            the SQLModel schema and the store,
    - [backend/services/image_processor.py], [backend/services/ingest.py]
                                       content addressing and ingestion,
    - [backend/services/ai_engine.py]  the analyzers' post-processing,
    - [backend/workers/ai_processor.py] the batch tagging worker,
    - [backend/routers/review.py]      the review queue.

    Python objects become records, the SQL session becomes a small
    state-and-exception monad, and everything the code obtains from
    outside (file contents, the SHA-256 function, PIL, CLIP, EasyOCR,
    python-slugify, the interpreter's Unicode tables) is a field of an
    environment record.  Confidence
    values are IEEE-754 doubles, as in Python and in SQLite's REAL. *)

From Stdlib Require Import ZArith List String Ascii Bool Lia.
From Stdlib Require Import Floats.PrimFloat.
From Stdlib Require Strings.Byte.
Import ListNotations.

Set Warnings "-inexact-float".

Local Open Scope string_scope.
Local Open Scope list_scope.
Local Open Scope Z_scope.

(** ** Python exceptions and results *)

Inductive Exception : Type :=
| OSError                                        (* open(), os.path.getsize *)
| IntegrityError                                 (* UNIQUE / PRIMARY KEY rejected by the store *)
| UnicodeEncodeError                             (* a str the driver cannot encode as UTF-8 *)
| PendingRollbackError                           (* a statement on a session whose flush has failed *)
| ValueError                                     (* int() on a str it cannot convert *)
| IndexError                                     (* list index out of range *)
| RuntimeError                                   (* model loading or inference *)
| HTTPException (status_code : Z) (detail : string).

Inductive result (A : Type) : Type :=
| Ok (a : A)
| Raise (e : Exception).

Arguments Ok {A} a.
Arguments Raise {A} e.

(** ** database.py: the schema *)

Module Schema.

(** The keyword arguments of [sqlmodel.Field] that reach the DDL. *)
Record FieldInfo : Type := Field {
  primary_key : bool;
  index : bool;
  unique : bool;
  foreign_key : option string
}.

(* class ImageTagLink *)
Definition ImageTagLink_image_id : FieldInfo :=
  {| primary_key := true; index := false; unique := false; foreign_key := Some "image.id" |}.
Definition ImageTagLink_tag_id : FieldInfo :=
  {| primary_key := true; index := false; unique := false; foreign_key := Some "tag.id" |}.

(* class Album *)
Definition Album_id : FieldInfo :=
  {| primary_key := true; index := false; unique := false; foreign_key := None |}.
Definition Album_slug : FieldInfo :=
  {| primary_key := false; index := true; unique := true; foreign_key := None |}.

(* class Tag *)
Definition Tag_id : FieldInfo :=
  {| primary_key := true; index := false; unique := false; foreign_key := None |}.
Definition Tag_name : FieldInfo :=
  {| primary_key := false; index := true; unique := true; foreign_key := None |}.

(* class Image *)
Definition Image_id : FieldInfo :=
  {| primary_key := true; index := false; unique := false; foreign_key := None |}.
Definition Image_album_id : FieldInfo :=
  {| primary_key := false; index := false; unique := false; foreign_key := Some "album.id" |}.
Definition Image_file_hash : FieldInfo :=
  {| primary_key := false; index := true; unique := false; foreign_key := None |}.

(** A column (or, for a composite primary key, a column group) on which
    the store rejects a second row with the same value. *)
Definition rejects_duplicates (f : FieldInfo) : bool :=
  primary_key f || unique f.

End Schema.

(** ** database.py: the rows

    [created_at] (wall-clock time of insertion) is left out of [Album]
    and [Image]; no operation below reads it. *)

Record ImageTagLink : Type := {
  link_image_id : Z;
  link_tag_id : Z;
  confidence : float;
  source : string;                 (* 'manual', 'ai_clip', 'ai_ocr' *)
  is_verified : bool
}.

Record Album : Type := {
  album_id : Z;
  album_name : string;
  slug : string;
  root_path : string;
  album_is_deleted : bool;
  album_owner_id : option Z
}.

Record Tag : Type := {
  tag_id : Z;
  tag_name : string;
  category : string
}.

Record Image : Type := {
  image_id : Z;
  image_album_id : Z;
  image_owner_id : option Z;
  filename : string;
  path : string;
  file_hash : string;
  captured_at : option string;
  width : option Z;
  height : option Z;
  file_size : option Z;
  camera_model : option string;
  is_processed : bool;
  is_deleted : bool
}.

(** The four tables, each in rowid order. *)
Record DB : Type := {
  images : list Image;
  albums : list Album;
  tags : list Tag;
  links : list ImageTagLink
}.

Definition empty_db : DB :=
  {| images := []; albums := []; tags := []; links := [] |}.

(** SQLite's INTEGER PRIMARY KEY without AUTOINCREMENT: one more than
    the largest rowid in the table, 1 for an empty table. *)
Definition next_id (ids : list Z) : Z :=
  1 + fold_right Z.max 0 ids.

Definition link_key_eqb (image_id0 tag_id0 : Z) (l : ImageTagLink) : bool :=
  (link_image_id l =? image_id0) && (link_tag_id l =? tag_id0).

(** *** INSERT, with the constraints the schema declares

    These are the statements as the tables see them.  What the driver
    does before a statement runs, binding its text parameters, is
    [bind_text] below, which the ingestion wraps around them. *)

Definition insert_album (db : DB) (name0 slug0 root_path0 : string)
           (owner_id0 : option Z) : result (Album * DB) :=
  if Schema.rejects_duplicates Schema.Album_slug
     && existsb (fun a => String.eqb (slug a) slug0) (albums db)
  then Raise IntegrityError
  else
    let a := {| album_id := next_id (map album_id (albums db));
                album_name := name0; slug := slug0; root_path := root_path0;
                album_is_deleted := false; album_owner_id := owner_id0 |} in
    Ok (a, {| images := images db; albums := albums db ++ [a];
              tags := tags db; links := links db |}).

Definition insert_tag (db : DB) (name0 category0 : string) : result (Tag * DB) :=
  if Schema.rejects_duplicates Schema.Tag_name
     && existsb (fun t => String.eqb (tag_name t) name0) (tags db)
  then Raise IntegrityError
  else
    let t := {| tag_id := next_id (map tag_id (tags db));
                tag_name := name0; category := category0 |} in
    Ok (t, {| images := images db; albums := albums db;
              tags := tags db ++ [t]; links := links db |}).

(** [with_id] is the row as the caller built it; the store assigns the id. *)
Definition with_image_id (i : Image) (id0 : Z) : Image :=
  {| image_id := id0; image_album_id := image_album_id i;
     image_owner_id := image_owner_id i; filename := filename i;
     path := path i; file_hash := file_hash i; captured_at := captured_at i;
     width := width i; height := height i; file_size := file_size i;
     camera_model := camera_model i; is_processed := is_processed i;
     is_deleted := is_deleted i |}.

Definition insert_image (db : DB) (i : Image) : result (Image * DB) :=
  if Schema.rejects_duplicates Schema.Image_file_hash
     && existsb (fun i' => String.eqb (file_hash i') (file_hash i)) (images db)
  then Raise IntegrityError
  else
    let i' := with_image_id i (next_id (map image_id (images db))) in
    Ok (i', {| images := images db ++ [i']; albums := albums db;
               tags := tags db; links := links db |}).

Definition insert_link (db : DB) (l : ImageTagLink) : result DB :=
  if Schema.rejects_duplicates Schema.ImageTagLink_image_id
     && Schema.rejects_duplicates Schema.ImageTagLink_tag_id
     && existsb (link_key_eqb (link_image_id l) (link_tag_id l)) (links db)
  then Raise IntegrityError
  else Ok {| images := images db; albums := albums db;
             tags := tags db; links := links db ++ [l] |}.

(** *** UPDATE and DELETE *)

Definition set_processed (i : Image) : Image :=
  {| image_id := image_id i; image_album_id := image_album_id i;
     image_owner_id := image_owner_id i; filename := filename i;
     path := path i; file_hash := file_hash i; captured_at := captured_at i;
     width := width i; height := height i; file_size := file_size i;
     camera_model := camera_model i; is_processed := true;
     is_deleted := is_deleted i |}.

Definition update_image_processed (db : DB) (id0 : Z) : DB :=
  {| images := map (fun i => if image_id i =? id0 then set_processed i else i)
                   (images db);
     albums := albums db; tags := tags db; links := links db |}.

Definition approved (l : ImageTagLink) : ImageTagLink :=
  {| link_image_id := link_image_id l; link_tag_id := link_tag_id l;
     confidence := 1.0%float; source := source l; is_verified := true |}.

Definition update_link_approved (db : DB) (image_id0 tag_id0 : Z) : DB :=
  {| images := images db; albums := albums db; tags := tags db;
     links := map (fun l => if link_key_eqb image_id0 tag_id0 l
                            then approved l else l) (links db) |}.

Definition delete_link (db : DB) (image_id0 tag_id0 : Z) : DB :=
  {| images := images db; albums := albums db; tags := tags db;
     links := filter (fun l => negb (link_key_eqb image_id0 tag_id0 l))
                     (links db) |}.

(** *** SELECT ... .first() *)

Definition select_image_by_hash (db : DB) (h : string) : option Image :=
  find (fun i => String.eqb (file_hash i) h) (images db).

Definition select_image_by_id (db : DB) (id0 : Z) : option Image :=
  find (fun i => image_id i =? id0) (images db).

Definition select_album_by_slug (db : DB) (s : string) : option Album :=
  find (fun a => String.eqb (slug a) s) (albums db).

Definition select_tag_by_name (db : DB) (n : string) : option Tag :=
  find (fun t => String.eqb (tag_name t) n) (tags db).

Definition select_tag_by_id (db : DB) (id0 : Z) : option Tag :=
  find (fun t => tag_id t =? id0) (tags db).

Definition select_link (db : DB) (image_id0 tag_id0 : Z) : option ImageTagLink :=
  find (link_key_eqb image_id0 tag_id0) (links db).

(** ** The session

    A [Session] over the store: [working] is what the session's queries
    see (committed rows plus its own flushed ones), [committed] is what
    survives a rollback.  [thumbnails] is the content of
    [data/thumbnails], the one directory the pipeline writes to.

    [session.add] is modelled as flushing at once.  SQLAlchemy defers
    the INSERT to the next autoflush or commit; in every use below that
    is the next call on the session, inside the same [try]. *)

Record State : Type := {
  committed : DB;
  working : DB;
  thumbnails : list string
}.

Definition Txn (A : Type) : Type := State -> State * result A.

Definition ret {A} (a : A) : Txn A := fun s => (s, Ok a).

Definition bind {A B} (m : Txn A) (f : A -> Txn B) : Txn B :=
  fun s => match m s with
           | (s', Ok a) => f a s'
           | (s', Raise e) => (s', Raise e)
           end.

Definition raise {A} (e : Exception) : Txn A := fun s => (s, Raise e).

Notation "x <- m ;; k" := (bind m (fun x => k))
  (at level 61, m at next level, right associativity).
Notation "m ;;; k" := (bind m (fun _ => k))
  (at level 61, right associativity).

(** A pure computation that may raise. *)
Definition lift {A} (r : result A) : Txn A := fun s => (s, r).

(** [session.exec(select(...))] *)
Definition exec {A} (q : DB -> A) : Txn A := fun s => (s, Ok (q (working s))).

(** [session.add(row)] of a new row, flushed. *)
Definition add {A} (ins : DB -> result (A * DB)) : Txn A :=
  fun s => match ins (working s) with
           | Ok (a, db') =>
               ({| committed := committed s; working := db';
                   thumbnails := thumbnails s |}, Ok a)
           | Raise e => (s, Raise e)
           end.

(** An UPDATE or DELETE through an attached object. *)
Definition modify (f : DB -> DB) : Txn unit :=
  fun s => ({| committed := committed s; working := f (working s);
               thumbnails := thumbnails s |}, Ok tt).

Definition commit : Txn unit :=
  fun s => ({| committed := working s; working := working s;
               thumbnails := thumbnails s |}, Ok tt).

(** Closing a session discards what it did not commit. *)
Definition close (s : State) : State :=
  {| committed := committed s; working := committed s;
     thumbnails := thumbnails s |}.

(** [with Session(engine) as session: body] *)
Definition with_session {A} (body : Txn A) : Txn A :=
  fun s => let (s', r) := body (close s) in (close s', r).

(** Rows committed by another connection while this session holds no
    pending change. *)
Definition concurrent (f : DB -> DB) : Txn unit :=
  fun s => ({| committed := f (committed s); working := f (working s);
               thumbnails := thumbnails s |}, Ok tt).

Definition write_thumbnail (name0 : string) : Txn unit :=
  fun s => ({| committed := committed s; working := working s;
               thumbnails := name0 :: thumbnails s |}, Ok tt).

Definition open_db (db : DB) : State :=
  {| committed := db; working := db; thumbnails := [] |}.

(** ** posixpath *)

Module posixpath.

Definition is_sep (c : ascii) : bool := Ascii.eqb c "/"%char.

(** [(p[:i], p[i:])] for [i = p.rfind('/') + 1]. *)
Fixpoint rsplit (p : string) : string * string :=
  match p with
  | EmptyString => (EmptyString, EmptyString)
  | String c rest =>
      match rsplit rest with
      | (EmptyString, _) =>
          if is_sep c then (String c EmptyString, rest)
          else (EmptyString, String c rest)
      | (h, t) => (String c h, t)
      end
  end.

(** [s.rstrip('/')] *)
Fixpoint rstrip_sep (s : string) : string :=
  match s with
  | EmptyString => EmptyString
  | String c rest =>
      match rstrip_sep rest with
      | EmptyString => if is_sep c then EmptyString else String c EmptyString
      | r => String c r
      end
  end.

Definition basename (p : string) : string := snd (rsplit p).

(** The head keeps its slashes when it consists of nothing else. *)
Definition dirname (p : string) : string :=
  let head := fst (rsplit p) in
  match rstrip_sep head with
  | EmptyString => head
  | stripped => stripped
  end.

End posixpath.

(** ** UTF-8

    Text reaches SQLite as UTF-8.  A name that [os.walk] read from a
    directory is a [str] made of the name's bytes; where those are not
    well-formed UTF-8 Python keeps them as lone surrogates, which the
    [sqlite3] driver refuses to encode when it binds the parameters of
    a statement.  A [string] of this model is the bytes. *)

Module utf8.

(** The decoder between two bytes: how many continuation bytes the
    current character still needs, and where the next one must lie. *)
Record Pending : Type := {
  more : nat;
  low : N;
  high : N
}.

Definition expect (k : nat) (lo hi : N) : Pending :=
  {| more := k; low := lo; high := hi |}.

Definition boundary : Pending := expect 0 128 191.

(** The first byte of a character.  C0, C1, E0 80..9F and F0 80..8F
    would be overlong, ED A0..BF a surrogate, F4 90.. and F5.. beyond
    U+10FFFF. *)
Definition lead (b : N) : option Pending :=
  (if b <? 128 then Some boundary
   else if b <? 194 then None
   else if b <? 224 then Some (expect 1 128 191)
   else if b =? 224 then Some (expect 2 160 191)
   else if b =? 237 then Some (expect 2 128 159)
   else if b <? 240 then Some (expect 2 128 191)
   else if b =? 240 then Some (expect 3 144 191)
   else if b <? 244 then Some (expect 3 128 191)
   else if b =? 244 then Some (expect 3 128 143)
   else None)%N.

Definition step (st : Pending) (b : N) : option Pending :=
  match more st with
  | O => lead b
  | S k => if ((low st <=? b) && (b <=? high st))%N
           then Some (expect k 128 191) else None
  end.

Fixpoint scan (st : Pending) (bytes : list N) : option Pending :=
  match bytes with
  | [] => Some st
  | b :: rest =>
      match step st b with
      | Some st' => scan st' rest
      | None => None
      end
  end.

Definition bytes_of (s : string) : list N :=
  map N_of_ascii (list_ascii_of_string s).

(** Well-formed UTF-8: every character complete and in its range. *)
Definition valid (s : string) : bool :=
  match scan boundary (bytes_of s) with
  | Some st => Nat.eqb (more st) 0
  | None => false
  end.

(** The bytes of one code point. *)
Definition encode_char (cp : N) : list N :=
  (if cp <? 128 then [cp]
   else if cp <? 2048 then [192 + cp / 64; 128 + cp mod 64]
   else if cp <? 65536
   then [224 + cp / 4096; 128 + (cp / 64) mod 64; 128 + cp mod 64]
   else [240 + (cp / 262144) mod 8; 128 + (cp / 4096) mod 64;
         128 + (cp / 64) mod 64; 128 + cp mod 64])%N.

(** [s.encode("utf-8")] for a [str] given by its code points. *)
Definition encode (s : list N) : string :=
  string_of_list_ascii (map ascii_of_N (flat_map encode_char s)).

End utf8.

(** The text parameters of an INSERT are bound before the statement
    runs: when one of them cannot be encoded the flush raises and
    nothing reaches the table.  Only text that comes from a directory
    listing can fail here; slugs and fingerprints are ASCII. *)
Definition bind_text {A : Type} (texts : list string) (statement : result A)
  : result A :=
  if forallb utf8.valid texts then statement else Raise UnicodeEncodeError.

(** The exceptions a flush raises.  When a flush fails, SQLAlchemy
    rolls the transaction back and the session stays unusable until
    [session.rollback()] is called: every later statement on it raises
    [PendingRollbackError]. *)
Definition raised_by_flush (e : Exception) : bool :=
  match e with
  | IntegrityError | UnicodeEncodeError => true
  | _ => false
  end.

(** ** services/image_processor.py *)

(** What ingestion takes from its surroundings. *)
Record Env : Type := {
  (* services/scanner.py over the tree, archives already expanded *)
  list_image_files : string -> list string;
  (* open(path, "rb"); None when the file cannot be read *)
  read_bytes : string -> option (list Byte.byte);
  (* hashlib.sha256(data).hexdigest() *)
  sha256_hexdigest : list Byte.byte -> string;
  (* os.path.getsize; None when it raises *)
  getsize : string -> option Z;
  (* PIL: Image.open(path).size; None when the file is no image *)
  pil_size : string -> option (Z * Z);
  (* PIL: camera model and parsed DateTimeOriginal; None without EXIF *)
  pil_exif : string -> option (string * option string);
  (* PIL: whether thumbnail() and save() go through *)
  thumbnail_ok : string -> bool;
  (* python-slugify *)
  slugify : string -> string;
  (* what another ingestion commits between this file's album lookup
     and its album INSERT *)
  other_writer : string -> DB -> DB
}.

Definition CHUNK : nat := 4096.

(** The [for byte_block in iter(lambda: f.read(4096), b"")] loop; [acc]
    is what has been fed to [sha256_hash.update] so far. *)
Fixpoint read_blocks (fuel : nat) (rest acc : list Byte.byte) : list Byte.byte :=
  match fuel with
  | O => acc
  | S k =>
      match firstn CHUNK rest with
      | [] => acc
      | byte_block => read_blocks k (skipn CHUNK rest) (acc ++ byte_block)
      end
  end.

Definition calculate_file_hash (env : Env) (file_path : string) : result string :=
  match read_bytes env file_path with
  | None => Raise OSError
  | Some content =>
      Ok (sha256_hexdigest env (read_blocks (S (List.length content)) content []))
  end.

Record Metadata : Type := {
  md_width : Z;
  md_height : Z;
  md_captured_at : option string;
  md_camera_model : string;
  md_file_size : Z
}.

Definition extract_metadata (env : Env) (file_path : string) : result Metadata :=
  match getsize env file_path with
  | None => Raise OSError
  | Some size =>
      match pil_size env file_path with
      | None =>
          Ok {| md_width := 0; md_height := 0; md_captured_at := None;
                md_camera_model := "Unknown"; md_file_size := size |}
      | Some (w, h) =>
          match pil_exif env file_path with
          | None =>
              Ok {| md_width := w; md_height := h; md_captured_at := None;
                    md_camera_model := "Unknown"; md_file_size := size |}
          | Some (model, date) =>
              Ok {| md_width := w; md_height := h; md_captured_at := date;
                    md_camera_model := model; md_file_size := size |}
          end
      end
  end.

(** Never raises; [false] leaves no file behind. *)
Definition generate_thumbnail (env : Env) (source_path target_name : string)
  : Txn bool :=
  if thumbnail_ok env source_path
  then write_thumbnail target_name ;;; ret true
  else ret false.

(** ** services/ingest.py *)

Record Stats : Type := {
  added : Z;
  skipped : Z;
  errors : Z
}.

Inductive Outcome : Type := Added | Skipped.

Definition exists_thumbnail (name0 : string) : Txn bool :=
  fun s => (s, Ok (existsb (String.eqb name0) (thumbnails s))).

(** Step 3 of the loop body, after the metadata: the thumbnail, named
    after the fingerprint and generated only when absent. *)
Definition ensure_thumbnail (env : Env) (file_path file_hash0 : string)
  : Txn bool :=
  let thumb_filename := (file_hash0 ++ ".jpg")%string in
  present <- exists_thumbnail thumb_filename ;;
  if present then ret true
  else generate_thumbnail env file_path thumb_filename.

(** Step 4, "Album Management": look the album up by the slug of the
    parent directory's name, create and commit it when there is none. *)
Definition resolve_album (env : Env) (owner_id : Z) (file_path : string)
  : Txn Album :=
  let parent_dir := posixpath.dirname file_path in
  let album_name0 := posixpath.basename parent_dir in
  let album_slug := slugify env album_name0 in
  found <- exec (fun db => select_album_by_slug db album_slug) ;;
  match found with
  | Some album => ret album
  | None =>
      concurrent (other_writer env file_path) ;;;
      album <- add (fun db => bind_text [album_name0; parent_dir]
                                (insert_album db album_name0 album_slug
                                              parent_dir (Some owner_id))) ;;
      commit ;;; ret album
  end.

(** Step 5, "Save Image Record". *)
Definition save_image (owner_id : Z) (file_path file_hash0 : string)
           (metadata : Metadata) (album : Album) : Txn Image :=
  new_image <- add (fun db =>
    bind_text [posixpath.basename file_path; file_path] (insert_image db
     {| image_id := 0;
        image_album_id := album_id album;
        image_owner_id := Some owner_id;
        filename := posixpath.basename file_path;
        path := file_path;
        file_hash := file_hash0;
        captured_at := md_captured_at metadata;
        width := Some (md_width metadata);
        height := Some (md_height metadata);
        file_size := Some (md_file_size metadata);
        camera_model := Some (md_camera_model metadata);
        is_processed := false;
        is_deleted := false |})) ;;
  commit ;;; ret new_image.

(** The body of the [try] in [process_import], for one path. *)
Definition process_file (env : Env) (owner_id : Z) (file_path : string)
  : Txn Outcome :=
  file_hash0 <- lift (calculate_file_hash env file_path) ;;
  existing_image <- exec (fun db => select_image_by_hash db file_hash0) ;;
  match existing_image with
  | Some _ => ret Skipped
  | None =>
      metadata <- lift (extract_metadata env file_path) ;;
      ensure_thumbnail env file_path file_hash0 ;;;
      album <- resolve_album env owner_id file_path ;;
      save_image owner_id file_path file_hash0 metadata album ;;;
      ret Added
  end.

Definition tally (st : Stats) (r : result Outcome) : Stats :=
  match r with
  | Ok Added =>
      {| added := added st + 1; skipped := skipped st; errors := errors st |}
  | Ok Skipped =>
      {| added := added st; skipped := skipped st + 1; errors := errors st |}
  | Raise _ =>
      {| added := added st; skipped := skipped st; errors := errors st + 1 |}
  end.

(** The same body on a session whose flush has failed: the
    fingerprint is computed, then the lookup raises. *)
Definition process_file_inactive (env : Env) (file_path : string)
  : Txn Outcome :=
  lift (calculate_file_hash env file_path) ;;;
  raise PendingRollbackError.

(** Whether the session is unusable after a round. *)
Definition leaves_inactive (inactive : bool) (r : result Outcome) : bool :=
  inactive || match r with
              | Raise e => raised_by_flush e
              | Ok _ => false
              end.

(** The [for file_path in image_paths] loop with its [try]/[except].
    All rounds share the caller's session, and neither the body nor
    the handler calls [session.rollback()]: [inactive] tells whether a
    flush has failed in an earlier round.  The lines the loop prints
    are left out; standard output is taken to accept them. *)
Fixpoint process_rounds (env : Env) (owner_id : Z) (inactive : bool)
         (image_paths : list string) (stats : Stats) (s : State)
  : State * Stats :=
  match image_paths with
  | [] => (s, stats)
  | file_path :: rest =>
      let (s', r) := (if inactive then process_file_inactive env file_path
                      else process_file env owner_id file_path) s in
      process_rounds env owner_id (leaves_inactive inactive r) rest
                     (tally stats r) s'
  end.

(** The loop on the session as [process_import] receives it. *)
Definition process_paths (env : Env) (owner_id : Z) (image_paths : list string)
           (stats : Stats) (s : State) : State * Stats :=
  process_rounds env owner_id false image_paths stats s.

Definition process_import (env : Env) (root_path : string) (owner_id : Z)
           (s : State) : State * Stats :=
  process_paths env owner_id (list_image_files env root_path)
                {| added := 0; skipped := 0; errors := 0 |} s.

(** ** Python [str] methods

    A [str] is a sequence of Unicode code points.  What [str.strip],
    [str.isdigit], [str.isupper] and [int] know about a character comes
    from the interpreter's Unicode tables, which enter as a parameter.
    The helpers on [ascii] serve the file names of the scanner. *)

Module pystr.

Definition code (c : ascii) : nat := nat_of_ascii c.

Definition isupper_char (c : ascii) : bool :=
  ((65 <=? code c) && (code c <=? 90))%nat.

Fixpoint all_chars (p : ascii -> bool) (s : string) : bool :=
  match s with
  | EmptyString => true
  | String c rest => p c && all_chars p rest
  end.

Fixpoint any_char (p : ascii -> bool) (s : string) : bool :=
  match s with
  | EmptyString => false
  | String c rest => p c || any_char p rest
  end.

Definition str : Type := list N.

(** The Unicode character database, as CPython's [unicodeobject.c]
    consults it. *)
Record Tables : Type := {
  (* Py_UNICODE_ISSPACE: bidirectional type WS, B or S, or category Zs *)
  isspace_cp : N -> bool;
  (* Py_UNICODE_ISDIGIT: numeric type Digit or Decimal *)
  isdigit_cp : N -> bool;
  (* Py_UNICODE_TODECIMAL: the value of a decimal digit *)
  todecimal_cp : N -> option Z;
  (* Py_UNICODE_ISUPPER, Py_UNICODE_ISLOWER, Py_UNICODE_ISTITLE *)
  isupper_cp : N -> bool;
  islower_cp : N -> bool;
  istitle_cp : N -> bool
}.

Section Methods.

Variable t : Tables.

Fixpoint lstrip (s : str) : str :=
  match s with
  | [] => []
  | ch :: rest => if isspace_cp t ch then lstrip rest else s
  end.

Fixpoint rstrip (s : str) : str :=
  match s with
  | [] => []
  | ch :: rest =>
      match rstrip rest with
      | [] => if isspace_cp t ch then [] else [ch]
      | r => ch :: r
      end
  end.

(** [s.strip()] *)
Definition strip (s : str) : str := rstrip (lstrip s).

(** [s.isdigit()]: non-empty and nothing but digits. *)
Definition isdigit (s : str) : bool :=
  match s with
  | [] => false
  | _ => forallb (isdigit_cp t) s
  end.

(** [s.isupper()]: no lower-case or title-case character, and at least
    one upper-case one. *)
Fixpoint isupper_from (cased : bool) (s : str) : bool :=
  match s with
  | [] => cased
  | ch :: rest =>
      if islower_cp t ch || istitle_cp t ch then false
      else isupper_from (cased || isupper_cp t ch) rest
  end.

Definition isupper (s : str) : bool := isupper_from false s.

(** [sys.int_info.default_max_str_digits] *)
Definition INT_MAX_STR_DIGITS : nat := 4300.

Fixpoint int_from (acc : Z) (s : str) : option Z :=
  match s with
  | [] => Some acc
  | ch :: rest =>
      match todecimal_cp t ch with
      | Some d => int_from (10 * acc + d) rest
      | None => None
      end
  end.

(** [int(s)] for an [s] on which [isdigit()] holds, so that there is
    no sign, space or underscore: it raises on a digit that is not a
    decimal one and on more digits than the interpreter converts. *)
Definition int (s : str) : result Z :=
  if (INT_MAX_STR_DIGITS <? List.length s)%nat then Raise ValueError
  else match int_from 0 s with
       | Some v => Ok v
       | None => Raise ValueError
       end.

Definition len (s : str) : Z := Z.of_nat (List.length s).

End Methods.

End pystr.

(** ** services/ai_engine.py *)

(** The candidate dictionaries: name, confidence, source, category. *)
Record TagItem : Type := {
  ti_name : string;
  ti_confidence : float;
  ti_source : string;
  ti_category : string
}.

(** [config.yaml], the two models and the interpreter's character
    tables. *)
Record Engine : Type := {
  ocr_enabled : bool;                          (* config["ocr"]["enabled"] *)
  clip_labels : list string;                   (* config["clip"]["labels"] *)
  clip_threshold : float;                      (* config["clip"]["confidence_threshold"] *)
  (* CLIP loading or inference raises on this batch *)
  clip_raises : list string -> bool;
  (* the softmax row of an image, one entry per label; None when the
     image cannot be loaded *)
  clip_probs : string -> option (list float);
  (* easyocr.Reader(...) can be constructed *)
  ocr_reader_loads : bool;
  (* reader.readtext(path, detail=0); None when it raises *)
  readtext : string -> option (list pystr.str);
  tables : pystr.Tables
}.

Definition clip_item (label : string) (score : float) : TagItem :=
  {| ti_name := label; ti_confidence := score;
     ti_source := "ai_clip"; ti_category := "auto_classified" |}.

(** [list.sort(key=confidence, reverse=True)], which is stable. *)
Fixpoint insert_desc (x : TagItem) (sorted : list TagItem) : list TagItem :=
  match sorted with
  | [] => [x]
  | y :: ys =>
      if PrimFloat.leb (ti_confidence y) (ti_confidence x)
      then x :: y :: ys
      else y :: insert_desc x ys
  end.

Definition sort_desc (l : list TagItem) : list TagItem :=
  fold_right insert_desc [] l.

Definition above_threshold (eng : Engine) (probs : list float) : list TagItem :=
  flat_map (fun '(label, score) =>
              if PrimFloat.ltb (clip_threshold eng) score
              then [clip_item label score] else [])
           (combine (clip_labels eng) probs).

Definition analyze_batch_semantics (eng : Engine) (image_paths : list string)
  : list (list TagItem) :=
  if clip_raises eng image_paths
  then map (fun _ => []) image_paths
  else map (fun p => match clip_probs eng p with
                     | None => []
                     | Some probs => sort_desc (above_threshold eng probs)
                     end) image_paths.

(** The [name] of a candidate is the text as the store will hold it. *)
Definition number_item (clean_text : pystr.str) : TagItem :=
  {| ti_name := utf8.encode clean_text; ti_confidence := 0.90%float;
     ti_source := "ai_ocr"; ti_category := "number" |}.

Definition text_item (clean_text : pystr.str) : TagItem :=
  {| ti_name := utf8.encode clean_text; ti_confidence := 0.80%float;
     ti_source := "ai_ocr"; ti_category := "text" |}.

(** [clean_text.isdigit() and 1 <= int(clean_text) <= 999] *)
Definition is_number (t : pystr.Tables) (clean_text : pystr.str) : result bool :=
  if pystr.isdigit t clean_text
  then match pystr.int t clean_text with
       | Ok v => Ok ((1 <=? v) && (v <=? 999))
       | Raise e => Raise e
       end
  else Ok false.

(** One round of the [for text in texts] loop: what it appends. *)
Definition classify_text (t : pystr.Tables) (text : pystr.str)
  : result (list TagItem) :=
  let clean_text := pystr.strip t text in
  match is_number t clean_text with
  | Raise e => Raise e
  | Ok true => Ok [number_item clean_text]
  | Ok false =>
      if (3 <? pystr.len clean_text) && pystr.isupper t clean_text
      then Ok [text_item clean_text]
      else Ok []
  end.

(** The loop, inside the [try]: an exception ends it, and [results]
    is returned as far as it got. *)
Fixpoint classify_texts (t : pystr.Tables) (texts : list pystr.str)
         (results : list TagItem) : list TagItem :=
  match texts with
  | [] => results
  | text :: rest =>
      match classify_text t text with
      | Ok items => classify_texts t rest (results ++ items)
      | Raise _ => results
      end
  end.

Definition analyze_image_text (eng : Engine) (image_path : string)
  : list TagItem :=
  if negb (ocr_enabled eng) then []
  else if negb (ocr_reader_loads eng) then []
  else match readtext eng image_path with
       | None => []
       | Some texts => classify_texts (tables eng) texts []
       end.

Definition analyze_batch (eng : Engine) (image_paths : list string)
  : result (list (list TagItem)) :=
  let clip_results := analyze_batch_semantics eng image_paths in
  let combined ocr_results :=
    map (fun '(c, o) => c ++ o) (combine clip_results ocr_results) in
  if ocr_enabled eng then
    if ocr_reader_loads eng
    then Ok (combined (map (analyze_image_text eng) image_paths))
    else Raise RuntimeError
  else Ok (combined (map (fun _ => []) image_paths)).

(** ** workers/ai_processor.py *)

Definition BATCH_SIZE : nat := 8.

Definition new_link (img_id : Z) (tag : Tag) (tag_item : TagItem) : ImageTagLink :=
  {| link_image_id := img_id; link_tag_id := tag_id tag;
     confidence := ti_confidence tag_item; source := ti_source tag_item;
     is_verified := false |}.

(** "Find or Create Tag": a new tag is committed at once. *)
Definition find_or_create_tag (tag_item : TagItem) : Txn Tag :=
  found <- exec (fun db => select_tag_by_name db (ti_name tag_item)) ;;
  match found with
  | Some tag => ret tag
  | None =>
      tag <- add (fun db => insert_tag db (ti_name tag_item)
                                       (ti_category tag_item)) ;;
      commit ;;; ret tag
  end.

(** The body of [for tag_item in tags_data]. *)
Definition persist_tag_item (img_id : Z) (tag_item : TagItem) : Txn unit :=
  tag <- find_or_create_tag tag_item ;;
  existing_link <- exec (fun db => select_link db img_id (tag_id tag)) ;;
  match existing_link with
  | Some _ => ret tt
  | None =>
      add (fun db => match insert_link db (new_link img_id tag tag_item) with
                     | Ok db' => Ok (tt, db')
                     | Raise e => Raise e
                     end)
  end.

Fixpoint persist_tags (img_id : Z) (tags_data : list TagItem) : Txn unit :=
  match tags_data with
  | [] => ret tt
  | tag_item :: rest =>
      persist_tag_item img_id tag_item ;;; persist_tags img_id rest
  end.

(** The body of [for idx, (img_id, img_path) in enumerate(batch_tuples)];
    [batch_images] are the rows fetched when the session was opened. *)
Definition persist_image (batch_images : list Image)
           (batch_results : list (list TagItem))
           (idx : nat) (img_id : Z) : Txn unit :=
  match find (fun i => image_id i =? img_id) batch_images with
  | None => ret tt
  | Some img =>
      match nth_error batch_results idx with
      | None => raise IndexError
      | Some [] => modify (fun db => update_image_processed db (image_id img))
      | Some tags_data =>
          persist_tags (image_id img) tags_data ;;;
          modify (fun db => update_image_processed db (image_id img))
      end
  end.

Fixpoint persist_images (batch_images : list Image)
         (batch_results : list (list TagItem))
         (idx : nat) (batch_tuples : list (Z * string)) : Txn unit :=
  match batch_tuples with
  | [] => ret tt
  | (img_id, _) :: rest =>
      persist_image batch_images batch_results idx img_id ;;;
      persist_images batch_images batch_results (S idx) rest
  end.

(** Step B of a batch, inside [with Session(engine) as session]. *)
Definition save_results (batch_tuples : list (Z * string))
           (batch_results : list (list TagItem)) : Txn unit :=
  let image_ids := map fst batch_tuples in
  batch_images <- exec (fun db =>
      filter (fun i => existsb (Z.eqb (image_id i)) image_ids) (images db)) ;;
  persist_images batch_images batch_results 0 batch_tuples ;;;
  commit.

(** One round of the batch loop; its [except] swallows every exception. *)
Definition process_batch (eng : Engine) (batch_tuples : list (Z * string))
           (s : State) : State :=
  match analyze_batch eng (map snd batch_tuples) with
  | Raise _ => s
  | Ok batch_results =>
      fst (with_session (save_results batch_tuples batch_results) s)
  end.

(** [range(0, total, step)] *)
Definition range_step (total step : nat) : list nat :=
  map (fun k => (k * step)%nat) (seq 0 ((total + step - 1) / step)).

Definition fetch_worklist (db : DB) : list (Z * string) :=
  map (fun i => (image_id i, path i))
      (filter (fun i => negb (is_processed i)) (images db)).

Definition run_ai_processing_task (eng : Engine) (s : State) : State :=
  let worklist := fetch_worklist (committed s) in
  let total_images := List.length worklist in
  if (total_images =? 0)%nat then s
  else
    fold_left (fun s' i =>
                 process_batch eng (firstn BATCH_SIZE (skipn i worklist)) s')
              (range_step total_images BATCH_SIZE) s.

(** ** routers/review.py *)

Record ReviewItem : Type := {
  ri_image_id : Z;
  ri_tag_id : Z;
  ri_image_hash : string;
  ri_tag_name : string;
  ri_confidence : float
}.

Definition LOW : float := 0.30%float.
Definition HIGH : float := 0.90%float.

(** The three [where] clauses on the link itself: the "low-confidence
    tags that need human verification" of the docstring. *)
Definition needs_verification (link : ImageTagLink) : bool :=
  negb (is_verified link)
  && PrimFloat.ltb (confidence link) HIGH
  && PrimFloat.ltb LOW (confidence link).

(** All four [where] clauses. *)
Definition review_where (link : ImageTagLink) (image : Image) : bool :=
  needs_verification link && negb (is_deleted image).

(** The two joins and the [where]: rows [(link, image, tag)]. *)
Definition review_rows (db : DB) : list (ImageTagLink * Image * Tag) :=
  flat_map (fun link =>
    flat_map (fun image =>
      flat_map (fun tag =>
        if (link_image_id link =? image_id image)
           && (link_tag_id link =? tag_id tag)
           && review_where link image
        then [(link, image, tag)] else [])
      (tags db))
    (images db))
  (links db).

(** SQLite's LIMIT: a negative value means no upper bound. *)
Definition sql_limit {A} (limit : Z) (rows : list A) : list A :=
  if limit <? 0 then rows else firstn (Z.to_nat limit) rows.

Definition review_item (row : ImageTagLink * Image * Tag) : ReviewItem :=
  let '(link, image, tag) := row in
  {| ri_image_id := image_id image; ri_tag_id := tag_id tag;
     ri_image_hash := file_hash image; ri_tag_name := tag_name tag;
     ri_confidence := confidence link |}.

Definition DEFAULT_LIMIT : Z := 20.

Definition get_review_items (limit : Z) (db : DB) : list ReviewItem :=
  map review_item (sql_limit limit (review_rows db)).

(** The handler body; the session of [Depends(get_session)] is closed
    when the request ends, whether it returned or raised. *)
Definition review_tag (image_id0 tag_id0 : Z) (action : string) : Txn string :=
  with_session (
    link <- exec (fun db => select_link db image_id0 tag_id0) ;;
    match link with
    | None => raise (HTTPException 404 "Tag link not found")
    | Some _ =>
        (if String.eqb action "approve"
         then modify (fun db => update_link_approved db image_id0 tag_id0)
         else if String.eqb action "reject"
         then modify (fun db => delete_link db image_id0 tag_id0)
         else raise (HTTPException 400
                       "Invalid action. Use 'approve' or 'reject'.")) ;;;
        commit ;;; ret "success"
    end).

(** * Further parts of the backend *)

From Stdlib Require Import Permutation Sorted.

Set Warnings "-register-all".


(** ** More of Python's [str] and [os.path], on the bytes of file names *)

Definition lower_char (c : ascii) : ascii :=
  if pystr.isupper_char c then ascii_of_nat (nat_of_ascii c + 32) else c.

(** [s.lower()] *)
Fixpoint str_lower (s : string) : string :=
  match s with
  | EmptyString => EmptyString
  | String c rest => String (lower_char c) (str_lower rest)
  end.

(** [s.startswith('.')] *)
Definition startswith_dot (s : string) : bool :=
  match s with
  | EmptyString => false
  | String c _ => Ascii.eqb c "."%char
  end.

(** [s.endswith(suffix)] *)
Fixpoint str_endswith (suffix s : string) : bool :=
  String.eqb suffix s
  || match s with
     | EmptyString => false
     | String _ rest => str_endswith suffix rest
     end.

(** Whether [old] occurs in [s]. *)
Fixpoint str_contains (old s : string) : bool :=
  String.prefix old s
  || match s with
     | EmptyString => false
     | String _ rest => str_contains old rest
     end.

(** [s.replace(old, new)] for a non-empty [old]: occurrences are taken
    from the left and do not overlap; [skip] counts the characters of
    an occurrence still to be passed over. *)
Fixpoint replace_from (old new : string) (skip : nat) (s : string) : string :=
  match s with
  | EmptyString => EmptyString
  | String c rest =>
      match skip with
      | S k => replace_from old new k rest
      | O =>
          if String.prefix old s
          then (new ++ replace_from old new (String.length old - 1) rest)%string
          else String c (replace_from old new 0 rest)
      end
  end.

Definition str_replace (old new s : string) : string :=
  replace_from old new 0 s.

(** [os.path.join(a, b)] *)
Definition os_path_join (a b : string) : string :=
  if String.prefix "/" b then b
  else if String.eqb a EmptyString || str_endswith "/" a then (a ++ b)%string
  else (a ++ "/" ++ b)%string.

(** [(s[:i], s[i:])] for the last '.' of [s], if there is one. *)
Fixpoint rsplit_dot (s : string) : option (string * string) :=
  match s with
  | EmptyString => None
  | String c rest =>
      match rsplit_dot rest with
      | Some (stem, ext) => Some (String c stem, ext)
      | None => if Ascii.eqb c "."%char then Some (EmptyString, s) else None
      end
  end.

(** [os.path.splitext(p)]: the extension starts at the last dot of the
    last component, unless only dots precede it there. *)
Definition os_path_splitext (p : string) : string * string :=
  let (head, tail) := posixpath.rsplit p in
  match rsplit_dot tail with
  | Some (stem, ext) =>
      if pystr.any_char (fun c => negb (Ascii.eqb c "."%char)) stem
      then ((head ++ stem)%string, ext)
      else (p, EmptyString)
  | None => (p, EmptyString)
  end.

(** ** services/scanner.py *)

Module scanner.

(** A directory tree as [os.walk] sees it: entries in listing order,
    symbolic links to directories (which it does not follow) left out. *)
Inductive Node : Type :=
| File (name : string)
| Dir (name : string) (entries : list Node).

Definition SUPPORTED_EXTENSIONS : list string :=
  [".jpg"; ".jpeg"; ".png"; ".webp"].

(** The two tests a file name goes through in the inner loop. *)
Definition accepts (file : string) : bool :=
  negb (startswith_dot file)
  && existsb (String.eqb (str_lower (snd (os_path_splitext file))))
             SUPPORTED_EXTENSIONS.

(** The [os.walk] loop from directory [n] at path [root]: the files of
    a directory first, then its subdirectories, those with a leading
    dot pruned. *)
Fixpoint walk (abspath : string -> string) (root : string) (n : Node)
  : list string :=
  match n with
  | File _ => []
  | Dir _ entries =>
      flat_map (fun e => match e with
                         | File file =>
                             if accepts file
                             then [abspath (os_path_join root file)] else []
                         | Dir _ _ => []
                         end) entries
      ++ flat_map (fun e => match e with
                            | Dir d _ =>
                                if startswith_dot d then []
                                else walk abspath (os_path_join root d) e
                            | File _ => []
                            end) entries
  end.

(** [lookup] is the file system: what is at a path, if anything. *)
Definition list_image_files (abspath : string -> string)
           (lookup : string -> option Node) (root_path : string)
  : list string :=
  match lookup root_path with
  | None => []
  | Some n => walk abspath root_path n
  end.

End scanner.

(** ** services/ingest.py: archives *)

Definition is_zip_name (file : string) : bool :=
  str_endswith ".zip" (str_lower file).

(** [os.makedirs(name)] on a disk given by the paths that exist: the
    missing directories from the top down; [fuel] bounds the way up. *)
Fixpoint makedirs (fuel : nat) (name0 : string) (disk : list string)
  : list string :=
  match fuel with
  | O => disk
  | S k =>
      if String.eqb name0 EmptyString || existsb (String.eqb name0) disk
      then disk
      else
        let head := posixpath.dirname name0 in
        (if String.eqb head name0 then disk else makedirs k head disk)
        ++ [name0]
  end.

(** What extracting one member does: the directories above it are
    made where missing, then the member is written.  A member is given
    by the components of its sanitised name. *)
Definition extract_member (target_dir : string) (member : list string)
           (disk : list string) : list string :=
  let targetpath := fold_left os_path_join member target_dir in
  let upperdirs := posixpath.dirname targetpath in
  let disk' := makedirs (S (String.length upperdirs)) upperdirs disk in
  if existsb (String.eqb targetpath) disk' then disk'
  else disk' ++ [targetpath].

(** [zip_extract] is what [zipfile.ZipFile(zip_path).extractall] does:
    the members it wrote, in order, and whether it returned; an
    archive that cannot be opened gives no member and [false].  [disk]
    lists the paths that exist.  The result is the new disk and the
    returned value. *)
Definition extract_zip_in_place
           (zip_extract : string -> list (list string) * bool)
           (zip_path : string) (disk : list string)
  : list string * option string :=
  let target_dir := str_replace ".zip" "" zip_path in
  if existsb (String.eqb target_dir) disk
  then (disk, Some target_dir)
  else let (written, returned) := zip_extract zip_path in
       (fold_left (fun d member => extract_member target_dir member d)
                  written disk,
        if returned then Some target_dir else None).

(** ** database.py: users *)

Record User : Type := {
  user_id : Z;
  email : string;
  hashed_password : string;
  full_name : option string;
  role : string;
  is_active : bool
}.

(** ** routers/manage.py *)

Definition set_deleted (i : Image) : Image :=
  {| image_id := image_id i; image_album_id := image_album_id i;
     image_owner_id := image_owner_id i; filename := filename i;
     path := path i; file_hash := file_hash i; captured_at := captured_at i;
     width := width i; height := height i; file_size := file_size i;
     camera_model := camera_model i; is_processed := is_processed i;
     is_deleted := true |}.

Definition update_images (f : Image -> Image) (db : DB) : DB :=
  {| images := map f (images db); albums := albums db;
     tags := tags db; links := links db |}.

Definition set_album_deleted (a : Album) : Album :=
  {| album_id := album_id a; album_name := album_name a; slug := slug a;
     root_path := root_path a; album_is_deleted := true;
     album_owner_id := album_owner_id a |}.

Definition update_album_deleted (db : DB) (album_id0 : Z) : DB :=
  {| images := images db;
     albums := map (fun a => if album_id a =? album_id0
                             then set_album_deleted a else a) (albums db);
     tags := tags db; links := links db |}.

Definition select_album_by_id (db : DB) (album_id0 : Z) : option Album :=
  find (fun a => album_id a =? album_id0) (albums db).

Definition authentication_required : Exception :=
  HTTPException 401 "Authentication required".

Inductive DeleteResponse : Type :=
| Processed0                       (* {"processed": 0} *)
| BatchDeleted (deleted : Z).       (* {"message": ..., "deleted": n} *)

Definition in_ids (image_ids : list Z) (i : Image) : bool :=
  existsb (Z.eqb (image_id i)) image_ids.

Definition delete_images_batch (current_user : option User)
           (image_ids : list Z) : Txn DeleteResponse :=
  with_session (
    match current_user with
    | None => raise authentication_required
    | Some _ =>
        match image_ids with
        | [] => ret Processed0
        | _ =>
            images_to_delete <-
              exec (fun db => filter (in_ids image_ids) (images db)) ;;
            modify (update_images (fun i => if in_ids image_ids i
                                            then set_deleted i else i)) ;;;
            commit ;;;
            ret (BatchDeleted (Z.of_nat (List.length images_to_delete)))
        end
    end).

Definition manual_link (img : Image) (tag : Tag) : ImageTagLink :=
  {| link_image_id := image_id img; link_tag_id := tag_id tag;
     confidence := 1.0%float; source := "manual"; is_verified := true |}.

(** The answer's [tag] is serialised from the ORM object.  The commit
    that follows the insertion of the link expires its attributes, and
    nothing loads them again: the answer then carries a tag without
    fields, [None] here. *)
Definition add_image_tag (current_user : option User) (image_id0 : Z)
           (tag_name0 : string) : Txn (option Tag) :=
  with_session (
    match current_user with
    | None => raise authentication_required
    | Some _ =>
        img <- exec (fun db => select_image_by_id db image_id0) ;;
        match img with
        | None => raise (HTTPException 404 "Image not found")
        | Some img =>
            found <- exec (fun db => select_tag_by_name db tag_name0) ;;
            tag <- match found with
                   | Some tag => ret tag
                   | None =>
                       tag <- add (fun db => insert_tag db tag_name0 "manual") ;;
                       commit ;;; ret tag
                   end ;;
            link <- exec (fun db => select_link db (image_id img) (tag_id tag)) ;;
            match link with
            | Some _ => ret (Some tag)
            | None =>
                add (fun db => match insert_link db (manual_link img tag) with
                               | Ok db' => Ok (tt, db')
                               | Raise e => Raise e
                               end) ;;;
                commit ;;; ret None
            end
        end
    end).

Definition remove_image_tag (current_user : option User)
           (image_id0 tag_id0 : Z) : Txn string :=
  with_session (
    match current_user with
    | None => raise authentication_required
    | Some _ =>
        link <- exec (fun db => select_link db image_id0 tag_id0) ;;
        match link with
        | None => raise (HTTPException 404 "Tag not linked to image")
        | Some _ =>
            modify (fun db => delete_link db image_id0 tag_id0) ;;;
            commit ;;; ret "success"
        end
    end).

(** The answer carries the album's name and [images_deleted]. *)
Definition delete_album (current_user : option User) (album_id0 : Z)
           (cascade : bool) : Txn (string * Z) :=
  with_session (
    match current_user with
    | None => raise authentication_required
    | Some _ =>
        album <- exec (fun db => select_album_by_id db album_id0) ;;
        match album with
        | None => raise (HTTPException 404 "Album not found")
        | Some album =>
            modify (fun db => update_album_deleted db album_id0) ;;;
            images_count <-
              (if cascade then
                 album_images <-
                   exec (fun db => filter (fun i => image_album_id i =? album_id0)
                                          (images db)) ;;
                 modify (update_images
                           (fun i => if image_album_id i =? album_id0
                                     then set_deleted i else i)) ;;;
                 ret (Z.of_nat (List.length album_images))
               else ret 0) ;;
            commit ;;; ret (album_name album, images_count)
        end
    end).

(** ** routers/gallery.py *)

(** The tags of an image, through the link table, in the order of
    the tag table. *)
Definition tags_of_image (db : DB) (image_id0 : Z) : list Tag :=
  filter (fun t => existsb (link_key_eqb image_id0 (tag_id t)) (links db))
         (tags db).

Definition get_image_detail (image_id0 : Z) : Txn (Image * list Tag) :=
  with_session (
    image <- exec (fun db =>
               find (fun i => (image_id i =? image_id0) && negb (is_deleted i))
                    (images db)) ;;
    match image with
    | None => raise (HTTPException 404 "Image not found")
    | Some image =>
        image_tags <- exec (fun db => tags_of_image db (image_id image)) ;;
        ret (image, image_tags)
    end).

(** [os_path_exists] tells whether the file is on disk; the answer is
    the path handed to [FileResponse]. *)
Definition get_image_file (os_path_exists : string -> bool) (image_id0 : Z)
  : Txn string :=
  with_session (
    image <- exec (fun db => select_image_by_id db image_id0) ;;
    match image with
    | None => raise (HTTPException 404 "Image not found")
    | Some image =>
        if os_path_exists (path image) then ret (path image)
        else raise (HTTPException 404 "File not found on disk")
    end).

(** * Predicates and sample stores used in the statements *)

Definition link_key (l : ImageTagLink) : Z * Z :=
  (link_image_id l, link_tag_id l).

(** A store for the review queue: one image carrying [n] unverified
    classifier links of confidence 0.5, one per tag. *)
Definition sample_image (id0 : Z) (hash0 : string) (processed deleted : bool)
  : Image :=
  {| image_id := id0; image_album_id := 1; image_owner_id := Some 1;
     filename := "a.jpg"; path := "/photos/race/a.jpg"; file_hash := hash0;
     captured_at := None; width := Some 640; height := Some 480;
     file_size := Some 1024; camera_model := Some "Unknown";
     is_processed := processed; is_deleted := deleted |}.

Definition label_of (k : nat) : string :=
  string_of_list_ascii (repeat "x"%char k).

Definition crowded_db (n : nat) : DB :=
  {| images := [sample_image 1 "h1" true false];
     albums := [];
     tags := map (fun k => {| tag_id := Z.of_nat k; tag_name := label_of k;
                              category := "auto_classified" |}) (seq 1 n);
     links := map (fun k => {| link_image_id := 1; link_tag_id := Z.of_nat k;
                               confidence := 0.5%float; source := "ai_clip";
                               is_verified := false |}) (seq 1 n) |}.

(** Duplicate-freedom of the three keys the specification speaks of. *)
Definition unique_slugs (db : DB) : Prop := NoDup (map slug (albums db)).
Definition unique_links (db : DB) : Prop := NoDup (map link_key (links db)).
Definition unique_hashes (db : DB) : Prop := NoDup (map file_hash (images db)).

Definition count_hash (h : string) (db : DB) : nat :=
  List.length (filter (fun i => String.eqb (file_hash i) h) (images db)).

Definition count_link (image_id0 tag_id0 : Z) (db : DB) : nat :=
  List.length (filter (link_key_eqb image_id0 tag_id0) (links db)).

(** A store holding one image of fingerprint [h1] and nothing else. *)
Definition one_image_db : DB :=
  {| images := [sample_image 1 "h1" false false];
     albums := [{| album_id := 1; album_name := "race"; slug := "race";
                   root_path := "/photos/race"; album_is_deleted := false;
                   album_owner_id := Some 1 |}];
     tags := []; links := [] |}.

(** No other connection writes while this one ingests. *)
Definition quiet (env : Env) : Prop :=
  forall (file_path : string) (db : DB), other_writer env file_path db = db.

Definition album_slug_of (env : Env) (file_path : string) : string :=
  slugify env (posixpath.basename (posixpath.dirname file_path)).

(** A stand-in for SHA-256 in the sample runs: the bytes themselves. *)
Definition plain_digest (content : list Byte.byte) : string :=
  string_of_list_byte content.

Definition sample_bytes (file_path : string) : option (list Byte.byte) :=
  if String.eqb file_path "/photos/race/a.jpg" then Some [Byte.x4a; Byte.x50]
  else if String.eqb file_path "/photos/race/b.jpg" then Some [Byte.x4a; Byte.x50]
  else if String.eqb file_path "/photos/rally/c.jpg" then Some [Byte.x47]
  else None.

Definition sample_env (paths : list string) (writer : string -> DB -> DB) : Env :=
  {| list_image_files := fun _ => paths;
     read_bytes := sample_bytes;
     sha256_hexdigest := plain_digest;
     getsize := fun p => option_map (fun c => Z.of_nat (List.length c))
                                    (sample_bytes p);
     pil_size := fun _ => Some (640, 480);
     pil_exif := fun _ => None;
     thumbnail_ok := fun _ => true;
     slugify := fun name0 => name0;
     other_writer := writer |}.

Definition no_writer (file_path : string) (db : DB) : DB := db.

(** Another ingestion that creates the album "race" for itself. *)
Definition racing_writer (file_path : string) (db : DB) : DB :=
  match insert_album db "race" "race" "/photos/race" (Some 2) with
  | Ok (_, db') => db'
  | Raise _ => db
  end.

Definition zero_stats : Stats := {| added := 0; skipped := 0; errors := 0 |}.

(** What the decoder guarantees of a state it has reached: with no
    byte pending it is at a boundary, and a pending byte is not ASCII. *)
Definition between_characters (st : utf8.Pending) : Prop :=
  (utf8.more st = 0%nat -> st = utf8.boundary) /\ (128 <= utf8.low st)%N.

(** The text parameters of the album row and of the image row that
    ingestion writes for a file. *)
Definition album_texts (file_path : string) : list string :=
  [posixpath.basename (posixpath.dirname file_path);
   posixpath.dirname file_path].

Definition image_texts (file_path : string) : list string :=
  [posixpath.basename file_path; file_path].

(** Whether the session is unusable when the loop has gone through
    [image_paths]. *)
Fixpoint inactive_after (env : Env) (owner_id : Z) (inactive : bool)
         (image_paths : list string) (s : State) : bool :=
  match image_paths with
  | [] => inactive
  | file_path :: rest =>
      let (s', r) := (if inactive then process_file_inactive env file_path
                      else process_file env owner_id file_path) s in
      inactive_after env owner_id (leaves_inactive inactive r) rest s'
  end.

(** The counts after [n] more rounds that all raised. *)
Definition failed_rounds (stats : Stats) (n : nat) : Stats :=
  {| added := added stats; skipped := skipped stats;
     errors := errors stats + Z.of_nat n |}.

(** Another ingestion of the same content, committing its row between
    this file's lookups and its INSERT. *)
Definition twin_writer (file_path : string) (db : DB) : DB :=
  match insert_image db (sample_image 0 "JP" false false) with
  | Ok (_, db') => db'
  | Raise _ => db
  end.

(** Another ingestion that creates the album "race" while this one is
    at its first file, and at no other time. *)
Definition racing_once (file_path : string) (db : DB) : DB :=
  if String.eqb file_path "/photos/race/a.jpg" then racing_writer file_path db
  else db.

(** A file named in Latin-1: the byte E9 before ".jpg" is no UTF-8. *)
Definition latin1_path : string :=
  ("/photos/race/caf" ++ String (ascii_of_nat 233) ".jpg")%string.

Definition legacy_bytes (file_path : string) : option (list Byte.byte) :=
  if String.eqb file_path latin1_path then Some [Byte.x4a; Byte.x50]
  else sample_bytes file_path.

Definition legacy_env (paths : list string) : Env :=
  {| list_image_files := fun _ => paths;
     read_bytes := legacy_bytes;
     sha256_hexdigest := plain_digest;
     getsize := fun p => option_map (fun c => Z.of_nat (List.length c))
                                    (legacy_bytes p);
     pil_size := fun _ => Some (640, 480);
     pil_exif := fun _ => None;
     thumbnail_ok := fun _ => true;
     slugify := fun name0 => name0;
     other_writer := no_writer |}.

(** [new] is [old] followed by links on pairs that [old] does not have,
    no pair twice. *)
Definition link_extends (old new : list ImageTagLink) : Prop :=
  exists extra,
    new = old ++ extra
    /\ NoDup (map link_key extra)
    /\ forall l, In l extra -> ~ In (link_key l) (map link_key old).

(** [new] is [old] with some rows marked as processed. *)
Definition flags_grow (old new : list Image) : Prop :=
  exists g : Image -> Image,
    new = map g old /\ forall i, g i = i \/ g i = set_processed i.

Definition links_of (image_id0 : Z) (db : DB) : list ImageTagLink :=
  filter (fun l => link_image_id l =? image_id0) (links db).

(** Two images of one album, neither tagged yet, and an engine whose
    classifier sees a car in the first and nothing in the second. *)
Definition image_a : Image :=
  {| image_id := 1; image_album_id := 1; image_owner_id := Some 7;
     filename := "a.jpg"; path := "/photos/race/a.jpg"; file_hash := "ha";
     captured_at := None; width := Some 640; height := Some 480;
     file_size := Some 2; camera_model := Some "Unknown";
     is_processed := false; is_deleted := false |}.

Definition image_b : Image :=
  {| image_id := 2; image_album_id := 1; image_owner_id := Some 7;
     filename := "b.jpg"; path := "/photos/race/b.jpg"; file_hash := "hb";
     captured_at := None; width := Some 640; height := Some 480;
     file_size := Some 2; camera_model := Some "Unknown";
     is_processed := false; is_deleted := false |}.

Definition two_images_db : DB :=
  {| images := [image_a; image_b]; albums := []; tags := []; links := [] |}.

(** The character tables for U+0000..U+00FF; nothing is known of the
    characters beyond. *)
Definition latin1_tables : pystr.Tables :=
  {| pystr.isspace_cp := fun ch =>
       ((9 <=? ch) && (ch <=? 13) || (28 <=? ch) && (ch <=? 32)
        || (ch =? 133) || (ch =? 160))%N;
     pystr.isdigit_cp := fun ch =>
       ((48 <=? ch) && (ch <=? 57)
        || (ch =? 178) || (ch =? 179) || (ch =? 185))%N;
     pystr.todecimal_cp := fun ch =>
       if ((48 <=? ch) && (ch <=? 57))%N then Some (Z.of_N ch - 48) else None;
     pystr.isupper_cp := fun ch =>
       ((65 <=? ch) && (ch <=? 90) || (192 <=? ch) && (ch <=? 214)
        || (216 <=? ch) && (ch <=? 222))%N;
     pystr.islower_cp := fun ch =>
       ((97 <=? ch) && (ch <=? 122) || (ch =? 170) || (ch =? 181)
        || (ch =? 186) || (223 <=? ch) && (ch <=? 246)
        || (248 <=? ch) && (ch <=? 255))%N;
     pystr.istitle_cp := fun _ => false |}.

(** A [str] of ASCII characters, from its bytes. *)
Definition text_of (s : string) : pystr.str := utf8.bytes_of s.

Definition sample_engine : Engine :=
  {| ocr_enabled := true;
     clip_labels := ["car"; "crowd"];
     clip_threshold := 0.6%float;
     clip_raises := fun _ => false;
     clip_probs := fun p => if String.eqb p "/photos/race/a.jpg"
                            then Some [0.75%float; 0.25%float]
                            else Some [0.5%float; 0.5%float];
     ocr_reader_loads := true;
     readtext := fun _ => Some [];
     tables := latin1_tables |}.

(** The same engine with a recognizer that reads [texts] on every
    image. *)
Definition reading_engine (texts : list pystr.str) : Engine :=
  {| ocr_enabled := true;
     clip_labels := clip_labels sample_engine;
     clip_threshold := clip_threshold sample_engine;
     clip_raises := clip_raises sample_engine;
     clip_probs := clip_probs sample_engine;
     ocr_reader_loads := true;
     readtext := fun _ => Some texts;
     tables := latin1_tables |}.

(** What a round of the recognizer's loop appends: nothing when it
    raises. *)
Definition candidates_of (t : pystr.Tables) (text : pystr.str) : list TagItem :=
  match classify_text t text with
  | Ok items => items
  | Raise _ => []
  end.

(** The round goes through. *)
Definition classifies (t : pystr.Tables) (text : pystr.str) : Prop :=
  classify_text t text = Ok (candidates_of t text).

Definition car_tag : Tag :=
  {| tag_id := 1; tag_name := "car"; category := "manual" |}.

Definition reviewed_link : ImageTagLink :=
  {| link_image_id := 1; link_tag_id := 1; confidence := 1.0%float;
     source := "manual"; is_verified := true |}.

(** The same two images, the first already tagged "car" by hand. *)
Definition tagged_db : DB :=
  {| images := [image_a; image_b]; albums := []; tags := [car_tag];
     links := [reviewed_link] |}.

(** * Further predicates *)

(** The same store, whatever lies in the thumbnail directory. *)
Definition same_store (s1 s2 : State) : Prop :=
  committed s1 = committed s2 /\ working s1 = working s2.

(** The environment with another outcome of thumbnail generation. *)
Definition with_thumbnail_ok (env : Env) (ok : string -> bool) : Env :=
  {| list_image_files := list_image_files env;
     read_bytes := read_bytes env;
     sha256_hexdigest := sha256_hexdigest env;
     getsize := getsize env;
     pil_size := pil_size env;
     pil_exif := pil_exif env;
     thumbnail_ok := ok;
     slugify := slugify env;
     other_writer := other_writer env |}.

(** What ingestion writes into a row for the file at [path i]. *)
Definition ingested_row (env : Env) (owner : Z) (i : Image) : Prop :=
  calculate_file_hash env (path i) = Ok (file_hash i)
  /\ filename i = posixpath.basename (path i)
  /\ image_owner_id i = Some owner
  /\ is_processed i = false
  /\ is_deleted i = false.

(** The row's album is the one the store returns for the slug of the
    file's directory. *)
Definition in_directory_album (env : Env) (db : DB) (i : Image) : Prop :=
  exists a,
    select_album_by_slug db (album_slug_of env (path i)) = Some a
    /\ image_album_id i = album_id a.

(** Nothing is left to ingest for [p]: it cannot be read, its
    fingerprint is stored, or its size cannot be read. *)
Definition settled (env : Env) (p : string) (db : DB) : Prop :=
  match calculate_file_hash env p with
  | Raise _ => True
  | Ok h => select_image_by_hash db h <> None \/ getsize env p = None
  end.

(** No score of the list is NaN: any two can be compared. *)
Definition comparable (l : list TagItem) : Prop :=
  forall a b, In a l -> In b l ->
    PrimFloat.leb (ti_confidence a) (ti_confidence b) = true
    \/ PrimFloat.leb (ti_confidence b) (ti_confidence a) = true.

(** [b] does not outrank [a]. *)
Definition not_below (a b : TagItem) : Prop :=
  PrimFloat.leb (ti_confidence b) (ti_confidence a) = true.

(** A [str] that [str.strip] leaves as it is. *)
Definition stripped (t : pystr.Tables) (s : pystr.str) : Prop :=
  pystr.strip t s = s.

Definition three_candidates : list TagItem :=
  [clip_item "crowd" 0.25%float; clip_item "car" 0.75%float;
   clip_item "track" 0.5%float].

(** The batches of the worker's loop over a worklist. *)
Definition batches_of {A : Type} (worklist : list A) : list (list A) :=
  map (fun i => firstn BATCH_SIZE (skipn i worklist))
      (range_step (List.length worklist) BATCH_SIZE).

(** A link as the worker writes it for the engine's candidates. *)
Definition worker_made (eng : Engine) (l : ImageTagLink) : Prop :=
  is_verified l = false
  /\ ((source l = "ai_clip"
       /\ PrimFloat.ltb (clip_threshold eng) (confidence l) = true)
      \/ (source l = "ai_ocr"
          /\ (confidence l = 0.90%float \/ confidence l = 0.80%float))).

(** Tag names are unique, and every link points at a tag row and an
    image row of the store. *)
Definition unique_tag_names (db : DB) : Prop := NoDup (map tag_name (tags db)).

Definition links_resolve (db : DB) : Prop :=
  forall l, In l (links db) ->
    (exists t, In t (tags db) /\ tag_id t = link_tag_id l)
    /\ (exists i, In i (images db) /\ image_id i = link_image_id l).

(** One step of the worker on the tag and link tables: tag names stay
    unique, no tag row goes away, and a link that is new points at a
    tag row and at an image id that [ok_id] accepts. *)
Definition tag_step (ok_id : Z -> Prop) (old new : DB) : Prop :=
  (unique_tag_names old -> unique_tag_names new)
  /\ (forall t, In t (tags old) -> In t (tags new))
  /\ (forall l, In l (links new) ->
        In l (links old)
        \/ ((exists t, In t (tags new) /\ tag_id t = link_tag_id l)
            /\ ok_id (link_image_id l))).

(** A candidate as the two analyzers hand it over. *)
Definition candidate (eng : Engine) (item : TagItem) : Prop :=
  (ti_source item = "ai_clip"
   /\ PrimFloat.ltb (clip_threshold eng) (ti_confidence item) = true)
  \/ (ti_source item = "ai_ocr"
      /\ (ti_confidence item = 0.90%float \/ ti_confidence item = 0.80%float)).

(** An engine whose recognizer is enabled but cannot be loaded. *)
Definition broken_engine : Engine :=
  {| ocr_enabled := true;
     clip_labels := clip_labels sample_engine;
     clip_threshold := clip_threshold sample_engine;
     clip_raises := clip_raises sample_engine;
     clip_probs := clip_probs sample_engine;
     ocr_reader_loads := false;
     readtext := readtext sample_engine;
     tables := tables sample_engine |}.

(** ** Trees and names for the scanner *)

(** Induction over a tree, with the property known for every entry of
    a directory. *)
Fixpoint Node_forall_ind (P : scanner.Node -> Prop)
         (HF : forall file, P (scanner.File file))
         (HD : forall d entries, Forall P entries -> P (scanner.Dir d entries))
         (n : scanner.Node) : P n :=
  match n with
  | scanner.File file => HF file
  | scanner.Dir d entries =>
      HD d entries
         ((fix all (l : list scanner.Node) : Forall P l :=
             match l with
             | [] => Forall_nil P
             | e :: rest =>
                 Forall_cons e (Node_forall_ind P HF HD e) (all rest)
             end) entries)
  end.

(** [visible_file n root file p]: in the tree [n] mounted at [root],
    a file named [file] lies at path [p], and no directory between
    [n] and the file has a name with a leading dot. *)
Inductive visible_file : scanner.Node -> string -> string -> string -> Prop :=
| visible_here : forall d entries root file,
    In (scanner.File file) entries ->
    visible_file (scanner.Dir d entries) root file (os_path_join root file)
| visible_below : forall d entries root sub subentries file p,
    In (scanner.Dir sub subentries) entries ->
    startswith_dot sub = false ->
    visible_file (scanner.Dir sub subentries) (os_path_join root sub) file p ->
    visible_file (scanner.Dir d entries) root file p.

Definition is_dot (c : ascii) : bool := Ascii.eqb c "."%char.

Definition dot_free (s : string) : Prop := pystr.any_char is_dot s = false.

(** A name as a directory listing gives it: no separator inside. *)
Definition slash_free (s : string) : Prop :=
  pystr.any_char posixpath.is_sep s = false.

Definition holiday_tree : scanner.Node :=
  scanner.Dir "photos"
    [scanner.File "a.JPG"; scanner.File ".b.jpg"; scanner.File "notes.txt";
     scanner.Dir ".cache" [scanner.File "c.png"];
     scanner.Dir "2024" [scanner.File "d.webp"]].

(** ** Sample data for the management endpoints *)

Definition sample_user : User :=
  {| user_id := 7; email := "ann@example.org"; hashed_password := "$2b$12$x";
     full_name := None; role := "admin"; is_active := true |}.

(** What [delete_images_batch] does to a row. *)
Definition mark_listed (image_ids : list Z) (i : Image) : Image :=
  if in_ids image_ids i then set_deleted i else i.

(** What [delete_album] does to the album and image tables. *)
Definition mark_album (album_id0 : Z) (a : Album) : Album :=
  if album_id a =? album_id0 then set_album_deleted a else a.

Definition mark_album_images (album_id0 : Z) (i : Image) : Image :=
  if image_album_id i =? album_id0 then set_deleted i else i.

(** * Properties *)

(** ** Text recognizer post-classification *)

Lemma ocr_confidences_differ : 0.90%float <> 0.80%float.
Proof.
  intros H. apply (f_equal (PrimFloat.ltb 0.80%float)) in H.
  vm_compute in H. discriminate H.
Qed.

Section TextShapes.

Variable t : pystr.Tables.

Lemma int_raises (clean : pystr.str) (e : Exception) :
  pystr.int t clean = Raise e -> e = ValueError.
Proof.
  unfold pystr.int.
  destruct (pystr.INT_MAX_STR_DIGITS <? List.length clean)%nat.
  - intros H. inversion H. reflexivity.
  - destruct (pystr.int_from t 0 clean); [discriminate |].
    intros H. inversion H. reflexivity.
Qed.

(** The three ways the test for a number can go. *)
Lemma is_number_cases (clean : pystr.str) :
  (is_number t clean = Ok true
   /\ pystr.isdigit t clean = true
   /\ exists v, pystr.int t clean = Ok v /\ 1 <= v <= 999)
  \/ (is_number t clean = Ok false
      /\ (pystr.isdigit t clean = false
          \/ exists v, pystr.int t clean = Ok v /\ ~ 1 <= v <= 999))
  \/ (is_number t clean = Raise ValueError
      /\ pystr.isdigit t clean = true
      /\ pystr.int t clean = Raise ValueError).
Proof.
  unfold is_number. destruct (pystr.isdigit t clean) eqn:Hd.
  - destruct (pystr.int t clean) as [v | e] eqn:Hv.
    + destruct ((1 <=? v) && (v <=? 999)) eqn:Hr.
      * left. apply andb_true_iff in Hr. destruct Hr as [H1 H2].
        apply Z.leb_le in H1. apply Z.leb_le in H2.
        repeat split. exists v. split; [reflexivity | lia].
      * right. left. split; [reflexivity |]. right. exists v.
        split; [reflexivity |]. intros [H1 H2].
        apply Z.leb_le in H1. apply Z.leb_le in H2.
        rewrite H1, H2 in Hr. discriminate.
    + right. right. rewrite (int_raises clean e Hv). repeat split.
  - right. left. split; [reflexivity |]. left. reflexivity.
Qed.

Lemma classify_number (text : pystr.str) (v : Z) :
  pystr.isdigit t (pystr.strip t text) = true ->
  pystr.int t (pystr.strip t text) = Ok v ->
  1 <= v <= 999 ->
  classify_text t text = Ok [number_item (pystr.strip t text)].
Proof.
  intros Hd Hv [H1 H2]. unfold classify_text, is_number. rewrite Hd, Hv.
  apply Z.leb_le in H1. apply Z.leb_le in H2. rewrite H1, H2. reflexivity.
Qed.

Lemma not_a_number (clean : pystr.str) :
  pystr.isdigit t clean = false
  \/ (exists v, pystr.int t clean = Ok v /\ ~ 1 <= v <= 999) ->
  is_number t clean = Ok false.
Proof.
  intros H.
  destruct (is_number_cases clean)
    as [(_ & Hd & v & Hv & Hr) | [(E & _) | (_ & Hd & Hv)]].
  - destruct H as [H | (v' & Hv' & Hn)]; [congruence |].
    assert (v' = v) by congruence. subst v'. contradiction.
  - exact E.
  - destruct H as [H | (v' & Hv' & _)]; congruence.
Qed.

Lemma classify_upper (text : pystr.str) :
  pystr.isdigit t (pystr.strip t text) = false
  \/ (exists v, pystr.int t (pystr.strip t text) = Ok v /\ ~ 1 <= v <= 999) ->
  3 < pystr.len (pystr.strip t text) ->
  pystr.isupper t (pystr.strip t text) = true ->
  classify_text t text = Ok [text_item (pystr.strip t text)].
Proof.
  intros Hn Hl Hu. unfold classify_text. rewrite (not_a_number _ Hn).
  apply Z.ltb_lt in Hl. rewrite Hl, Hu. reflexivity.
Qed.

Lemma classify_neither (text : pystr.str) :
  pystr.isdigit t (pystr.strip t text) = false
  \/ (exists v, pystr.int t (pystr.strip t text) = Ok v /\ ~ 1 <= v <= 999) ->
  ~ (3 < pystr.len (pystr.strip t text)
     /\ pystr.isupper t (pystr.strip t text) = true) ->
  classify_text t text = Ok [].
Proof.
  intros Hn Hu. unfold classify_text. rewrite (not_a_number _ Hn).
  destruct (3 <? pystr.len (pystr.strip t text)) eqn:Hl; [| reflexivity].
  destruct (pystr.isupper t (pystr.strip t text)) eqn:Hc; [| reflexivity].
  exfalso. apply Hu. apply Z.ltb_lt in Hl. split; [exact Hl | reflexivity].
Qed.

Lemma classify_raises (text : pystr.str) :
  pystr.isdigit t (pystr.strip t text) = true ->
  (forall v, pystr.int t (pystr.strip t text) <> Ok v) ->
  classify_text t text = Raise ValueError.
Proof.
  intros Hd Hv. unfold classify_text.
  destruct (is_number_cases (pystr.strip t text))
    as [(_ & _ & v & E & _) | [(_ & [H | (v & E & _)]) | (E & _)]].
  - destruct (Hv v E).
  - congruence.
  - destruct (Hv v E).
  - rewrite E. reflexivity.
Qed.

(** The four ways a round can go. *)
Lemma classify_cases (text : pystr.str) :
  (classify_text t text = Ok [number_item (pystr.strip t text)]
   /\ is_number t (pystr.strip t text) = Ok true)
  \/ (classify_text t text = Ok [text_item (pystr.strip t text)]
      /\ is_number t (pystr.strip t text) = Ok false
      /\ 3 < pystr.len (pystr.strip t text)
      /\ pystr.isupper t (pystr.strip t text) = true)
  \/ (classify_text t text = Ok []
      /\ is_number t (pystr.strip t text) = Ok false)
  \/ (classify_text t text = Raise ValueError
      /\ is_number t (pystr.strip t text) = Raise ValueError).
Proof.
  unfold classify_text.
  destruct (is_number_cases (pystr.strip t text))
    as [(E & _) | [(E & _) | (E & _)]]; rewrite E.
  - left. split; reflexivity.
  - destruct (3 <? pystr.len (pystr.strip t text)) eqn:Hl; cbn [andb].
    + destruct (pystr.isupper t (pystr.strip t text)) eqn:Hu.
      * right. left. apply Z.ltb_lt in Hl. repeat split. exact Hl.
      * right. right. left. split; reflexivity.
    + right. right. left. split; reflexivity.
  - right. right. right. split; reflexivity.
Qed.

Lemma classified_item (text : pystr.str) (items : list TagItem) (item : TagItem) :
  classify_text t text = Ok items -> In item items ->
  items = [item]
  /\ (item = number_item (pystr.strip t text)
      \/ item = text_item (pystr.strip t text)).
Proof.
  intros E Hin.
  destruct (classify_cases text) as [[E' _] | [[E' _] | [[E' _] | [E' _]]]];
    rewrite E' in E; inversion E; subst items.
  - destruct Hin as [<- | []]. split; [reflexivity | left; reflexivity].
  - destruct Hin as [<- | []]. split; [reflexivity | right; reflexivity].
  - destruct Hin.
Qed.

Lemma classifies_or_raises (text : pystr.str) :
  classifies t text \/ classify_text t text = Raise ValueError.
Proof.
  unfold classifies, candidates_of.
  destruct (classify_cases text) as [[E _] | [[E _] | [[E _] | [E _]]]];
    rewrite E; [left | left | left | right]; reflexivity.
Qed.

Lemma classify_texts_acc (texts : list pystr.str) (acc : list TagItem) :
  classify_texts t texts acc = acc ++ classify_texts t texts [].
Proof.
  revert acc. induction texts as [| x texts IH]; intros acc.
  - cbn. rewrite app_nil_r. reflexivity.
  - cbn [classify_texts]. destruct (classify_text t x) as [items | e].
    + rewrite (IH (acc ++ items)), (IH ([] ++ items)). cbn [app].
      rewrite app_assoc. reflexivity.
    + rewrite app_nil_r. reflexivity.
Qed.

(** The rounds that go through append their candidates in order. *)
Lemma classify_texts_through (before after : list pystr.str) :
  Forall (classifies t) before ->
  classify_texts t (before ++ after) []
  = flat_map (candidates_of t) before ++ classify_texts t after [].
Proof.
  induction 1 as [| x before Hx _ IH]; [reflexivity |].
  cbn [app classify_texts flat_map]. rewrite Hx.
  rewrite classify_texts_acc, IH. cbn [app]. rewrite app_assoc. reflexivity.
Qed.

(** A round that raises ends the loop. *)
Lemma classify_texts_stops (text : pystr.str) (after : list pystr.str)
      (e : Exception) :
  classify_text t text = Raise e ->
  classify_texts t (text :: after) [] = [].
Proof.
  intros E. cbn [classify_texts]. rewrite E. reflexivity.
Qed.

End TextShapes.

(** C7.  Every fragment the recognizer returns is stripped and then
    goes one of four ways: all digits, converted by [int] to a value in
    1..999, gives one "number" candidate at confidence 0.90; otherwise
    more than three characters and upper-case gives one "text"
    candidate at confidence 0.80; otherwise nothing; and all digits
    that [int] cannot convert raises [ValueError].  The confidences are
    the two constants (the recognizer is called with [detail=0] and
    hands over no score).  The candidates of an image are those of its
    fragments, in order, up to the first fragment that raises: that
    one ends the loop, and the fragments after it give nothing,
    whatever they are. *)
Theorem ocr_fragment_classification :
  forall (t : pystr.Tables) (text : pystr.str),
    let clean_text := pystr.strip t text in
    (forall v, pystr.isdigit t clean_text = true ->
       pystr.int t clean_text = Ok v -> 1 <= v <= 999 ->
       classify_text t text = Ok [number_item clean_text])
    /\ (pystr.isdigit t clean_text = false
        \/ (exists v, pystr.int t clean_text = Ok v /\ ~ 1 <= v <= 999) ->
        3 < pystr.len clean_text ->
        pystr.isupper t clean_text = true ->
        classify_text t text = Ok [text_item clean_text])
    /\ (pystr.isdigit t clean_text = false
        \/ (exists v, pystr.int t clean_text = Ok v /\ ~ 1 <= v <= 999) ->
        ~ (3 < pystr.len clean_text /\ pystr.isupper t clean_text = true) ->
        classify_text t text = Ok [])
    /\ (pystr.isdigit t clean_text = true ->
        (forall v, pystr.int t clean_text <> Ok v) ->
        classify_text t text = Raise ValueError)
    /\ (forall items item,
          classify_text t text = Ok items -> In item items ->
          items = [item]
          /\ ((ti_category item = "number" /\ ti_confidence item = 0.90%float)
              \/ (ti_category item = "text"
                  /\ ti_confidence item = 0.80%float)))
    /\ 0.90%float <> 0.80%float
    /\ (forall eng image_path before after,
          ocr_enabled eng = true -> ocr_reader_loads eng = true ->
          tables eng = t ->
          readtext eng image_path = Some (before ++ text :: after) ->
          Forall (classifies t) before ->
          (classify_text t text = Raise ValueError ->
           analyze_image_text eng image_path
           = flat_map (candidates_of t) before)
          /\ (Forall (classifies t) (text :: after) ->
              analyze_image_text eng image_path
              = flat_map (candidates_of t) (before ++ text :: after))).
Proof.
  intros t text clean_text.
  split; [intros v; exact (classify_number t text v) |].
  split; [exact (classify_upper t text) |].
  split; [exact (classify_neither t text) |].
  split; [exact (classify_raises t text) |].
  split.
  { intros items item E Hin.
    destruct (classified_item t text items item E Hin) as [Hone [-> | ->]].
    - split; [exact Hone |]. left. split; reflexivity.
    - split; [exact Hone |]. right. split; reflexivity. }
  split; [exact ocr_confidences_differ |].
  intros eng image_path before after He Hr Ht Hread Hbefore.
  unfold analyze_image_text. rewrite He, Hr, Hread, Ht. cbn [negb].
  split.
  - intros E. rewrite (classify_texts_through t before _ Hbefore).
    rewrite (classify_texts_stops t text after ValueError E).
    apply app_nil_r.
  - intros Hrest.
    assert (Hall : Forall (classifies t) (before ++ text :: after))
      by (apply Forall_app; split; assumption).
    rewrite <- (app_nil_r (before ++ text :: after)) at 1.
    rewrite (classify_texts_through t _ [] Hall). apply app_nil_r.
Qed.

(** The recognizer reads "7", a superscript two and "STOP": the second
    fragment passes [isdigit] and [int] raises on it, so "STOP", which
    alone gives a "text" candidate, gives none.  More digits than [int]
    converts do the same. *)
Lemma ocr_fragment_classification_witness :
  classify_text latin1_tables (text_of "STOP")
  = Ok [text_item (text_of "STOP")]
  /\ analyze_image_text (reading_engine [text_of "STOP"]) "/photos/race/a.jpg"
     = [text_item (text_of "STOP")]
  /\ analyze_image_text
       (reading_engine [text_of "7"; [178%N]; text_of "STOP"])
       "/photos/race/a.jpg"
     = [number_item (text_of "7")]
  /\ analyze_image_text
       (reading_engine [repeat 49%N 4301; text_of "STOP"])
       "/photos/race/a.jpg"
     = [].
Proof.
  split; [| split; [| split]].
  - apply (proj1 (proj2 (ocr_fragment_classification
                           latin1_tables (text_of "STOP")))).
    + left. reflexivity.
    + reflexivity.
    + reflexivity.
  - destruct (ocr_fragment_classification latin1_tables (text_of "STOP"))
      as (_ & _ & _ & _ & _ & _ & Hloop).
    apply (Hloop (reading_engine [text_of "STOP"]) "/photos/race/a.jpg" [] []
                 eq_refl eq_refl eq_refl eq_refl (Forall_nil _)).
    repeat constructor.
  - destruct (ocr_fragment_classification latin1_tables [178%N])
      as (_ & _ & _ & _ & _ & _ & Hloop).
    apply (Hloop (reading_engine [text_of "7"; [178%N]; text_of "STOP"])
                 "/photos/race/a.jpg" [text_of "7"] [text_of "STOP"]
                 eq_refl eq_refl eq_refl eq_refl).
    + repeat constructor.
    + reflexivity.
  - destruct (ocr_fragment_classification latin1_tables (repeat 49%N 4301))
      as (_ & _ & _ & _ & _ & _ & Hloop).
    apply (Hloop (reading_engine [repeat 49%N 4301; text_of "STOP"])
                 "/photos/race/a.jpg" [] [text_of "STOP"]
                 eq_refl eq_refl eq_refl eq_refl (Forall_nil _)).
    vm_compute. reflexivity.
Defined.

(** ** Queries on lists of rows *)

Section Queries.

Context {A : Type}.

Lemma find_map_same (p : A -> bool) (f : A -> A) (l : list A) :
  (forall x, p (f x) = p x) ->
  find p (map f l) = option_map f (find p l).
Proof.
  intros Hp. induction l as [|x l IH]; simpl.
  - reflexivity.
  - rewrite Hp. destruct (p x); [reflexivity | exact IH].
Qed.

Lemma find_filter_neg (p : A -> bool) (l : list A) :
  find p (filter (fun x => negb (p x)) l) = None.
Proof.
  induction l as [|x l IH]; simpl.
  - reflexivity.
  - destruct (p x) eqn:E; simpl; [exact IH | rewrite E; exact IH].
Qed.

Lemma find_filter_keeps (p q : A -> bool) (l : list A) :
  (forall x, p x = true -> q x = true) ->
  find p (filter q l) = find p l.
Proof.
  intros Hpq. induction l as [|x l IH]; simpl.
  - reflexivity.
  - destruct (p x) eqn:E.
    + rewrite (Hpq _ E). simpl. rewrite E. reflexivity.
    + destruct (q x); simpl; [rewrite E |]; exact IH.
Qed.

Lemma find_none_existsb (p : A -> bool) (l : list A) :
  find p l = None -> existsb p l = false.
Proof.
  induction l as [|x l IH]; simpl.
  - reflexivity.
  - destruct (p x); [discriminate | exact IH].
Qed.


Lemma find_app_found (p : A -> bool) (l l' : list A) (x : A) :
  find p l = Some x -> find p (l ++ l') = Some x.
Proof.
  induction l as [|y l IH]; simpl.
  - discriminate.
  - destruct (p y); [trivial | exact IH].
Qed.

Lemma find_app_missing (p : A -> bool) (l l' : list A) :
  find p l = None -> find p (l ++ l') = find p l'.
Proof.
  induction l as [|y l IH]; simpl.
  - reflexivity.
  - destruct (p y); [discriminate | exact IH].
Qed.

Lemma sql_limit_incl (limit : Z) (rows : list A) (x : A) :
  In x (sql_limit limit rows) -> In x rows.
Proof.
  unfold sql_limit. destruct (limit <? 0); [trivial |].
  intros H. rewrite <- (firstn_skipn (Z.to_nat limit) rows).
  apply in_or_app. left. exact H.
Qed.

Lemma sql_limit_all (limit : Z) (rows : list A) :
  limit < 0 \/ Z.of_nat (List.length rows) <= limit ->
  sql_limit limit rows = rows.
Proof.
  unfold sql_limit. intros [H | H].
  - apply Z.ltb_lt in H. rewrite H. reflexivity.
  - destruct (limit <? 0); [reflexivity |].
    apply firstn_all2. lia.
Qed.

Lemma sql_limit_length (limit : Z) (rows : list A) :
  0 <= limit ->
  Z.of_nat (List.length (sql_limit limit rows))
  = Z.min limit (Z.of_nat (List.length rows)).
Proof.
  unfold sql_limit. intros H.
  destruct (limit <? 0) eqn:E; [apply Z.ltb_lt in E; lia |].
  rewrite length_firstn. lia.
Qed.

End Queries.

Lemma link_key_eqb_true (i t : Z) (l : ImageTagLink) :
  link_key_eqb i t l = true <-> link_image_id l = i /\ link_tag_id l = t.
Proof.
  unfold link_key_eqb. rewrite andb_true_iff, !Z.eqb_eq. reflexivity.
Qed.

Lemma link_key_eqb_other (i t i' t' : Z) (l : ImageTagLink) :
  (i', t') <> (i, t) ->
  link_key_eqb i' t' l = true -> link_key_eqb i t l = false.
Proof.
  intros Hne H. apply link_key_eqb_true in H. destruct H as [H1 H2].
  destruct (link_key_eqb i t l) eqn:E; [| reflexivity].
  apply link_key_eqb_true in E. destruct E as [E1 E2].
  exfalso. apply Hne. congruence.
Qed.

(** ** The review queue *)

Section ReviewQueue.

Lemma select_link_after_approve (db : DB) (i t : Z) :
  select_link (update_link_approved db i t) i t
  = option_map approved (select_link db i t).
Proof.
  unfold select_link, update_link_approved. simpl.
  rewrite find_map_same.
  - destruct (find (link_key_eqb i t) (links db)) as [l|] eqn:F;
      [| reflexivity].
    simpl. apply find_some in F. destruct F as [_ F]. rewrite F. reflexivity.
  - intros l. destruct (link_key_eqb i t l) eqn:E; exact E.
Qed.

Lemma select_link_after_approve_other (db : DB) (i t i' t' : Z) :
  (i', t') <> (i, t) ->
  select_link (update_link_approved db i t) i' t' = select_link db i' t'.
Proof.
  intros Hne. unfold select_link, update_link_approved. simpl.
  rewrite find_map_same.
  - destruct (find (link_key_eqb i' t') (links db)) as [l|] eqn:F;
      [| reflexivity].
    simpl. apply find_some in F. destruct F as [_ F].
    rewrite (link_key_eqb_other i t i' t' l Hne F). reflexivity.
  - intros l. destruct (link_key_eqb i t l); reflexivity.
Qed.

Lemma select_link_after_delete (db : DB) (i t : Z) :
  select_link (delete_link db i t) i t = None.
Proof.
  unfold select_link, delete_link. simpl. apply find_filter_neg.
Qed.

Lemma select_link_after_delete_other (db : DB) (i t i' t' : Z) :
  (i', t') <> (i, t) ->
  select_link (delete_link db i t) i' t' = select_link db i' t'.
Proof.
  intros Hne. unfold select_link, delete_link. simpl.
  apply find_filter_keeps. intros l H.
  rewrite (link_key_eqb_other i t i' t' l Hne H). reflexivity.
Qed.

Lemma review_rows_spec (db : DB) (link : ImageTagLink) (image : Image) (tag : Tag) :
  In (link, image, tag) (review_rows db) <->
  In link (links db) /\ In image (images db) /\ In tag (tags db)
  /\ link_image_id link = image_id image
  /\ link_tag_id link = tag_id tag
  /\ review_where link image = true.
Proof.
  unfold review_rows. rewrite in_flat_map. split.
  - intros [l [Hl H]]. apply in_flat_map in H. destruct H as [i [Hi H]].
    apply in_flat_map in H. destruct H as [t [Ht H]].
    destruct ((link_image_id l =? image_id i) && (link_tag_id l =? tag_id t)
              && review_where l i) eqn:E; [| destruct H].
    destruct H as [H | []]. inversion H; subst.
    apply andb_true_iff in E. destruct E as [E Hw].
    apply andb_true_iff in E. destruct E as [E1 E2].
    apply Z.eqb_eq in E1. apply Z.eqb_eq in E2. tauto.
  - intros (Hl & Hi & Ht & E1 & E2 & Hw).
    exists link. split; [exact Hl |].
    apply in_flat_map. exists image. split; [exact Hi |].
    apply in_flat_map. exists tag. split; [exact Ht |].
    apply Z.eqb_eq in E1. apply Z.eqb_eq in E2.
    rewrite E1, E2, Hw. simpl. left. reflexivity.
Qed.

Lemma review_where_spec (link : ImageTagLink) (image : Image) :
  review_where link image = true <->
  is_verified link = false
  /\ PrimFloat.ltb LOW (confidence link) = true
  /\ PrimFloat.ltb (confidence link) HIGH = true
  /\ is_deleted image = false.
Proof.
  unfold review_where, needs_verification.
  rewrite !andb_true_iff, !negb_true_iff. tauto.
Qed.

End ReviewQueue.

(** C5.  On an existing link, "approve" sets [is_verified] and raises
    the confidence to 1.0, "reject" deletes the link so that a lookup of
    the pair finds nothing, and both leave every other link as it was;
    any other action fails with status 400 and its message and changes
    nothing; a pair without a link fails with status 404 whatever the
    action. *)
Theorem review_tag_transitions :
  forall (s : State) (image_id0 tag_id0 : Z) (action : string),
    (select_link (committed s) image_id0 tag_id0 = None ->
     review_tag image_id0 tag_id0 action s
     = (close s, Raise (HTTPException 404 "Tag link not found")))
    /\ (forall link,
          select_link (committed s) image_id0 tag_id0 = Some link ->
          (action = "approve" ->
           exists s',
             review_tag image_id0 tag_id0 action s = (s', Ok "success")
             /\ select_link (committed s') image_id0 tag_id0
                = Some (approved link)
             /\ is_verified (approved link) = true
             /\ confidence (approved link) = 1.0%float
             /\ source (approved link) = source link
             /\ forall i t, (i, t) <> (image_id0, tag_id0) ->
                  select_link (committed s') i t = select_link (committed s) i t)
          /\ (action = "reject" ->
              exists s',
                review_tag image_id0 tag_id0 action s = (s', Ok "success")
                /\ select_link (committed s') image_id0 tag_id0 = None
                /\ forall i t, (i, t) <> (image_id0, tag_id0) ->
                     select_link (committed s') i t
                     = select_link (committed s) i t)
          /\ (action <> "approve" -> action <> "reject" ->
              review_tag image_id0 tag_id0 action s
              = (close s,
                 Raise (HTTPException 400
                          "Invalid action. Use 'approve' or 'reject'."))
              /\ committed (close s) = committed s)).
Proof.
  intros s i t action. unfold review_tag, with_session, bind, exec. simpl.
  split.
  - intros H. rewrite H. reflexivity.
  - intros link H. rewrite H. split; [| split].
    + intros ->. simpl.
      eexists. split; [reflexivity |]. simpl.
      rewrite select_link_after_approve, H. simpl.
      repeat split. intros i' t' Hne.
      apply select_link_after_approve_other. exact Hne.
    + intros ->. simpl.
      eexists. split; [reflexivity |]. simpl.
      rewrite select_link_after_delete. split; [reflexivity |].
      intros i' t' Hne. apply select_link_after_delete_other. exact Hne.
    + intros Ha Hr.
      apply String.eqb_neq in Ha. apply String.eqb_neq in Hr.
      rewrite Ha, Hr. simpl. split; reflexivity.
Qed.

Lemma review_tag_transitions_witness :
  (exists s',
     review_tag 1 3 "approve" (open_db (crowded_db 3)) = (s', Ok "success")
     /\ option_map is_verified (select_link (committed s') 1 3) = Some true)
  /\ (exists s',
        review_tag 1 3 "reject" (open_db (crowded_db 3)) = (s', Ok "success")
        /\ select_link (committed s') 1 3 = None)
  /\ snd (review_tag 1 3 "maybe" (open_db (crowded_db 3)))
     = Raise (HTTPException 400 "Invalid action. Use 'approve' or 'reject'.")
  /\ snd (review_tag 1 4 "approve" (open_db (crowded_db 3)))
     = Raise (HTTPException 404 "Tag link not found").
Proof.
  pose (s := open_db (crowded_db 3)).
  pose (link := {| link_image_id := 1; link_tag_id := 3;
                   confidence := 0.5%float; source := "ai_clip";
                   is_verified := false |}).
  assert (Hl : select_link (committed s) 1 3 = Some link) by reflexivity.
  split; [| split; [| split]].
  - destruct (proj2 (review_tag_transitions s 1 3 "approve") link Hl)
      as [Happ _].
    destruct (Happ eq_refl) as [s' [E [F _]]].
    exists s'. split; [exact E |]. rewrite F. reflexivity.
  - destruct (proj2 (review_tag_transitions s 1 3 "reject") link Hl)
      as [_ [Hrej _]].
    destruct (Hrej eq_refl) as [s' [E [F _]]].
    exists s'. split; [exact E | exact F].
  - destruct (proj2 (review_tag_transitions s 1 3 "maybe") link Hl)
      as [_ [_ Hbad]].
    destruct Hbad as [E _]; [discriminate | discriminate |].
    fold s. rewrite E. reflexivity.
  - fold s.
    rewrite (proj1 (review_tag_transitions s 1 4 "approve") eq_refl).
    reflexivity.
Defined.

(** C4, as stated, fails on the [limit] of the query: with 21 links
    that meet every clause and the default limit of 20, the link of tag
    21 is not returned. *)
Lemma review_limit_hides_link :
  let db := crowded_db 21 in
  let link := {| link_image_id := 1; link_tag_id := 21;
                 confidence := 0.5%float; source := "ai_clip";
                 is_verified := false |} in
  select_link db 1 21 = Some link
  /\ is_verified link = false
  /\ PrimFloat.ltb LOW (confidence link) = true
  /\ PrimFloat.ltb (confidence link) HIGH = true
  /\ option_map is_deleted (select_image_by_id db (link_image_id link))
     = Some false
  /\ option_map tag_id (select_tag_by_id db (link_tag_id link)) = Some 21
  /\ existsb (fun item => (ri_image_id item =? 1) && (ri_tag_id item =? 21))
             (get_review_items DEFAULT_LIMIT db) = false
  /\ List.length (get_review_items DEFAULT_LIMIT db) = 20%nat.
Proof.
  cbv zeta. repeat split; vm_compute; reflexivity.
Qed.

(** C4, amended.  Every returned item comes from a link that is
    unverified, has confidence strictly between 0.30 and 0.90 and
    belongs to an image that is not soft-deleted.  Every link meeting
    the clauses is returned provided the limit does not cut the result
    short (it is negative, or no smaller than the number of selected
    rows); when a limit that is not negative cuts it short, exactly
    [limit] of the selected rows are returned: the number of items is
    the smaller of [limit] and the number of selected rows.  So
    confidence 0.29 and 0.90 never appear, and an unverified link of
    confidence 0.5 on a live image appears within the limit. *)
Theorem review_queue_selection :
  forall (limit : Z) (db : DB),
    (forall item, In item (get_review_items limit db) ->
       exists link image tag,
         item = review_item (link, image, tag)
         /\ In link (links db) /\ In image (images db) /\ In tag (tags db)
         /\ link_image_id link = image_id image
         /\ link_tag_id link = tag_id tag
         /\ is_verified link = false
         /\ PrimFloat.ltb LOW (confidence link) = true
         /\ PrimFloat.ltb (confidence link) HIGH = true
         /\ is_deleted image = false)
    /\ (limit < 0 \/ Z.of_nat (List.length (review_rows db)) <= limit ->
        forall link image tag,
          In link (links db) -> In image (images db) -> In tag (tags db) ->
          link_image_id link = image_id image ->
          link_tag_id link = tag_id tag ->
          is_verified link = false ->
          PrimFloat.ltb LOW (confidence link) = true ->
          PrimFloat.ltb (confidence link) HIGH = true ->
          is_deleted image = false ->
          In (review_item (link, image, tag)) (get_review_items limit db))
    /\ (0 <= limit ->
        Z.of_nat (List.length (get_review_items limit db))
        = Z.min limit (Z.of_nat (List.length (review_rows db))))
    /\ (forall item, In item (get_review_items limit db) ->
          ri_confidence item <> 0.29%float /\ ri_confidence item <> 0.90%float)
    /\ (limit < 0 \/ Z.of_nat (List.length (review_rows db)) <= limit ->
        forall link image tag,
          In link (links db) -> In image (images db) -> In tag (tags db) ->
          link_image_id link = image_id image ->
          link_tag_id link = tag_id tag ->
          is_verified link = false ->
          confidence link = 0.5%float ->
          is_deleted image = false ->
          In (review_item (link, image, tag)) (get_review_items limit db)).
Proof.
  intros limit db.
  assert (Hsound : forall item, In item (get_review_items limit db) ->
       exists link image tag,
         item = review_item (link, image, tag)
         /\ In link (links db) /\ In image (images db) /\ In tag (tags db)
         /\ link_image_id link = image_id image
         /\ link_tag_id link = tag_id tag
         /\ is_verified link = false
         /\ PrimFloat.ltb LOW (confidence link) = true
         /\ PrimFloat.ltb (confidence link) HIGH = true
         /\ is_deleted image = false).
  { intros item Hin. unfold get_review_items in Hin.
    apply in_map_iff in Hin. destruct Hin as [[[link image] tag] [<- Hin]].
    apply sql_limit_incl in Hin. apply review_rows_spec in Hin.
    destruct Hin as (Hl & Hi & Ht & E1 & E2 & Hw).
    apply review_where_spec in Hw. destruct Hw as (V & L & H & D).
    exists link, image, tag. repeat split; assumption. }
  assert (Hcomplete :
      limit < 0 \/ Z.of_nat (List.length (review_rows db)) <= limit ->
        forall link image tag,
          In link (links db) -> In image (images db) -> In tag (tags db) ->
          link_image_id link = image_id image ->
          link_tag_id link = tag_id tag ->
          is_verified link = false ->
          PrimFloat.ltb LOW (confidence link) = true ->
          PrimFloat.ltb (confidence link) HIGH = true ->
          is_deleted image = false ->
          In (review_item (link, image, tag)) (get_review_items limit db)).
  { intros Hlim link image tag Hl Hi Ht E1 E2 V L H D.
    unfold get_review_items. rewrite (sql_limit_all limit _ Hlim).
    apply in_map. apply review_rows_spec.
    repeat split; try assumption.
    apply review_where_spec. repeat split; assumption. }
  split; [exact Hsound |].
  split; [exact Hcomplete |].
  split.
  { intros H. unfold get_review_items. rewrite length_map.
    apply sql_limit_length. exact H. }
  split.
  { intros item Hin. destruct (Hsound item Hin)
      as (link & image & tag & -> & _ & _ & _ & _ & _ & _ & L & H & _).
    simpl. split; intros E; rewrite E in *.
    - vm_compute in L. discriminate L.
    - vm_compute in H. discriminate H. }
  intros Hlim link image tag Hl Hi Ht E1 E2 V C D.
  apply (Hcomplete Hlim); try assumption; rewrite C; reflexivity.
Qed.

Lemma review_queue_selection_witness :
  In {| ri_image_id := 1; ri_tag_id := 2; ri_image_hash := "h1";
        ri_tag_name := "xx"; ri_confidence := 0.5%float |}
     (get_review_items DEFAULT_LIMIT (crowded_db 3))
  /\ Z.of_nat (List.length (get_review_items DEFAULT_LIMIT (crowded_db 21)))
     = DEFAULT_LIMIT.
Proof.
  split.
  - refine (proj2 (proj2 (proj2 (proj2
             (review_queue_selection DEFAULT_LIMIT (crowded_db 3)))))
           _
           {| link_image_id := 1; link_tag_id := 2; confidence := 0.5%float;
              source := "ai_clip"; is_verified := false |}
           (sample_image 1 "h1" true false)
           {| tag_id := 2; tag_name := "xx"; category := "auto_classified" |}
           _ _ _ _ _ _ _ _).
    + right. vm_compute. discriminate.
    + simpl. right. left. reflexivity.
    + simpl. left. reflexivity.
    + simpl. right. left. reflexivity.
    + reflexivity.
    + reflexivity.
    + reflexivity.
    + reflexivity.
    + reflexivity.
  - refine (eq_trans
              (proj1 (proj2 (proj2
                 (review_queue_selection DEFAULT_LIMIT (crowded_db 21)))) _)
              _).
    + vm_compute. discriminate.
    + vm_compute. reflexivity.
Defined.

(** ** Keys and the constraints of the store *)

Section Keys.

Context {A K : Type}.
Variable key : A -> K.
Variable eqb : K -> K -> bool.
Hypothesis eqb_eq : forall x y, eqb x y = true <-> x = y.

Lemma existsb_key (k : K) (l : list A) :
  existsb (fun a => eqb (key a) k) l = true <-> In k (map key l).
Proof.
  rewrite existsb_exists, in_map_iff. split.
  - intros [a [Hin E]]. exists a. apply eqb_eq in E. tauto.
  - intros [a [E Hin]]. exists a. apply eqb_eq in E. tauto.
Qed.

Lemma existsb_key_false (k : K) (l : list A) :
  existsb (fun a => eqb (key a) k) l = false <-> ~ In k (map key l).
Proof.
  rewrite <- existsb_key. destruct (existsb _ l); split; intros H;
    try reflexivity; try discriminate.
  exfalso. apply H. reflexivity.
Qed.

Lemma NoDup_snoc_key (l : list A) (a : A) :
  NoDup (map key l) -> ~ In (key a) (map key l) ->
  NoDup (map key (l ++ [a])).
Proof.
  induction l as [|x l IH]; simpl; intros Hnd Hnin.
  - constructor; [intros [] | constructor].
  - inversion Hnd as [|? ? Hx Hl]; subst. constructor.
    + rewrite map_app, in_app_iff. simpl. intros [H | [H | []]].
      * exact (Hx H).
      * apply Hnin. left. symmetry. exact H.
    + apply IH; [exact Hl |]. intros H. apply Hnin. right. exact H.
Qed.


End Keys.


Lemma link_present_iff (i t : Z) (ls : list ImageTagLink) :
  existsb (link_key_eqb i t) ls = true <-> In (i, t) (map link_key ls).
Proof.
  rewrite existsb_exists, in_map_iff. split.
  - intros [l [Hin E]]. exists l. apply link_key_eqb_true in E.
    destruct E as [<- <-]. split; [reflexivity | exact Hin].
  - intros [l [E Hin]]. exists l. split; [exact Hin |].
    apply link_key_eqb_true. unfold link_key in E. inversion E. tauto.
Qed.

Lemma link_absent_iff (i t : Z) (ls : list ImageTagLink) :
  existsb (link_key_eqb i t) ls = false <-> ~ In (i, t) (map link_key ls).
Proof.
  rewrite <- link_present_iff. destruct (existsb _ ls); split; intros H;
    try reflexivity; try discriminate.
  exfalso. apply H. reflexivity.
Qed.

Section StoreConstraints.

Lemma insert_album_rejects (db : DB) (name0 slug0 root0 : string) (owner : option Z) :
  In slug0 (map slug (albums db)) ->
  insert_album db name0 slug0 root0 owner = Raise IntegrityError.
Proof.
  intros H. unfold insert_album.
  apply (existsb_key slug String.eqb String.eqb_eq) in H.
  rewrite H. reflexivity.
Qed.

Lemma insert_album_accepts (db : DB) (name0 slug0 root0 : string) (owner : option Z) :
  ~ In slug0 (map slug (albums db)) ->
  exists a,
    insert_album db name0 slug0 root0 owner
    = Ok (a, {| images := images db; albums := albums db ++ [a];
                tags := tags db; links := links db |})
    /\ slug a = slug0 /\ album_name a = name0.
Proof.
  intros H. unfold insert_album.
  apply (existsb_key_false slug String.eqb String.eqb_eq) in H.
  rewrite H. simpl. eexists. split; [reflexivity |]. split; reflexivity.
Qed.

Lemma insert_album_unique (db db' : DB) (name0 slug0 root0 : string)
      (owner : option Z) (a : Album) :
  unique_slugs db ->
  insert_album db name0 slug0 root0 owner = Ok (a, db') ->
  unique_slugs db'.
Proof.
  unfold unique_slugs, insert_album. intros Hnd.
  destruct (existsb (fun a0 => String.eqb (slug a0) slug0) (albums db)) eqn:E;
    simpl; [discriminate |].
  intros H. inversion H; subst. simpl.
  apply NoDup_snoc_key; [exact Hnd |]. simpl.
  apply (existsb_key_false slug String.eqb String.eqb_eq). exact E.
Qed.

Lemma insert_link_rejects (db : DB) (l : ImageTagLink) :
  In (link_key l) (map link_key (links db)) ->
  insert_link db l = Raise IntegrityError.
Proof.
  intros H. unfold insert_link. apply link_present_iff in H.
  rewrite H. reflexivity.
Qed.

Lemma insert_link_accepts (db : DB) (l : ImageTagLink) :
  ~ In (link_key l) (map link_key (links db)) ->
  insert_link db l
  = Ok {| images := images db; albums := albums db; tags := tags db;
          links := links db ++ [l] |}.
Proof.
  intros H. unfold insert_link. apply link_absent_iff in H.
  rewrite H. reflexivity.
Qed.

Lemma insert_link_unique (db db' : DB) (l : ImageTagLink) :
  unique_links db -> insert_link db l = Ok db' -> unique_links db'.
Proof.
  unfold unique_links, insert_link. intros Hnd.
  destruct (existsb (link_key_eqb (link_image_id l) (link_tag_id l)) (links db))
    eqn:E; simpl; [discriminate |].
  intros H. inversion H; subst. simpl.
  apply NoDup_snoc_key; [exact Hnd |].
  apply link_absent_iff. exact E.
Qed.

Lemma insert_image_accepts (db : DB) (i : Image) :
  insert_image db i
  = Ok (with_image_id i (next_id (map image_id (images db))),
        {| images := images db
                     ++ [with_image_id i (next_id (map image_id (images db)))];
           albums := albums db; tags := tags db; links := links db |}).
Proof. reflexivity. Qed.

End StoreConstraints.

(** C8, as stated, fails for the fingerprint: [file_hash] is declared
    with [index=True] only, and the store takes a second Image row with
    the fingerprint of an existing one. *)
Lemma store_accepts_duplicate_fingerprint :
  Schema.rejects_duplicates Schema.Image_file_hash = false
  /\ count_hash "h1" one_image_db = 1%nat
  /\ exists i' db',
       insert_image one_image_db (sample_image 0 "h1" false false)
       = Ok (i', db')
       /\ count_hash "h1" db' = 2%nat.
Proof.
  split; [reflexivity |]. split; [reflexivity |].
  eexists. eexists. split; reflexivity.
Qed.

(** C8, amended.  The schema declares [unique=True] on the Album's slug
    and makes (image_id, tag_id) the primary key of a TagLink, and the
    store rejects a second row for either.  The Image's fingerprint is
    indexed but carries no uniqueness constraint: the store accepts
    every Image row, so two rows with one fingerprint are kept apart
    only by the lookup that precedes the insertion. *)
Theorem schema_uniqueness_constraints :
  forall db : DB,
    (Schema.unique Schema.Album_slug = true
     /\ Schema.primary_key Schema.ImageTagLink_image_id = true
     /\ Schema.primary_key Schema.ImageTagLink_tag_id = true
     /\ Schema.index Schema.Image_file_hash = true
     /\ Schema.unique Schema.Image_file_hash = false
     /\ Schema.primary_key Schema.Image_file_hash = false)
    /\ (forall name0 slug0 root0 owner,
          In slug0 (map slug (albums db)) ->
          insert_album db name0 slug0 root0 owner = Raise IntegrityError)
    /\ (forall name0 slug0 root0 owner a db',
          unique_slugs db ->
          insert_album db name0 slug0 root0 owner = Ok (a, db') ->
          unique_slugs db')
    /\ (forall l,
          In (link_key l) (map link_key (links db)) ->
          insert_link db l = Raise IntegrityError)
    /\ (forall l db',
          unique_links db -> insert_link db l = Ok db' -> unique_links db')
    /\ (forall i, exists i' db',
          insert_image db i = Ok (i', db')
          /\ file_hash i' = file_hash i
          /\ images db' = images db ++ [i']).
Proof.
  intros db.
  split; [repeat split |].
  split; [intros; apply insert_album_rejects; assumption |].
  split; [intros name0 slug0 root0 owner a db' Hu H;
          exact (insert_album_unique db db' name0 slug0 root0 owner a Hu H) |].
  split; [intros; apply insert_link_rejects; assumption |].
  split; [intros l db' Hu H; exact (insert_link_unique db db' l Hu H) |].
  intros i. eexists. eexists. rewrite insert_image_accepts.
  split; [reflexivity |]. split; reflexivity.
Qed.

Lemma schema_uniqueness_constraints_witness :
  insert_album one_image_db "Race" "race" "/other/Race" (Some 2)
  = Raise IntegrityError.
Proof.
  apply (proj1 (proj2 (schema_uniqueness_constraints one_image_db))).
  simpl. left. reflexivity.
Defined.

(** ** Content addressing *)

Section ContentAddressor.

Lemma read_blocks_all (fuel : nat) :
  forall rest acc : list Byte.byte,
    (List.length rest < fuel)%nat ->
    read_blocks fuel rest acc = acc ++ rest.
Proof.
  induction fuel as [|k IH]; intros rest acc Hlen; [lia |].
  cbn [read_blocks].
  assert (Hchunk : exists m, CHUNK = S m) by (eexists; reflexivity).
  destruct Hchunk as [m Hm]. rewrite Hm.
  destruct rest as [|b rest].
  - simpl. rewrite app_nil_r. reflexivity.
  - cbn [firstn]. rewrite IH.
    + rewrite <- app_assoc. f_equal.
      change (b :: firstn m rest) with (firstn (S m) (b :: rest)).
      apply firstn_skipn.
    + cbn [skipn]. rewrite length_skipn. simpl in Hlen. lia.
Qed.

Lemma calculate_file_hash_content (env : Env) (file_path : string)
      (content : list Byte.byte) :
  read_bytes env file_path = Some content ->
  calculate_file_hash env file_path = Ok (sha256_hexdigest env content).
Proof.
  intros H. unfold calculate_file_hash. rewrite H.
  rewrite read_blocks_all; [reflexivity | lia].
Qed.

End ContentAddressor.

(** ** UTF-8 and the parts of a path *)

Section Utf8.

Lemma boundary_between : between_characters utf8.boundary.
Proof. split; [reflexivity | cbn; lia]. Qed.

Lemma step_between (st st' : utf8.Pending) (b : N) :
  utf8.step st b = Some st' -> between_characters st'.
Proof.
  unfold utf8.step. destruct (utf8.more st) as [| k].
  - unfold utf8.lead.
    repeat match goal with
           | |- context [if ?c then _ else _] => destruct c
           end;
      intros H; inversion H; subst; split; cbn; intros;
      first [reflexivity | discriminate | lia].
  - destruct ((utf8.low st <=? b) && (b <=? utf8.high st))%N; [| discriminate].
    intros H. inversion H. subst. split; cbn.
    + intros ->. reflexivity.
    + lia.
Qed.

Lemma scan_between (bytes : list N) :
  forall st st',
    between_characters st -> utf8.scan st bytes = Some st' ->
    between_characters st'.
Proof.
  induction bytes as [| b bytes IH]; intros st st' Hst; cbn [utf8.scan].
  - intros H. inversion H. subst. exact Hst.
  - destruct (utf8.step st b) as [st1 |] eqn:E; [| discriminate].
    apply IH. exact (step_between st st1 b E).
Qed.

Lemma scan_app (a b : list N) :
  forall st,
    utf8.scan st (a ++ b)
    = match utf8.scan st a with
      | Some st' => utf8.scan st' b
      | None => None
      end.
Proof.
  induction a as [| x a IH]; intros st; cbn [app utf8.scan]; [reflexivity |].
  destruct (utf8.step st x); [apply IH | reflexivity].
Qed.

(** An ASCII byte is accepted between two characters only. *)
Lemma step_ascii (st st' : utf8.Pending) (b : N) :
  (b < 128)%N -> between_characters st -> utf8.step st b = Some st' ->
  utf8.more st = 0%nat /\ st' = utf8.boundary.
Proof.
  intros Hb [_ Hlow]. unfold utf8.step.
  destruct (utf8.more st) as [| k].
  - unfold utf8.lead. apply N.ltb_lt in Hb. rewrite Hb.
    intros H. inversion H. split; reflexivity.
  - replace (utf8.low st <=? b)%N with false; [discriminate |].
    symmetry. apply N.leb_gt. lia.
Qed.

Lemma bytes_of_app (a b : string) :
  utf8.bytes_of (a ++ b) = utf8.bytes_of a ++ utf8.bytes_of b.
Proof.
  unfold utf8.bytes_of. induction a as [| c a IH]; [reflexivity |].
  cbn. rewrite IH. reflexivity.
Qed.

Lemma valid_scan (s : string) :
  utf8.valid s = true <-> utf8.scan utf8.boundary (utf8.bytes_of s)
                          = Some utf8.boundary.
Proof.
  unfold utf8.valid. split.
  - destruct (utf8.scan utf8.boundary (utf8.bytes_of s)) as [st |] eqn:E;
      [| discriminate].
    intros H. apply Nat.eqb_eq in H.
    destruct (scan_between _ _ _ boundary_between E) as [Hb _].
    rewrite (Hb H). reflexivity.
  - intros ->. reflexivity.
Qed.

Lemma valid_app (a b : string) :
  utf8.valid a = true -> utf8.valid (a ++ b) = utf8.valid b.
Proof.
  intros Ha. apply valid_scan in Ha. unfold utf8.valid.
  rewrite bytes_of_app, scan_app, Ha. reflexivity.
Qed.

(** A string is well-formed on both sides of an ASCII character. *)
Lemma valid_around_ascii (a b : string) (c : ascii) :
  (N_of_ascii c < 128)%N ->
  utf8.valid (a ++ String c b) = true ->
  utf8.valid a = true /\ utf8.valid b = true.
Proof.
  intros Hc H. apply valid_scan in H.
  rewrite bytes_of_app, scan_app in H.
  destruct (utf8.scan utf8.boundary (utf8.bytes_of a)) as [st |] eqn:Ea;
    [| discriminate].
  pose proof (scan_between _ _ _ boundary_between Ea) as Hst.
  change (utf8.bytes_of (String c b)) with (N_of_ascii c :: utf8.bytes_of b) in H.
  cbn [utf8.scan] in H.
  destruct (utf8.step st (N_of_ascii c)) as [st1 |] eqn:Es; [| discriminate].
  destruct (step_ascii st st1 (N_of_ascii c) Hc Hst Es) as [Hm ->].
  split.
  - unfold utf8.valid. rewrite Ea, Hm. reflexivity.
  - apply valid_scan. exact H.
Qed.

Lemma append_assoc (a b c : string) :
  ((a ++ b) ++ c = a ++ (b ++ c))%string.
Proof.
  induction a as [| x a IH]; [reflexivity |]. cbn. rewrite IH. reflexivity.
Qed.

Lemma append_nil_r (a : string) : (a ++ "")%string = a.
Proof.
  induction a as [| x a IH]; [reflexivity |]. cbn. rewrite IH. reflexivity.
Qed.

Lemma rsplit_parts (p : string) :
  exists h t,
    posixpath.rsplit p = (h, t) /\ p = (h ++ t)%string
    /\ (h = EmptyString \/ exists h0, h = (h0 ++ "/")%string).
Proof.
  induction p as [| c rest IH].
  - exists EmptyString, EmptyString. repeat split. left. reflexivity.
  - destruct IH as (h & t & E & Hp & Hh). cbn [posixpath.rsplit]. rewrite E.
    destruct h as [| x h].
    + destruct (posixpath.is_sep c) eqn:Hc.
      * apply Ascii.eqb_eq in Hc. subst c.
        exists "/"%string, rest. split; [reflexivity |]. split; [reflexivity |].
        right. exists EmptyString. reflexivity.
      * exists EmptyString, (String c rest). split; [reflexivity |].
        split; [reflexivity |]. left. reflexivity.
    + exists (String c (String x h)), t. split; [reflexivity |].
      split; [cbn; rewrite Hp; reflexivity |].
      right. destruct Hh as [Hh | [h0 Hh]]; [discriminate |].
      exists (String c h0). cbn. rewrite Hh. reflexivity.
Qed.

Lemma rstrip_sep_parts (s : string) :
  exists tail,
    s = (posixpath.rstrip_sep s ++ tail)%string
    /\ (tail = EmptyString \/ exists r, tail = String "/"%char r).
Proof.
  induction s as [| c rest IH].
  - exists EmptyString. split; [reflexivity | left; reflexivity].
  - destruct IH as (tail & Hs & Ht). cbn [posixpath.rstrip_sep].
    destruct (posixpath.rstrip_sep rest) as [| x r] eqn:E.
    + cbn in Hs. destruct (posixpath.is_sep c) eqn:Hc.
      * apply Ascii.eqb_eq in Hc. subst c. exists (String "/"%char rest).
        split; [reflexivity |]. right. exists rest. reflexivity.
      * exists tail. split; [cbn; rewrite <- Hs; reflexivity | exact Ht].
    + exists tail. split; [| exact Ht]. cbn. cbn in Hs. rewrite <- Hs.
      reflexivity.
Qed.

Lemma slash_is_ascii : (N_of_ascii "/"%char < 128)%N.
Proof. vm_compute. reflexivity. Qed.

Lemma valid_rsplit (p : string) :
  utf8.valid p = true ->
  utf8.valid (fst (posixpath.rsplit p)) = true
  /\ utf8.valid (snd (posixpath.rsplit p)) = true.
Proof.
  intros H. destruct (rsplit_parts p) as (h & t & E & Hp & Hh).
  rewrite E. cbn [fst snd]. destruct Hh as [-> | [h0 ->]].
  - split; [reflexivity |]. cbn in Hp. rewrite <- Hp. exact H.
  - rewrite Hp, append_assoc in H.
    change ("/" ++ t)%string with (String "/"%char t) in H.
    destruct (valid_around_ascii h0 t "/"%char slash_is_ascii H) as [H0 Ht].
    split; [| exact Ht]. rewrite (valid_app h0 "/" H0). reflexivity.
Qed.

Lemma valid_rstrip_sep (s : string) :
  utf8.valid s = true -> utf8.valid (posixpath.rstrip_sep s) = true.
Proof.
  intros H. destruct (rstrip_sep_parts s) as (tail & Hs & [-> | [r ->]]).
  - rewrite append_nil_r in Hs. rewrite <- Hs. exact H.
  - rewrite Hs in H.
    exact (proj1 (valid_around_ascii _ r "/"%char slash_is_ascii H)).
Qed.

Lemma valid_dirname (p : string) :
  utf8.valid p = true -> utf8.valid (posixpath.dirname p) = true.
Proof.
  intros H. unfold posixpath.dirname.
  destruct (valid_rsplit p H) as [Hh _].
  pose proof (valid_rstrip_sep _ Hh) as Hr.
  destruct (posixpath.rstrip_sep (fst (posixpath.rsplit p)));
    assumption.
Qed.

Lemma valid_basename (p : string) :
  utf8.valid p = true -> utf8.valid (posixpath.basename p) = true.
Proof.
  intros H. exact (proj2 (valid_rsplit p H)).
Qed.

(** A path that is well-formed gives text that can be bound. *)
Lemma valid_path_texts (p : string) :
  utf8.valid p = true ->
  forallb utf8.valid (album_texts p) = true
  /\ forallb utf8.valid (image_texts p) = true.
Proof.
  intros H. unfold album_texts, image_texts. cbn [forallb].
  rewrite (valid_basename _ (valid_dirname p H)), (valid_dirname p H),
    (valid_basename p H), H. split; reflexivity.
Qed.

End Utf8.

(** ** Ingestion *)

Section Ingestion.

Variable env : Env.
Variable owner : Z.

Lemma ensure_thumbnail_keeps_store (p h : string) (s : State) :
  exists s' b,
    ensure_thumbnail env p h s = (s', Ok b)
    /\ committed s' = committed s /\ working s' = working s.
Proof.
  unfold ensure_thumbnail, bind, exists_thumbnail, generate_thumbnail.
  destruct (existsb (String.eqb (h ++ ".jpg")%string) (thumbnails s)).
  - exists s, true. repeat split.
  - destruct (thumbnail_ok env p).
    + unfold bind, write_thumbnail, ret. eexists. exists true. repeat split.
    + exists s, false. repeat split.
Qed.

(** The thumbnail step looks at the thumbnail directory only, and has
    nothing left to do where it has been. *)
Lemma ensure_thumbnail_again (p h : string) (s s1 : State) (b : bool) :
  ensure_thumbnail env p h s = (s1, Ok b) ->
  forall s2,
    thumbnails s2 = thumbnails s1 ->
    exists b', ensure_thumbnail env p h s2 = (s2, Ok b').
Proof.
  unfold ensure_thumbnail, bind, exists_thumbnail, generate_thumbnail.
  destruct (existsb (String.eqb (h ++ ".jpg")%string) (thumbnails s)) eqn:Ex.
  - unfold ret. intros H s2 Ht. inversion H; subst. rewrite Ht, Ex.
    exists true. reflexivity.
  - destruct (thumbnail_ok env p) eqn:Ok.
    + unfold bind, write_thumbnail, ret. intros H s2 Ht. inversion H; subst.
      rewrite Ht. cbn [thumbnails existsb]. rewrite String.eqb_refl.
      exists true. reflexivity.
    + unfold ret. intros H s2 Ht. inversion H; subst. rewrite Ht, Ex.
      exists false. reflexivity.
Qed.

Lemma resolve_album_found (p : string) (s : State) (a : Album) :
  select_album_by_slug (working s) (album_slug_of env p) = Some a ->
  resolve_album env owner p s = (s, Ok a).
Proof.
  intros H. unfold resolve_album, bind, exec. cbn zeta.
  unfold album_slug_of in H. rewrite H. reflexivity.
Qed.

(** The album is new to this session and its text cannot be bound. *)
Lemma resolve_album_refused (p : string) (s : State) :
  select_album_by_slug (working s) (album_slug_of env p) = None ->
  forallb utf8.valid (album_texts p) = false ->
  resolve_album env owner p s
  = ({| committed := other_writer env p (committed s);
        working := other_writer env p (working s);
        thumbnails := thumbnails s |}, Raise UnicodeEncodeError).
Proof.
  intros Hnone Hv. unfold resolve_album, bind, exec. cbn zeta.
  unfold album_slug_of in *. rewrite Hnone.
  unfold concurrent, add, bind_text. cbn [working committed thumbnails].
  unfold album_texts in Hv. rewrite Hv. reflexivity.
Qed.

Lemma resolve_album_race (p : string) (s : State) :
  select_album_by_slug (working s) (album_slug_of env p) = None ->
  forallb utf8.valid (album_texts p) = true ->
  In (album_slug_of env p)
     (map slug (albums (other_writer env p (working s)))) ->
  resolve_album env owner p s
  = ({| committed := other_writer env p (committed s);
        working := other_writer env p (working s);
        thumbnails := thumbnails s |}, Raise IntegrityError).
Proof.
  intros Hnone Hv Hin. unfold resolve_album, bind, exec. cbn zeta.
  unfold album_slug_of in *. rewrite Hnone.
  unfold concurrent, add, bind_text. cbn [working committed thumbnails].
  unfold album_texts in Hv. rewrite Hv.
  rewrite insert_album_rejects by exact Hin. reflexivity.
Qed.

Lemma resolve_album_created (p : string) (s : State) :
  select_album_by_slug (working s) (album_slug_of env p) = None ->
  forallb utf8.valid (album_texts p) = true ->
  ~ In (album_slug_of env p)
       (map slug (albums (other_writer env p (working s)))) ->
  exists a s',
    resolve_album env owner p s = (s', Ok a)
    /\ slug a = album_slug_of env p
    /\ images (working s') = images (other_writer env p (working s))
    /\ albums (working s') = albums (other_writer env p (working s)) ++ [a]
    /\ committed s' = working s'.
Proof.
  intros Hnone Hv Hnin. unfold resolve_album, bind, exec. cbn zeta.
  unfold album_slug_of in *. rewrite Hnone.
  unfold concurrent, add, bind_text. cbn [working committed thumbnails].
  unfold album_texts in Hv. rewrite Hv.
  destruct (insert_album_accepts (other_writer env p (working s))
              (posixpath.basename (posixpath.dirname p))
              (slugify env (posixpath.basename (posixpath.dirname p)))
              (posixpath.dirname p) (Some owner) Hnin) as [a [E [Hs _]]].
  rewrite E. unfold commit, ret. cbn [working committed thumbnails].
  exists a. eexists. split; [reflexivity |]. repeat split. exact Hs.
Qed.

Lemma save_image_refused (p h : string) (md : Metadata) (a : Album) (s : State) :
  forallb utf8.valid (image_texts p) = false ->
  save_image owner p h md a s = (s, Raise UnicodeEncodeError).
Proof.
  intros Hv. unfold save_image, bind, add, bind_text.
  unfold image_texts in Hv. rewrite Hv. reflexivity.
Qed.

Lemma save_image_row (p h : string) (md : Metadata) (a : Album) (s : State) :
  forallb utf8.valid (image_texts p) = true ->
  exists i' s',
    save_image owner p h md a s = (s', Ok i')
    /\ images (working s') = images (working s) ++ [i']
    /\ albums (working s') = albums (working s)
    /\ tags (working s') = tags (working s)
    /\ links (working s') = links (working s)
    /\ committed s' = working s'
    /\ thumbnails s' = thumbnails s
    /\ file_hash i' = h /\ path i' = p
    /\ filename i' = posixpath.basename p
    /\ image_owner_id i' = Some owner
    /\ image_album_id i' = album_id a
    /\ is_processed i' = false /\ is_deleted i' = false
    /\ width i' = Some (md_width md) /\ height i' = Some (md_height md)
    /\ file_size i' = Some (md_file_size md)
    /\ camera_model i' = Some (md_camera_model md)
    /\ captured_at i' = md_captured_at md.
Proof.
  intros Hv. unfold save_image, bind, add, bind_text.
  unfold image_texts in Hv. rewrite Hv. rewrite insert_image_accepts.
  unfold commit, ret. cbn [working committed thumbnails].
  eexists. eexists. split; [reflexivity |]. repeat split.
Qed.

(** What the image step leaves of the store, whichever way it goes. *)
Lemma save_image_albums (p h : string) (md : Metadata) (a : Album)
      (s s' : State) (r : result Image) :
  save_image owner p h md a s = (s', r) ->
  albums (working s') = albums (working s).
Proof.
  destruct (forallb utf8.valid (image_texts p)) eqn:Hv.
  - destruct (save_image_row p h md a s Hv) as (i' & s3 & E & _ & Ha & _).
    rewrite E. intros H. inversion H; subst. exact Ha.
  - rewrite (save_image_refused p h md a s Hv).
    intros H. inversion H; subst. reflexivity.
Qed.

Lemma process_file_skips (p h : string) (s : State) (i : Image) :
  calculate_file_hash env p = Ok h ->
  select_image_by_hash (working s) h = Some i ->
  process_file env owner p s = (s, Ok Skipped).
Proof.
  intros Hh Hex. unfold process_file, bind, lift, exec.
  rewrite Hh. cbn beta iota. rewrite Hex. reflexivity.
Qed.

Lemma process_file_unreadable (p : string) (s : State) :
  read_bytes env p = None ->
  process_file env owner p s = (s, Raise OSError).
Proof.
  intros H. unfold process_file, bind, lift, calculate_file_hash.
  rewrite H. reflexivity.
Qed.

Lemma process_file_no_metadata (p h : string) (s : State) :
  calculate_file_hash env p = Ok h ->
  select_image_by_hash (working s) h = None ->
  getsize env p = None ->
  process_file env owner p s = (s, Raise OSError).
Proof.
  intros Hh Hex Hg. unfold process_file, bind, lift, exec.
  rewrite Hh. cbn beta iota. rewrite Hex.
  unfold extract_metadata. rewrite Hg. reflexivity.
Qed.

Lemma extract_metadata_ok (p : string) (size : Z) :
  getsize env p = Some size -> exists md, extract_metadata env p = Ok md.
Proof.
  intros Hg. unfold extract_metadata. rewrite Hg.
  destruct (pil_size env p) as [[w h]|]; [| eexists; reflexivity].
  destruct (pil_exif env p) as [[model date]|]; eexists; reflexivity.
Qed.

Lemma calculate_file_hash_raises (p : string) (e : Exception) :
  calculate_file_hash env p = Raise e -> read_bytes env p = None /\ e = OSError.
Proof.
  unfold calculate_file_hash. destruct (read_bytes env p); [discriminate |].
  intros H. inversion H. split; reflexivity.
Qed.

Lemma extract_metadata_raises (p : string) (e : Exception) :
  extract_metadata env p = Raise e -> getsize env p = None /\ e = OSError.
Proof.
  unfold extract_metadata. destruct (getsize env p).
  - destruct (pil_size env p) as [[w h]|]; [| discriminate].
    destruct (pil_exif env p) as [[m d]|]; discriminate.
  - intros H. inversion H. split; reflexivity.
Qed.

(** With the fingerprint new and the metadata read, the file goes on
    to the album step and the image step. *)
Lemma process_file_fresh (p h : string) (md : Metadata) (s : State) :
  calculate_file_hash env p = Ok h ->
  select_image_by_hash (working s) h = None ->
  extract_metadata env p = Ok md ->
  exists s1 b,
    ensure_thumbnail env p h s = (s1, Ok b)
    /\ committed s1 = committed s /\ working s1 = working s
    /\ process_file env owner p s
       = match resolve_album env owner p s1 with
         | (s2, Ok a) =>
             match save_image owner p h md a s2 with
             | (s3, Ok _) => (s3, Ok Added)
             | (s3, Raise e) => (s3, Raise e)
             end
         | (s2, Raise e) => (s2, Raise e)
         end.
Proof.
  intros Hh Hex Hmd.
  destruct (ensure_thumbnail_keeps_store p h s) as [s1 [b [Et [Ec Ew]]]].
  exists s1, b. split; [exact Et |]. split; [exact Ec |]. split; [exact Ew |].
  unfold process_file at 1. unfold bind at 1. unfold lift at 1. rewrite Hh.
  unfold bind at 1. unfold exec at 1. rewrite Hex.
  unfold bind at 1. unfold lift at 1. rewrite Hmd.
  unfold bind at 1. rewrite Et.
  unfold bind at 1. destruct (resolve_album env owner p s1) as [s2 [a|e]];
    [| reflexivity].
  unfold bind at 1. destruct (save_image owner p h md a s2) as [s3 [i|e]];
    reflexivity.
Qed.

Lemma process_file_adds (p h : string) (md : Metadata) (s : State) :
  quiet env ->
  utf8.valid p = true ->
  calculate_file_hash env p = Ok h ->
  select_image_by_hash (working s) h = None ->
  extract_metadata env p = Ok md ->
  exists s' i',
    process_file env owner p s = (s', Ok Added)
    /\ file_hash i' = h
    /\ images (working s') = images (working s) ++ [i']
    /\ committed s' = working s'.
Proof.
  intros Hq Hv Hh Hex Hmd.
  destruct (valid_path_texts p Hv) as [Hva Hvi].
  destruct (process_file_fresh p h md s Hh Hex Hmd)
    as [s1 [b [_ [_ [Ew ->]]]]].
  destruct (select_album_by_slug (working s1) (album_slug_of env p))
    as [a|] eqn:Ea.
  - rewrite (resolve_album_found p s1 a Ea).
    destruct (save_image_row p h md a s1 Hvi)
      as (i' & s3 & E & Hi & _ & _ & _ & Hc & _ & Hf & _).
    rewrite E. exists s3, i'. rewrite Hi, Ew. repeat split; assumption.
  - assert (Hnin : ~ In (album_slug_of env p)
                        (map slug (albums (other_writer env p (working s1))))).
    { rewrite Hq. apply (existsb_key_false slug String.eqb String.eqb_eq).
      apply find_none_existsb. exact Ea. }
    destruct (resolve_album_created p s1 Ea Hva Hnin)
      as [a [s2 [E [_ [Hi2 [_ _]]]]]].
    rewrite E.
    destruct (save_image_row p h md a s2 Hvi)
      as (i' & s3 & E3 & Hi & _ & _ & _ & Hc & _ & Hf & _).
    rewrite E3. exists s3, i'. rewrite Hi, Hi2, Hq, Ew.
    repeat split; assumption.
Qed.

(** The album comes to exist between the lookup and the INSERT: the
    flush raises, on the text if it cannot be bound, on the slug
    otherwise. *)
Lemma process_file_race (p h : string) (md : Metadata) (s : State) :
  calculate_file_hash env p = Ok h ->
  select_image_by_hash (working s) h = None ->
  extract_metadata env p = Ok md ->
  select_album_by_slug (working s) (album_slug_of env p) = None ->
  In (album_slug_of env p)
     (map slug (albums (other_writer env p (working s)))) ->
  exists s',
    process_file env owner p s
    = (s', Raise (if forallb utf8.valid (album_texts p)
                  then IntegrityError else UnicodeEncodeError))
    /\ working s' = other_writer env p (working s)
    /\ committed s' = other_writer env p (committed s).
Proof.
  intros Hh Hex Hmd Hnone Hin.
  destruct (process_file_fresh p h md s Hh Hex Hmd)
    as [s1 [b [_ [Ec [Ew ->]]]]].
  rewrite <- Ew in Hnone, Hin.
  destruct (forallb utf8.valid (album_texts p)) eqn:Hv.
  - rewrite (resolve_album_race p s1 Hnone Hv Hin).
    eexists. split; [reflexivity |]. cbn [working committed].
    rewrite Ew, Ec. split; reflexivity.
  - rewrite (resolve_album_refused p s1 Hnone Hv).
    eexists. split; [reflexivity |]. cbn [working committed].
    rewrite Ew, Ec. split; reflexivity.
Qed.

(** *** The loop *)

Lemma tally_total (stats : Stats) (r : result Outcome) :
  added (tally stats r) + skipped (tally stats r) + errors (tally stats r)
  = added stats + skipped stats + errors stats + 1.
Proof. destruct r as [[|]|e]; simpl; lia. Qed.

Lemma process_file_inactive_raises (p : string) (s : State) :
  exists e, process_file_inactive env p s = (s, Raise e)
            /\ raised_by_flush e = false.
Proof.
  unfold process_file_inactive, bind, lift, raise.
  destruct (calculate_file_hash env p) as [h | e] eqn:E.
  - exists PendingRollbackError. split; reflexivity.
  - destruct (calculate_file_hash_raises p e E) as [_ ->].
    exists OSError. split; reflexivity.
Qed.

(** On a session whose flush has failed every round raises, and the
    store stays as it is. *)
Lemma process_rounds_inactive (paths : list string) :
  forall (stats : Stats) (s : State),
    process_rounds env owner true paths stats s
    = (s, failed_rounds stats (List.length paths)).
Proof.
  induction paths as [| p paths IH]; intros stats s.
  - cbn. unfold failed_rounds. destruct stats. cbn. f_equal. f_equal. lia.
  - cbn [process_rounds].
    destruct (process_file_inactive_raises p s) as (e & -> & _).
    cbn [leaves_inactive orb]. rewrite IH. f_equal.
    unfold failed_rounds. cbn [tally added skipped errors List.length].
    f_equal. lia.
Qed.

Lemma process_paths_nil (stats : Stats) (s : State) :
  process_paths env owner [] stats s = (s, stats).
Proof. reflexivity. Qed.

Lemma process_paths_ok (p : string) (rest : list string) (stats : Stats)
      (s s1 : State) (o : Outcome) :
  process_file env owner p s = (s1, Ok o) ->
  process_paths env owner (p :: rest) stats s
  = process_paths env owner rest (tally stats (Ok o)) s1.
Proof.
  intros E. unfold process_paths. cbn [process_rounds]. rewrite E.
  reflexivity.
Qed.

(** An exception raised outside a flush: the loop goes on. *)
Lemma process_paths_raise (p : string) (rest : list string) (stats : Stats)
      (s s1 : State) (e : Exception) :
  process_file env owner p s = (s1, Raise e) ->
  raised_by_flush e = false ->
  process_paths env owner (p :: rest) stats s
  = process_paths env owner rest (tally stats (Raise e)) s1.
Proof.
  intros E Hf. unfold process_paths. cbn [process_rounds]. rewrite E.
  cbn [leaves_inactive orb]. rewrite Hf. reflexivity.
Qed.

(** An exception raised by a flush: every later round raises too. *)
Lemma process_paths_flush (p : string) (rest : list string) (stats : Stats)
      (s s1 : State) (e : Exception) :
  process_file env owner p s = (s1, Raise e) ->
  raised_by_flush e = true ->
  process_paths env owner (p :: rest) stats s
  = (s1, failed_rounds stats (S (List.length rest))).
Proof.
  intros E Hf. unfold process_paths. cbn [process_rounds]. rewrite E.
  cbn [leaves_inactive orb]. rewrite Hf, process_rounds_inactive.
  f_equal. unfold failed_rounds. cbn [tally added skipped errors]. f_equal.
  lia.
Qed.

Lemma inactive_after_inactive (paths : list string) (s : State) :
  inactive_after env owner true paths s = true.
Proof.
  revert s. induction paths as [| p paths IH]; intros s; [reflexivity |].
  cbn [inactive_after].
  destruct (process_file_inactive env p s) as [s1 r]. apply IH.
Qed.

Lemma process_rounds_app (l1 l2 : list string) :
  forall (inactive : bool) (stats : Stats) (s : State),
    process_rounds env owner inactive (l1 ++ l2) stats s
    = process_rounds env owner (inactive_after env owner inactive l1 s) l2
        (snd (process_rounds env owner inactive l1 stats s))
        (fst (process_rounds env owner inactive l1 stats s)).
Proof.
  induction l1 as [| p l1 IH]; intros inactive stats s; [reflexivity |].
  cbn [app process_rounds inactive_after].
  destruct ((if inactive then process_file_inactive env p
             else process_file env owner p) s) as [s1 r].
  apply IH.
Qed.

Lemma inactive_after_app (l1 l2 : list string) :
  forall (inactive : bool) (stats : Stats) (s : State),
    inactive_after env owner inactive (l1 ++ l2) s
    = inactive_after env owner (inactive_after env owner inactive l1 s) l2
        (fst (process_rounds env owner inactive l1 stats s)).
Proof.
  induction l1 as [| p l1 IH]; intros inactive stats s; [reflexivity |].
  cbn [app process_rounds inactive_after].
  destruct ((if inactive then process_file_inactive env p
             else process_file env owner p) s) as [s1 r].
  apply IH.
Qed.

(** The round that follows a run of rounds which left the session
    usable. *)
Lemma process_paths_snoc (l : list string) (p : string) (stats : Stats)
      (s : State) :
  inactive_after env owner false l s = false ->
  process_paths env owner (l ++ [p]) stats s
  = (fst (process_file env owner p (fst (process_paths env owner l stats s))),
     tally (snd (process_paths env owner l stats s))
           (snd (process_file env owner p
                   (fst (process_paths env owner l stats s))))).
Proof.
  intros H. unfold process_paths. rewrite process_rounds_app, H.
  cbn [process_rounds].
  destruct (process_file env owner p
              (fst (process_rounds env owner false l stats s))) as [s1 r].
  reflexivity.
Qed.

Lemma process_rounds_total (paths : list string) :
  forall (inactive : bool) (stats : Stats) (s : State),
    added (snd (process_rounds env owner inactive paths stats s))
    + skipped (snd (process_rounds env owner inactive paths stats s))
    + errors (snd (process_rounds env owner inactive paths stats s))
    = added stats + skipped stats + errors stats
      + Z.of_nat (List.length paths).
Proof.
  induction paths as [|p paths IH]; intros inactive stats s.
  - simpl. lia.
  - cbn [process_rounds].
    destruct ((if inactive then process_file_inactive env p
               else process_file env owner p) s) as [s' r].
    rewrite IH, tally_total. cbn [List.length]. lia.
Qed.

Lemma process_paths_total (paths : list string) (stats : Stats) (s : State) :
  added (snd (process_paths env owner paths stats s))
  + skipped (snd (process_paths env owner paths stats s))
  + errors (snd (process_paths env owner paths stats s))
  = added stats + skipped stats + errors stats
    + Z.of_nat (List.length paths).
Proof. apply process_rounds_total. Qed.

End Ingestion.

(** ** Ingestion without a concurrent writer *)

Section QuietIngestion.

Variable env : Env.
Variable owner : Z.
Hypothesis Hquiet : quiet env.

(** The album step without a concurrent writer, when the text binds:
    it returns the album the lookup finds afterwards, and only ever
    appends to the table. *)
Lemma resolve_album_quiet (p : string) (s : State) :
  (select_album_by_slug (working s) (album_slug_of env p) = None ->
   forallb utf8.valid (album_texts p) = true) ->
  exists a s',
    resolve_album env owner p s = (s', Ok a)
    /\ select_album_by_slug (working s') (album_slug_of env p) = Some a
    /\ images (working s') = images (working s)
    /\ tags (working s') = tags (working s)
    /\ links (working s') = links (working s)
    /\ thumbnails s' = thumbnails s
    /\ (committed s = working s -> committed s' = working s')
    /\ (albums (working s') = albums (working s)
        \/ (albums (working s') = albums (working s) ++ [a]
            /\ select_album_by_slug (working s) (album_slug_of env p) = None)).
Proof.
  intros Hv.
  destruct (select_album_by_slug (working s) (album_slug_of env p))
    as [a|] eqn:Ea.
  - exists a, s. rewrite (resolve_album_found env owner p s a Ea).
    split; [reflexivity |]. split; [exact Ea |].
    split; [reflexivity |]. split; [reflexivity |]. split; [reflexivity |].
    split; [reflexivity |]. split; [intros Hc; exact Hc |].
    left. reflexivity.
  - specialize (Hv eq_refl). unfold resolve_album, bind, exec. cbn zeta.
    unfold album_slug_of in *. rewrite Ea.
    unfold concurrent, add, bind_text. cbn [working committed thumbnails].
    unfold album_texts in Hv. rewrite Hv.
    rewrite !Hquiet. unfold insert_album.
    pose proof Ea as Ex. unfold select_album_by_slug in Ex.
    apply find_none_existsb in Ex. rewrite Ex. simpl.
    eexists. eexists. split; [reflexivity |].
    cbn [working committed albums images tags links thumbnails].
    split.
    + unfold select_album_by_slug. cbn [albums].
      unfold select_album_by_slug in Ea.
      rewrite (find_app_missing _ _ _ Ea). simpl.
      rewrite String.eqb_refl. reflexivity.
    + split; [reflexivity |]. split; [reflexivity |].
      split; [reflexivity |]. split; [reflexivity |].
      split; [intros _; reflexivity |].
      right. split; reflexivity.
Qed.

(** The album step when the album is new and its text does not bind:
    the flush raises, nothing is written, and the same would happen
    again. *)
Lemma resolve_album_quiet_refused (p : string) (s : State) :
  select_album_by_slug (working s) (album_slug_of env p) = None ->
  forallb utf8.valid (album_texts p) = false ->
  exists s',
    resolve_album env owner p s = (s', Raise UnicodeEncodeError)
    /\ committed s' = committed s /\ working s' = working s
    /\ thumbnails s' = thumbnails s
    /\ resolve_album env owner p s' = (s', Raise UnicodeEncodeError).
Proof.
  intros Hnone Hv. rewrite (resolve_album_refused env owner p s Hnone Hv).
  rewrite !Hquiet. eexists. split; [reflexivity |].
  cbn [committed working thumbnails]. repeat split.
  rewrite resolve_album_refused; [| exact Hnone | exact Hv].
  cbn [committed working thumbnails]. rewrite !Hquiet. reflexivity.
Qed.

(** The five ways the loop body can go: the file cannot be read, its
    fingerprint is stored, it is added, or a flush refuses its text. *)
Lemma process_file_quiet (p : string) (s : State) :
  (process_file env owner p s = (s, Raise OSError)
   /\ (read_bytes env p = None
       \/ exists h, calculate_file_hash env p = Ok h
                    /\ select_image_by_hash (working s) h = None
                    /\ getsize env p = None))
  \/ (exists h i,
        calculate_file_hash env p = Ok h
        /\ select_image_by_hash (working s) h = Some i
        /\ process_file env owner p s = (s, Ok Skipped))
  \/ (exists h md s' i' a,
        calculate_file_hash env p = Ok h
        /\ select_image_by_hash (working s) h = None
        /\ extract_metadata env p = Ok md
        /\ process_file env owner p s = (s', Ok Added)
        /\ images (working s') = images (working s) ++ [i']
        /\ tags (working s') = tags (working s)
        /\ links (working s') = links (working s)
        /\ committed s' = working s'
        /\ select_album_by_slug (working s') (album_slug_of env p) = Some a
        /\ (albums (working s') = albums (working s)
            \/ (albums (working s') = albums (working s) ++ [a]
                /\ select_album_by_slug (working s) (album_slug_of env p) = None))
        /\ file_hash i' = h /\ path i' = p
        /\ filename i' = posixpath.basename p
        /\ image_owner_id i' = Some owner
        /\ image_album_id i' = album_id a
        /\ is_processed i' = false /\ is_deleted i' = false
        /\ width i' = Some (md_width md) /\ height i' = Some (md_height md)
        /\ file_size i' = Some (md_file_size md)
        /\ camera_model i' = Some (md_camera_model md)
        /\ captured_at i' = md_captured_at md)
  \/ (exists h md s' extra,
        calculate_file_hash env p = Ok h
        /\ select_image_by_hash (working s) h = None
        /\ extract_metadata env p = Ok md
        /\ process_file env owner p s = (s', Raise UnicodeEncodeError)
        /\ utf8.valid p = false
        /\ images (working s') = images (working s)
        /\ albums (working s') = albums (working s) ++ extra
        /\ tags (working s') = tags (working s)
        /\ links (working s') = links (working s)
        /\ (committed s = working s -> committed s' = working s')
        /\ process_file env owner p s' = (s', Raise UnicodeEncodeError)).
Proof.
  destruct (calculate_file_hash env p) as [h|e] eqn:Hh.
  2:{ left. destruct (calculate_file_hash_raises env p e Hh) as [Hr ->].
      split; [apply process_file_unreadable; exact Hr | left; exact Hr]. }
  destruct (select_image_by_hash (working s) h) as [i|] eqn:Hex.
  { right. left. exists h, i. repeat split; try assumption.
    exact (process_file_skips env owner p h s i Hh Hex). }
  destruct (extract_metadata env p) as [md|e] eqn:Hmd.
  2:{ left. destruct (extract_metadata_raises env p e Hmd) as [Hg ->].
      split; [exact (process_file_no_metadata env owner p h s Hh Hex Hg) |].
      right. exists h. repeat split; assumption. }
  right. right.
  destruct (process_file_fresh env owner p h md s Hh Hex Hmd)
    as [s1 [b [Et [Ec [Ew E]]]]].
  (* what the same file does on a store with the same images and
     thumbnails as one it has been on *)
  assert (Hagain : forall s2,
            images (working s2) = images (working s) ->
            thumbnails s2 = thumbnails s1 ->
            process_file env owner p s2
            = match resolve_album env owner p s2 with
              | (s3, Ok a) =>
                  match save_image owner p h md a s3 with
                  | (s4, Ok _) => (s4, Ok Added)
                  | (s4, Raise e) => (s4, Raise e)
                  end
              | (s3, Raise e) => (s3, Raise e)
              end).
  { intros s2 Hi2 Ht2.
    assert (Hex2 : select_image_by_hash (working s2) h = None)
      by (unfold select_image_by_hash in *; rewrite Hi2; exact Hex).
    destruct (process_file_fresh env owner p h md s2 Hh Hex2 Hmd)
      as [s1' [b' [Et' [_ [_ E']]]]].
    destruct (ensure_thumbnail_again env p h s s1 b Et s2 Ht2) as [b2 Et2].
    rewrite Et2 in Et'. inversion Et'; subst s1'. exact E'. }
  destruct (select_album_by_slug (working s1) (album_slug_of env p))
    as [a0|] eqn:Ea0.
  - (* the album is there *)
    assert (Hres : select_album_by_slug (working s1) (album_slug_of env p)
                   = None -> forallb utf8.valid (album_texts p) = true)
      by (rewrite Ea0; discriminate).
    destruct (resolve_album_quiet p s1 Hres)
      as (a & s2 & E2 & Hsel & Hi2 & Ht2 & Hl2 & Hth2 & Hc2 & Ha2).
    rewrite E2 in E.
    destruct (forallb utf8.valid (image_texts p)) eqn:Hvi.
    + left.
      destruct (save_image_row owner p h md a s2 Hvi)
        as (i' & s3 & E3 & Hi3 & Ha3 & Ht3 & Hl3 & Hc3 & _ & F).
      rewrite E3 in E.
      exists h, md, s3, i', a.
      split; [first [assumption | reflexivity] |].
      split; [first [assumption | reflexivity] |].
      split; [first [assumption | reflexivity] |].
      split; [exact E |].
      split; [rewrite Hi3, Hi2, Ew; reflexivity |].
      split; [rewrite Ht3, Ht2, Ew; reflexivity |].
      split; [rewrite Hl3, Hl2, Ew; reflexivity |].
      split; [exact Hc3 |].
      split; [unfold select_album_by_slug in *; rewrite Ha3; exact Hsel |].
      split; [rewrite Ha3, <- Ew; exact Ha2 |].
      exact F.
    + right.
      rewrite (save_image_refused owner p h md a s2 Hvi) in E.
      assert (Hextra : exists extra,
                 albums (working s2) = albums (working s) ++ extra).
      { rewrite <- Ew.
        destruct Ha2 as [Ha2 | [Ha2 _]];
          [exists []; rewrite app_nil_r | exists [a]]; exact Ha2. }
      destruct Hextra as [extra Hextra].
      exists h, md, s2, extra.
      split; [first [assumption | reflexivity] |].
      split; [first [assumption | reflexivity] |].
      split; [first [assumption | reflexivity] |].
      split; [exact E |].
      split.
      { destruct (utf8.valid p) eqn:Hv; [| reflexivity].
        rewrite (proj2 (valid_path_texts p Hv)) in Hvi. discriminate. }
      split; [rewrite Hi2, Ew; reflexivity |].
      split; [exact Hextra |].
      split; [rewrite Ht2, Ew; reflexivity |].
      split; [rewrite Hl2, Ew; reflexivity |].
      split; [intros Hc; apply Hc2; rewrite Ec, Ew; exact Hc |].
      rewrite (Hagain s2); [| rewrite Hi2, Ew; reflexivity | exact Hth2].
      rewrite (resolve_album_found env owner p s2 a Hsel).
      rewrite (save_image_refused owner p h md a s2 Hvi). reflexivity.
  - destruct (forallb utf8.valid (album_texts p)) eqn:Hva.
    + (* the album is created *)
      destruct (resolve_album_quiet p s1 (fun _ => Hva))
        as (a & s2 & E2 & Hsel & Hi2 & Ht2 & Hl2 & Hth2 & Hc2 & Ha2).
      rewrite E2 in E.
      destruct (forallb utf8.valid (image_texts p)) eqn:Hvi.
      * left.
        destruct (save_image_row owner p h md a s2 Hvi)
          as (i' & s3 & E3 & Hi3 & Ha3 & Ht3 & Hl3 & Hc3 & _ & F).
        rewrite E3 in E.
        exists h, md, s3, i', a.
        split; [first [assumption | reflexivity] |].
      split; [first [assumption | reflexivity] |].
      split; [first [assumption | reflexivity] |].
        split; [exact E |].
        split; [rewrite Hi3, Hi2, Ew; reflexivity |].
        split; [rewrite Ht3, Ht2, Ew; reflexivity |].
        split; [rewrite Hl3, Hl2, Ew; reflexivity |].
        split; [exact Hc3 |].
        split; [unfold select_album_by_slug in *; rewrite Ha3; exact Hsel |].
        split; [rewrite Ha3, <- Ew; exact Ha2 |].
        exact F.
      * right.
        rewrite (save_image_refused owner p h md a s2 Hvi) in E.
        assert (Hextra : exists extra,
                   albums (working s2) = albums (working s) ++ extra).
        { rewrite <- Ew.
          destruct Ha2 as [Ha2 | [Ha2 _]];
            [exists []; rewrite app_nil_r | exists [a]]; exact Ha2. }
        destruct Hextra as [extra Hextra].
        exists h, md, s2, extra.
        split; [first [assumption | reflexivity] |].
      split; [first [assumption | reflexivity] |].
      split; [first [assumption | reflexivity] |].
        split; [exact E |].
        split.
        { destruct (utf8.valid p) eqn:Hv; [| reflexivity].
          rewrite (proj2 (valid_path_texts p Hv)) in Hvi. discriminate. }
        split; [rewrite Hi2, Ew; reflexivity |].
        split; [exact Hextra |].
        split; [rewrite Ht2, Ew; reflexivity |].
        split; [rewrite Hl2, Ew; reflexivity |].
        split; [intros Hc; apply Hc2; rewrite Ec, Ew; exact Hc |].
        rewrite (Hagain s2); [| rewrite Hi2, Ew; reflexivity | exact Hth2].
        rewrite (resolve_album_found env owner p s2 a Hsel).
        rewrite (save_image_refused owner p h md a s2 Hvi). reflexivity.
    + (* the album's text does not bind *)
      right.
      destruct (resolve_album_quiet_refused p s1 Ea0 Hva)
        as (s2 & E2 & Hc2 & Hw2 & Hth2 & Eagain).
      rewrite E2 in E.
      exists h, md, s2, [].
      split; [first [assumption | reflexivity] |].
      split; [first [assumption | reflexivity] |].
      split; [first [assumption | reflexivity] |].
      split; [exact E |].
      split.
      { destruct (utf8.valid p) eqn:Hv; [| reflexivity].
        rewrite (proj1 (valid_path_texts p Hv)) in Hva. discriminate. }
      split; [rewrite Hw2, Ew; reflexivity |].
      split; [rewrite Hw2, Ew, app_nil_r; reflexivity |].
      split; [rewrite Hw2, Ew; reflexivity |].
      split; [rewrite Hw2, Ew; reflexivity |].
      split; [intros Hc; rewrite Hc2, Hw2, Ec, Ew; exact Hc |].
      rewrite (Hagain s2); [| rewrite Hw2, Ew; reflexivity | exact Hth2].
      rewrite Eagain. reflexivity.
Qed.

End QuietIngestion.

Lemma find_none_filter {A : Type} (p : A -> bool) (l : list A) :
  find p l = None -> filter p l = [].
Proof.
  induction l as [|x l IH]; simpl.
  - reflexivity.
  - destruct (p x); [discriminate | exact IH].
Qed.

Lemma count_hash_fresh (h : string) (db db' : DB) (i' : Image) :
  select_image_by_hash db h = None ->
  images db' = images db ++ [i'] ->
  file_hash i' = h ->
  count_hash h db' = 1%nat /\ select_image_by_hash db' h = Some i'.
Proof.
  unfold count_hash, select_image_by_hash. intros Hnone Hi Hf.
  rewrite Hi, filter_app, (find_none_filter _ _ Hnone),
    (find_app_missing _ _ _ Hnone).
  simpl. rewrite Hf, String.eqb_refl. split; reflexivity.
Qed.

(** A row of another fingerprint changes neither the count nor the
    lookup. *)
Lemma count_hash_other (h : string) (db db' : DB) (i' : Image) :
  images db' = images db ++ [i'] ->
  file_hash i' <> h ->
  count_hash h db' = count_hash h db
  /\ select_image_by_hash db' h = select_image_by_hash db h.
Proof.
  unfold count_hash, select_image_by_hash. intros Hi Hf.
  apply String.eqb_neq in Hf. rewrite Hi, filter_app. cbn [filter].
  rewrite Hf, app_nil_r. split; [reflexivity |].
  destruct (find (fun i => String.eqb (file_hash i) h) (images db))
    as [i |] eqn:F.
  - apply (find_app_found _ _ [i'] i F).
  - rewrite (find_app_missing _ _ _ F). cbn [find]. rewrite Hf. reflexivity.
Qed.

Lemma select_image_grows (h : string) (db db' : DB) (new : list Image) :
  images db' = images db ++ new ->
  select_image_by_hash db h <> None -> select_image_by_hash db' h <> None.
Proof.
  unfold select_image_by_hash. intros Hi H. rewrite Hi.
  destruct (find (fun i => String.eqb (file_hash i) h) (images db))
    as [i |] eqn:F; [| contradiction].
  rewrite (find_app_found _ _ new i F). discriminate.
Qed.

Section QuietBatch.

Variable env : Env.
Variable owner : Z.
Hypothesis Hquiet : quiet env.

Lemma in_directory_album_grows (db db' : DB) (extra : list Album) (i : Image) :
  albums db' = albums db ++ extra ->
  in_directory_album env db i -> in_directory_album env db' i.
Proof.
  intros Ha [a [Hs Hid]]. exists a. split; [| exact Hid].
  unfold select_album_by_slug in *. rewrite Ha.
  apply find_app_found. exact Hs.
Qed.

Lemma settled_grows (p : string) (db db' : DB) (extra : list Image) :
  images db' = images db ++ extra ->
  settled env p db -> settled env p db'.
Proof.
  unfold settled. intros Hi. destruct (calculate_file_hash env p) as [h|e];
    [| trivial].
  intros [H | H]; [left | right; exact H].
  exact (select_image_grows h db db' extra Hi H).
Qed.

Lemma settled_noop (p : string) (s : State) :
  settled env p (working s) ->
  process_file env owner p s = (s, Ok Skipped)
  \/ process_file env owner p s = (s, Raise OSError).
Proof.
  unfold settled. intros H.
  destruct (process_file_quiet env owner Hquiet p s)
    as [[E _] | [(h & i & _ & _ & E)
                | [(h & md & s' & i' & a & Hh & Hn & Hmd & _)
                  | (h & md & s' & extra & Hh & Hn & Hmd & _)]]].
  - right. exact E.
  - left. exact E.
  - exfalso. rewrite Hh in H. destruct H as [H | H]; [exact (H Hn) |].
    unfold extract_metadata in Hmd. rewrite H in Hmd. discriminate.
  - exfalso. rewrite Hh in H. destruct H as [H | H]; [exact (H Hn) |].
    unfold extract_metadata in Hmd. rewrite H in Hmd. discriminate.
Qed.

(** Over paths that are settled the loop changes nothing and adds
    nothing, and goes on with the session usable. *)
Lemma process_paths_settled_prefix (pre rest : list string) :
  forall (stats : Stats) (s : State),
    (forall p, In p pre -> settled env p (working s)) ->
    exists stats',
      process_paths env owner (pre ++ rest) stats s
      = process_paths env owner rest stats' s
      /\ added stats' = added stats.
Proof.
  induction pre as [| p pre IH]; intros stats s Hs.
  - exists stats. split; reflexivity.
  - assert (Hrest : forall q, In q pre -> settled env q (working s))
      by (intros q Hq; apply Hs; right; exact Hq).
    cbn [app].
    destruct (settled_noop p s (Hs p (or_introl eq_refl))) as [E | E].
    + rewrite (process_paths_ok env owner p _ stats s s Skipped E).
      destruct (IH (tally stats (Ok Skipped)) s Hrest) as (stats' & E' & Ha).
      exists stats'. split; [exact E' | exact Ha].
    + rewrite (process_paths_raise env owner p _ stats s s OSError E eq_refl).
      destruct (IH (tally stats (Raise OSError)) s Hrest) as (stats' & E' & Ha).
      exists stats'. split; [exact E' | exact Ha].
Qed.

Lemma process_paths_settled (paths : list string) :
  forall (stats : Stats) (s : State),
    (forall p, In p paths -> settled env p (working s)) ->
    fst (process_paths env owner paths stats s) = s
    /\ added (snd (process_paths env owner paths stats s)) = added stats.
Proof.
  intros stats s Hs.
  destruct (process_paths_settled_prefix paths [] stats s Hs)
    as (stats' & E & Ha).
  rewrite app_nil_r in E. rewrite E. split; [reflexivity | exact Ha].
Qed.

(** What a batch leaves behind: the rows it appended, one per added
    file, and of every fingerprint no more rows than before, or one. *)
Lemma process_paths_quiet (paths : list string) :
  forall (stats : Stats) (s : State),
  exists new extra,
    images (working (fst (process_paths env owner paths stats s)))
    = images (working s) ++ new
    /\ albums (working (fst (process_paths env owner paths stats s)))
       = albums (working s) ++ extra
    /\ tags (working (fst (process_paths env owner paths stats s)))
       = tags (working s)
    /\ links (working (fst (process_paths env owner paths stats s)))
       = links (working s)
    /\ Z.of_nat (List.length new)
       = added (snd (process_paths env owner paths stats s)) - added stats
    /\ Forall (ingested_row env owner) new
    /\ Forall (fun i => In (path i) paths) new
    /\ Forall (in_directory_album env
                 (working (fst (process_paths env owner paths stats s)))) new
    /\ (unique_hashes (working s) ->
        unique_hashes (working (fst (process_paths env owner paths stats s))))
    /\ (committed s = working s ->
        committed (fst (process_paths env owner paths stats s))
        = working (fst (process_paths env owner paths stats s)))
    /\ (forall h,
          select_image_by_hash (working s) h <> None ->
          count_hash h (working (fst (process_paths env owner paths stats s)))
          = count_hash h (working s))
    /\ (forall h,
          select_image_by_hash (working s) h = None ->
          (count_hash h (working (fst (process_paths env owner paths stats s)))
           <= 1)%nat).
Proof.
  induction paths as [|p paths IH]; intros stats s.
  - exists [], []. rewrite process_paths_nil. cbn [fst snd].
    rewrite !app_nil_r.
    split; [reflexivity |]. split; [reflexivity |]. split; [reflexivity |].
    split; [reflexivity |]. split; [cbn; lia |].
    split; [constructor |]. split; [constructor |]. split; [constructor |].
    split; [intros H; exact H |]. split; [intros H; exact H |].
    split; [intros h _; reflexivity |].
    intros h Hn. unfold count_hash.
    rewrite (find_none_filter _ _ Hn). cbn. lia.
  - destruct (process_file_quiet env owner Hquiet p s)
      as [[E Hwhy] | [(h & i & Hh & Hsel & E)
                     | [(h & md & s1 & i' & a & Hh & Hn & Hmd & E & Hi & Ht & Hl
                         & Hc & Hsel & Ha & Hfh & Hp & Hfn & Ho & Hal & Hpr
                         & Hdel & _)
                       | (h & md & s1 & extra0 & Hh & Hn & Hmd & E & Hv & Hi
                          & Ha & Ht & Hl & Hc & _)]]].
    + rewrite (process_paths_raise env owner p paths stats s s OSError E eq_refl).
      destruct (IH (tally stats (Raise OSError)) s)
        as (new & extra & Hi & Ha & Ht & Hl & Hn & Hrow & Hpath & Halb & Hu
            & Hfl & Hc1 & Hc0).
      exists new, extra.
      split; [exact Hi |]. split; [exact Ha |]. split; [exact Ht |].
      split; [exact Hl |]. split; [simpl in Hn; exact Hn |].
      split; [exact Hrow |].
      split; [eapply Forall_impl; [| exact Hpath]; intros x Hx; right; exact Hx |].
      split; [exact Halb |]. split; [exact Hu |]. split; [exact Hfl |].
      split; [exact Hc1 | exact Hc0].
    + rewrite (process_paths_ok env owner p paths stats s s Skipped E).
      destruct (IH (tally stats (Ok Skipped)) s)
        as (new & extra & Hi & Ha & Ht & Hl & Hn & Hrow & Hpath & Halb & Hu
            & Hfl & Hc1 & Hc0).
      exists new, extra.
      split; [exact Hi |]. split; [exact Ha |]. split; [exact Ht |].
      split; [exact Hl |]. split; [simpl in Hn; exact Hn |].
      split; [exact Hrow |].
      split; [eapply Forall_impl; [| exact Hpath]; intros x Hx; right; exact Hx |].
      split; [exact Halb |]. split; [exact Hu |]. split; [exact Hfl |].
      split; [exact Hc1 | exact Hc0].
    + rewrite (process_paths_ok env owner p paths stats s s1 Added E).
      destruct (IH (tally stats (Ok Added)) s1)
        as (new & extra & Hi' & Ha' & Ht' & Hl' & Hn' & Hrow & Hpath & Halb
            & Hu & Hfl & Hc1 & Hc0).
      set (s' := fst (process_paths env owner paths (tally stats (Ok Added)) s1)) in *.
      assert (Halbums : exists extra0, albums (working s1) = albums (working s) ++ extra0).
      { destruct Ha as [Ha | [Ha _]]; [exists []; rewrite app_nil_r | exists [a]];
          exact Ha. }
      destruct Halbums as [extra0 Hextra0].
      exists (i' :: new), (extra0 ++ extra).
      split; [rewrite Hi', Hi, <- app_assoc; reflexivity |].
      split; [rewrite Ha', Hextra0, <- app_assoc; reflexivity |].
      split; [rewrite Ht', Ht; reflexivity |].
      split; [rewrite Hl', Hl; reflexivity |].
      split.
      { change (added (tally stats (Ok Added))) with (added stats + 1) in Hn'.
        cbn [List.length]. rewrite Nat2Z.inj_succ. lia. }
      split.
      { constructor; [| exact Hrow]. unfold ingested_row.
        rewrite Hp, Hfh. repeat split; assumption. }
      split.
      { constructor; [left; symmetry; exact Hp |].
        eapply Forall_impl; [| exact Hpath]. intros x Hx. right. exact Hx. }
      split.
      { constructor; [| exact Halb].
        apply (in_directory_album_grows (working s1) (working s') extra i' Ha').
        exists a. rewrite Hp. split; assumption. }
      split.
      { intros Hun. apply Hu. unfold unique_hashes in *. rewrite Hi.
        apply NoDup_snoc_key; [exact Hun |]. rewrite Hfh.
        apply (existsb_key_false file_hash String.eqb String.eqb_eq).
        apply find_none_existsb. exact Hn. }
      split; [intros _; apply Hfl; exact Hc |].
      split.
      { intros h0 Hsome.
        assert (Hne : file_hash i' <> h0)
          by (intros Heq; apply Hsome; rewrite <- Heq, Hfh; exact Hn).
        destruct (count_hash_other h0 (working s) (working s1) i' Hi Hne)
          as [Hcount Hlook].
        rewrite <- Hcount. apply Hc1. rewrite Hlook. exact Hsome. }
      intros h0 Hnone.
      destruct (string_dec (file_hash i') h0) as [Heq | Hne].
      * destruct (count_hash_fresh h0 (working s) (working s1) i' Hnone Hi Heq)
          as [Hcount Hfound].
        rewrite (Hc1 h0); [rewrite Hcount; lia | rewrite Hfound; discriminate].
      * destruct (count_hash_other h0 (working s) (working s1) i' Hi Hne)
          as [_ Hlook].
        apply Hc0. rewrite Hlook. exact Hnone.
    + rewrite (process_paths_flush env owner p paths stats s s1
                 UnicodeEncodeError E eq_refl).
      cbn [fst snd].
      exists [], extra0. rewrite app_nil_r.
      split; [exact Hi |]. split; [exact Ha |]. split; [exact Ht |].
      split; [exact Hl |].
      split; [unfold failed_rounds; cbn; lia |].
      split; [constructor |]. split; [constructor |]. split; [constructor |].
      split; [unfold unique_hashes; rewrite Hi; intros H; exact H |].
      split; [exact Hc |].
      split; [intros h0 _; unfold count_hash; rewrite Hi; reflexivity |].
      intros h0 Hnone. unfold count_hash. rewrite Hi.
      rewrite (find_none_filter _ _ Hnone). cbn. lia.
Qed.

(** A second run over the same paths, on the store the first run has
    left, changes nothing and adds nothing. *)
Lemma process_paths_again (paths : list string) :
  forall (pre : list string) (stats stats2 : Stats) (s : State),
    (forall p, In p pre -> settled env p (working s)) ->
    fst (process_paths env owner (pre ++ paths) stats2
           (fst (process_paths env owner paths stats s)))
    = fst (process_paths env owner paths stats s)
    /\ added (snd (process_paths env owner (pre ++ paths) stats2
                     (fst (process_paths env owner paths stats s))))
       = added stats2.
Proof.
  induction paths as [| p paths IH]; intros pre stats stats2 s Hpre.
  - rewrite process_paths_nil, app_nil_r. cbn [fst].
    exact (process_paths_settled pre stats2 s Hpre).
  - assert (Hstep : forall st s1 new,
              images (working s1) = images (working s) ++ new ->
              settled env p (working s1) ->
              process_paths env owner (p :: paths) stats s
              = process_paths env owner paths st s1 ->
              fst (process_paths env owner (pre ++ p :: paths) stats2
                     (fst (process_paths env owner (p :: paths) stats s)))
              = fst (process_paths env owner (p :: paths) stats s)
              /\ added (snd (process_paths env owner (pre ++ p :: paths) stats2
                               (fst (process_paths env owner (p :: paths) stats s))))
                 = added stats2).
    { intros st s1 new Hi Hp E. rewrite E.
      replace (pre ++ p :: paths) with ((pre ++ [p]) ++ paths)
        by (rewrite <- app_assoc; reflexivity).
      apply IH. intros q Hq. apply in_app_or in Hq.
      destruct Hq as [Hq | [<- | []]]; [| exact Hp].
      exact (settled_grows q (working s) (working s1) new Hi (Hpre q Hq)). }
    destruct (process_file_quiet env owner Hquiet p s)
      as [[E Hwhy] | [(h & i & Hh & Hsel & E)
                     | [(h & md & s1 & i' & a & Hh & Hn & Hmd & E & Hi & _
                         & _ & _ & _ & _ & Hfh & _)
                       | (h & md & s1 & extra0 & Hh & Hn & Hmd & E & Hv & Hi
                          & _ & _ & _ & _ & Eagain)]]].
    + apply (Hstep (tally stats (Raise OSError)) s []).
      * rewrite app_nil_r. reflexivity.
      * unfold settled. destruct Hwhy as [Hr | (h & Hh & _ & Hg)].
        -- unfold calculate_file_hash. rewrite Hr. exact I.
        -- rewrite Hh. right. exact Hg.
      * exact (process_paths_raise env owner p paths stats s s OSError E eq_refl).
    + apply (Hstep (tally stats (Ok Skipped)) s []).
      * rewrite app_nil_r. reflexivity.
      * unfold settled. rewrite Hh. left. rewrite Hsel. discriminate.
      * exact (process_paths_ok env owner p paths stats s s Skipped E).
    + apply (Hstep (tally stats (Ok Added)) s1 [i']).
      * exact Hi.
      * unfold settled. rewrite Hh. left.
        destruct (count_hash_fresh h (working s) (working s1) i' Hn Hi Hfh)
          as [_ Hfound].
        rewrite Hfound. discriminate.
      * exact (process_paths_ok env owner p paths stats s s1 Added E).
    + rewrite (process_paths_flush env owner p paths stats s s1
                 UnicodeEncodeError E eq_refl).
      cbn [fst].
      assert (Hpre1 : forall q, In q pre -> settled env q (working s1)).
      { intros q Hq.
        apply (settled_grows q (working s) (working s1) []);
          [rewrite app_nil_r; exact Hi | exact (Hpre q Hq)]. }
      destruct (process_paths_settled_prefix pre (p :: paths) stats2 s1 Hpre1)
        as (stats' & E' & Ha').
      rewrite E'.
      rewrite (process_paths_flush env owner p paths stats' s1 s1
                 UnicodeEncodeError Eagain eq_refl).
      cbn [fst snd]. split; [reflexivity |].
      unfold failed_rounds. cbn [added]. exact Ha'.
Qed.

End QuietBatch.

(** ** What the loop body raises *)

Section Failures.

Variable env : Env.
Variable owner : Z.

Lemma resolve_album_raises (p : string) (s s' : State) (e : Exception) :
  resolve_album env owner p s = (s', Raise e) -> raised_by_flush e = true.
Proof.
  destruct (select_album_by_slug (working s) (album_slug_of env p))
    as [a|] eqn:Ea.
  { rewrite (resolve_album_found env owner p s a Ea). discriminate. }
  destruct (forallb utf8.valid (album_texts p)) eqn:Hv.
  - destruct (in_dec string_dec (album_slug_of env p)
                (map slug (albums (other_writer env p (working s)))))
      as [Hin | Hnin].
    + rewrite (resolve_album_race env owner p s Ea Hv Hin).
      intros H. inversion H. reflexivity.
    + destruct (resolve_album_created env owner p s Ea Hv Hnin)
        as (a & s2 & E & _). rewrite E. discriminate.
  - rewrite (resolve_album_refused env owner p s Ea Hv).
    intros H. inversion H. reflexivity.
Qed.

Lemma save_image_raises (p h : string) (md : Metadata) (a : Album)
      (s s' : State) (e : Exception) :
  save_image owner p h md a s = (s', Raise e) -> raised_by_flush e = true.
Proof.
  destruct (forallb utf8.valid (image_texts p)) eqn:Hv.
  - destruct (save_image_row owner p h md a s Hv) as (i' & s3 & E & _).
    rewrite E. discriminate.
  - rewrite (save_image_refused owner p h md a s Hv).
    intros H. inversion H. reflexivity.
Qed.

(** The body raises [OSError] before it has touched anything, or else
    it is a flush that raises. *)
Lemma process_file_raises (p : string) (s s' : State) (e : Exception) :
  process_file env owner p s = (s', Raise e) ->
  (e = OSError /\ s' = s) \/ raised_by_flush e = true.
Proof.
  intros H.
  destruct (calculate_file_hash env p) as [h|e0] eqn:Hh.
  2:{ destruct (calculate_file_hash_raises env p e0 Hh) as [Hr _].
      rewrite (process_file_unreadable env owner p s Hr) in H.
      inversion H. left. split; reflexivity. }
  destruct (select_image_by_hash (working s) h) as [i|] eqn:Hex.
  { rewrite (process_file_skips env owner p h s i Hh Hex) in H.
    discriminate. }
  destruct (extract_metadata env p) as [md|e0] eqn:Hmd.
  2:{ destruct (extract_metadata_raises env p e0 Hmd) as [Hg _].
      rewrite (process_file_no_metadata env owner p h s Hh Hex Hg) in H.
      inversion H. left. split; reflexivity. }
  right.
  destruct (process_file_fresh env owner p h md s Hh Hex Hmd)
    as [s1 [b [_ [_ [_ E]]]]].
  rewrite E in H. clear E.
  destruct (resolve_album env owner p s1) as [s2 [a|e1]] eqn:Er.
  - destruct (save_image owner p h md a s2) as [s3 [i|e2]] eqn:Es;
      [discriminate |].
    inversion H; subst. exact (save_image_raises p h md a s2 s' e Es).
  - inversion H; subst. exact (resolve_album_raises p s1 s' e Er).
Qed.

(** A run of rounds that leaves the session usable has left it usable
    at every point. *)
Lemma rounds_split (before : list string) (p : string)
      (between : list string) (stats : Stats) (s : State) :
  inactive_after env owner false (before ++ p :: between) s = false ->
  inactive_after env owner false before s = false
  /\ exists s1 r1,
       process_file env owner p (fst (process_paths env owner before stats s))
       = (s1, r1)
       /\ leaves_inactive false r1 = false
       /\ inactive_after env owner false between s1 = false
       /\ process_paths env owner (before ++ p :: between) stats s
          = process_paths env owner between
              (tally (snd (process_paths env owner before stats s)) r1) s1.
Proof.
  intros H. rewrite (inactive_after_app env owner before _ false stats s) in H.
  destruct (inactive_after env owner false before s) eqn:Hb.
  { rewrite inactive_after_inactive in H. discriminate. }
  split; [reflexivity |].
  unfold process_paths. rewrite process_rounds_app, Hb.
  cbn [inactive_after process_rounds] in *.
  destruct (process_file env owner p
              (fst (process_rounds env owner false before stats s)))
    as [s1 r1].
  exists s1, r1. split; [reflexivity |].
  destruct (leaves_inactive false r1) eqn:Hl.
  { rewrite inactive_after_inactive in H. discriminate. }
  split; [reflexivity |]. split; [exact H | reflexivity].
Qed.

End Failures.

(** C1, as stated, fails in both directions.  While this run ingests
    the first of two identical files, another ingestion of the same
    content commits its row between this file's lookups and its
    INSERT: the store takes both rows, since nothing makes the
    fingerprint unique, and holds two rows for that content.  And with
    no other writer at all, when the first of the two files has a name
    that is no UTF-8 text, its row is refused, and the second file,
    reached on the session that the failed flush left unusable, is
    counted as an error, not as skipped: no row is stored. *)
Lemma identical_content_not_stored_once :
  let env := sample_env ["/photos/race/a.jpg"; "/photos/race/b.jpg"]
                        twin_writer in
  let run := process_import env "/photos" 7 (open_db empty_db) in
  let env2 := legacy_env [latin1_path; "/photos/race/a.jpg"] in
  let run2 := process_import env2 "/photos" 7 (open_db empty_db) in
  read_bytes env "/photos/race/a.jpg" = read_bytes env "/photos/race/b.jpg"
  /\ calculate_file_hash env "/photos/race/a.jpg" = Ok "JP"
  /\ snd run = {| added := 1; skipped := 1; errors := 0 |}
  /\ count_hash "JP" (committed (fst run)) = 2%nat
  /\ read_bytes env2 latin1_path = read_bytes env2 "/photos/race/a.jpg"
  /\ calculate_file_hash env2 latin1_path = Ok "JP"
  /\ snd run2 = {| added := 0; skipped := 0; errors := 2 |}
  /\ count_hash "JP" (committed (fst run2)) = 0%nat
  /\ count_hash "JP" (working (fst run2)) = 0%nat.
Proof.
  cbv zeta. repeat split; vm_compute; reflexivity.
Qed.

(** C1, amended.  With no other writer, take two discovered files with
    the same bytes, anywhere in the batch.  They have the same
    fingerprint.  If a row with that fingerprint is stored, soft-deleted
    or not, the run adds no row for it.  When the loop reaches the
    first file on a usable session and no row has the fingerprint, the
    file is added if its size can be read and its path can be stored.
    When the loop reaches the second file on a usable session, and the
    fingerprint was stored or the first file's size could be read, the
    second file is skipped: the store is left as it is and [skipped]
    grows by one.  In every case a store with at most one row of that
    fingerprint has at most one afterwards. *)
Theorem identical_content_ingested_once :
  forall (env : Env) (root : string) (owner : Z) (s : State)
         (before : list string) (p1 : string) (between : list string)
         (p2 : string) (after : list string) (content : list Byte.byte),
    quiet env ->
    list_image_files env root = before ++ p1 :: between ++ p2 :: after ->
    read_bytes env p1 = Some content ->
    read_bytes env p2 = Some content ->
    let h := sha256_hexdigest env content in
    let run1 := process_paths env owner before zero_stats s in
    let run2 := process_paths env owner (before ++ p1 :: between) zero_stats s in
    let s' := fst (process_import env root owner s) in
    calculate_file_hash env p1 = Ok h
    /\ calculate_file_hash env p2 = Ok h
    /\ (forall i, select_image_by_hash (working s) h = Some i ->
          count_hash h (working s') = count_hash h (working s))
    /\ (inactive_after env owner false before s = false ->
        select_image_by_hash (working (fst run1)) h = None ->
        getsize env p1 <> None ->
        utf8.valid p1 = true ->
        exists s1 i',
          process_paths env owner (before ++ [p1]) zero_stats s
          = (s1, tally (snd run1) (Ok Added))
          /\ images (working s1) = images (working (fst run1)) ++ [i']
          /\ file_hash i' = h
          /\ count_hash h (working s1) = 1%nat)
    /\ (inactive_after env owner false (before ++ p1 :: between) s = false ->
        select_image_by_hash (working (fst run1)) h <> None
        \/ getsize env p1 <> None ->
        process_file env owner p2 (fst run2) = (fst run2, Ok Skipped)
        /\ process_paths env owner ((before ++ p1 :: between) ++ [p2])
                         zero_stats s
           = (fst run2, tally (snd run2) (Ok Skipped)))
    /\ ((count_hash h (working s) <= 1)%nat ->
        (count_hash h (working s') <= 1)%nat).
Proof.
  intros env root owner s before p1 between p2 after content Hq Hl H1 H2
         h run1 run2 s'.
  assert (Hh1 := calculate_file_hash_content env p1 content H1).
  assert (Hh2 := calculate_file_hash_content env p2 content H2).
  fold h in Hh1, Hh2.
  destruct (process_paths_quiet env owner Hq (list_image_files env root)
              zero_stats s)
    as (new & extra & _ & _ & _ & _ & _ & _ & _ & _ & _ & _ & Hsame & Hone).
  fold (process_import env root owner s) in Hsame, Hone.
  fold s' in Hsame, Hone.
  split; [exact Hh1 |]. split; [exact Hh2 |].
  split.
  { intros i Hi. apply Hsame. rewrite Hi. discriminate. }
  split.
  { intros Hact Hnone Hg Hv.
    destruct (getsize env p1) as [size|] eqn:Eg; [| congruence].
    destruct (extract_metadata_ok env p1 size Eg) as [md Hmd].
    destruct (process_file_adds env owner p1 h md (fst run1) Hq Hv Hh1 Hnone Hmd)
      as (s1 & i' & E & Hf & Hi & _).
    exists s1, i'.
    split.
    { rewrite (process_paths_snoc env owner before p1 zero_stats s Hact).
      fold run1. rewrite E. reflexivity. }
    split; [exact Hi |]. split; [exact Hf |].
    exact (proj1 (count_hash_fresh h _ _ i' Hnone Hi Hf)). }
  split.
  { intros Hact Hfirst.
    destruct (rounds_split env owner before p1 between zero_stats s Hact)
      as (Hb & s1 & r1 & E1 & Hl1 & _ & Erun).
    fold run1 in E1, Erun. fold run2 in Erun.
    assert (Hat1 : select_image_by_hash (working s1) h <> None).
    { destruct (process_file_quiet env owner Hq p1 (fst run1))
        as [[E Hwhy] | [(h' & i & Hh & Hsel & E)
                       | [(h' & md & s1' & i' & a & Hh & Hn & Hmd & E & Hi & _
                           & _ & _ & _ & _ & Hfh & _)
                         | (h' & md & s1' & extra0 & Hh & Hn & Hmd & E & _)]]].
      - exfalso. destruct Hwhy as [Hr | (h' & Hh & Hn & Hg)]; [congruence |].
        assert (Hhh : h' = h) by congruence.
        rewrite Hhh in *. clear Hhh.
        destruct Hfirst as [Hs | Hs]; [exact (Hs Hn) | exact (Hs Hg)].
      - assert (Hhh : h' = h) by congruence.
        rewrite Hhh in *. clear Hhh.
        rewrite E in E1. inversion E1; subst s1 r1. rewrite Hsel. discriminate.
      - assert (Hhh : h' = h) by congruence.
        rewrite Hhh in *. clear Hhh.
        rewrite E in E1. inversion E1; subst s1' r1.
        rewrite (proj2 (count_hash_fresh h _ _ i' Hn Hi Hfh)). discriminate.
      - exfalso. rewrite E in E1. inversion E1; subst r1. discriminate Hl1. }
    assert (Hat2 : select_image_by_hash (working (fst run2)) h <> None).
    { rewrite Erun.
      destruct (process_paths_quiet env owner Hq between
                  (tally (snd run1) r1) s1)
        as (new2 & extra2 & Hi2 & _).
      exact (select_image_grows h _ _ new2 Hi2 Hat1). }
    destruct (select_image_by_hash (working (fst run2)) h) as [i2|] eqn:Hsel2;
      [| contradiction].
    pose proof (process_file_skips env owner p2 h (fst run2) i2 Hh2 Hsel2) as E2.
    split; [exact E2 |].
    rewrite (process_paths_snoc env owner _ p2 zero_stats s Hact).
    fold run2. rewrite E2. reflexivity. }
  intros Hle.
  destruct (select_image_by_hash (working s) h) as [i|] eqn:Hsel.
  - rewrite Hsame; [exact Hle | rewrite Hsel; discriminate].
  - apply Hone. exact Hsel.
Qed.

Lemma identical_content_ingested_once_witness :
  let env := sample_env ["/photos/rally/c.jpg"; "/photos/race/a.jpg";
                         "/photos/lost.jpg"; "/photos/race/b.jpg"] no_writer in
  let run2 := process_paths env 7 ["/photos/rally/c.jpg"; "/photos/race/a.jpg";
                                   "/photos/lost.jpg"] zero_stats
                            (open_db empty_db) in
  snd (process_import env "/photos" 7 (open_db empty_db))
  = {| added := 2; skipped := 1; errors := 1 |}
  /\ process_file env 7 "/photos/race/b.jpg" (fst run2)
     = (fst run2, Ok Skipped)
  /\ (count_hash "JP" (working (fst (process_import env "/photos" 7
                                       (open_db empty_db)))) <= 1)%nat.
Proof.
  intros env run2.
  assert (Hq : quiet env) by (intros p db; reflexivity).
  destruct (identical_content_ingested_once
              env "/photos" 7 (open_db empty_db)
              ["/photos/rally/c.jpg"] "/photos/race/a.jpg" ["/photos/lost.jpg"]
              "/photos/race/b.jpg" [] [Byte.x4a; Byte.x50]
              Hq eq_refl eq_refl eq_refl)
    as (_ & _ & _ & _ & Hsecond & Hcount).
  split; [reflexivity |]. split.
  - apply Hsecond; [reflexivity | right; discriminate].
  - apply Hcount. vm_compute. lia.
Defined.

(** C2.  [process_import] returns its three counts for every batch, and
    they add up to the number of discovered paths.  A file whose body
    raises on a usable session is counted under [errors].  When the
    exception comes from outside a flush it is [OSError], the store is
    as it was, and the loop goes on with the files after it; an
    unreadable file is one such case.  When the exception comes from a
    flush, the session is never rolled back: the files after it are not
    processed, each of them is counted under [errors], and the store
    stays as that flush left it. *)
Theorem process_import_isolates_failures :
  forall (env : Env) (owner : Z),
    (forall root s,
       added (snd (process_import env root owner s))
       + skipped (snd (process_import env root owner s))
       + errors (snd (process_import env root owner s))
       = Z.of_nat (List.length (list_image_files env root)))
    /\ (forall before p after stats s s2 e,
          inactive_after env owner false before s = false ->
          process_file env owner p
            (fst (process_paths env owner before stats s)) = (s2, Raise e) ->
          (raised_by_flush e = false ->
           e = OSError
           /\ s2 = fst (process_paths env owner before stats s)
           /\ process_paths env owner (before ++ p :: after) stats s
              = process_paths env owner after
                  {| added := added (snd (process_paths env owner before stats s));
                     skipped := skipped (snd (process_paths env owner before stats s));
                     errors := errors (snd (process_paths env owner before stats s)) + 1 |}
                  s2)
          /\ (raised_by_flush e = true ->
              process_paths env owner (before ++ p :: after) stats s
              = (s2,
                 {| added := added (snd (process_paths env owner before stats s));
                    skipped := skipped (snd (process_paths env owner before stats s));
                    errors := errors (snd (process_paths env owner before stats s))
                              + 1 + Z.of_nat (List.length after) |})))
    /\ (forall p s,
          read_bytes env p = None ->
          process_file env owner p s = (s, Raise OSError))
    /\ (forall p h md s,
          calculate_file_hash env p = Ok h ->
          select_image_by_hash (working s) h = None ->
          extract_metadata env p = Ok md ->
          select_album_by_slug (working s) (album_slug_of env p) = None ->
          In (album_slug_of env p)
             (map slug (albums (other_writer env p (working s)))) ->
          exists s2 e,
            process_file env owner p s = (s2, Raise e)
            /\ raised_by_flush e = true).
Proof.
  intros env owner. split; [| split; [| split]].
  - intros root s. unfold process_import.
    rewrite process_paths_total. simpl. lia.
  - intros before p after stats s s2 e Hact H. split.
    + intros Hf.
      destruct (process_file_raises env owner p _ s2 e H) as [[-> ->] | Hf'];
        [| congruence].
      split; [reflexivity |]. split; [reflexivity |].
      unfold process_paths in *. rewrite process_rounds_app, Hact.
      cbn [process_rounds]. rewrite H. reflexivity.
    + intros Hf. unfold process_paths in *.
      rewrite process_rounds_app, Hact.
      cbn [process_rounds]. rewrite H. cbn [leaves_inactive orb].
      rewrite Hf, process_rounds_inactive.
      unfold failed_rounds. cbn [tally added skipped errors].
      repeat f_equal; lia.
  - intros p s H. apply process_file_unreadable. exact H.
  - intros p h md s Hh Hex Hmd Hnone Hin.
    destruct (process_file_race env owner p h md s Hh Hex Hmd Hnone Hin)
      as (s2 & E & _).
    exists s2. eexists. split; [exact E |].
    destruct (forallb utf8.valid (album_texts p)); reflexivity.
Qed.

(** Three files, and another ingestion that commits the album of the
    first while this one is at it: the flush of the album fails, and
    the two files after it, which are ingested when they come alone,
    are counted as errors too.  A file that cannot be read does not do
    this, and a file whose name is no UTF-8 text does. *)
Lemma process_import_isolates_failures_witness :
  let batch := ["/photos/race/a.jpg"; "/photos/race/b.jpg";
                "/photos/rally/c.jpg"] in
  snd (process_import (sample_env batch racing_once)
                      "/photos" 7 (open_db empty_db))
  = {| added := 0; skipped := 0; errors := 3 |}
  /\ snd (process_import (sample_env (tl batch) racing_once)
                         "/photos" 7 (open_db empty_db))
     = {| added := 2; skipped := 0; errors := 0 |}
  /\ snd (process_import
            (sample_env ["/photos/lost.jpg"; "/photos/race/b.jpg";
                         "/photos/rally/c.jpg"] racing_once)
            "/photos" 7 (open_db empty_db))
     = {| added := 2; skipped := 0; errors := 1 |}
  /\ snd (process_import
            (legacy_env [latin1_path; "/photos/race/a.jpg";
                         "/photos/rally/c.jpg"])
            "/photos" 7 (open_db empty_db))
     = {| added := 0; skipped := 0; errors := 3 |}
  /\ snd (process_import
            (legacy_env ["/photos/race/a.jpg"; "/photos/rally/c.jpg"])
            "/photos" 7 (open_db empty_db))
     = {| added := 2; skipped := 0; errors := 0 |}.
Proof.
  intros batch.
  pose (env := sample_env batch racing_once).
  pose (s := open_db empty_db).
  destruct (proj2 (proj2 (proj2 (process_import_isolates_failures env 7)))
              "/photos/race/a.jpg" "JP"
              {| md_width := 640; md_height := 480;
                 md_captured_at := None; md_camera_model := "Unknown";
                 md_file_size := 2 |} s
              eq_refl eq_refl eq_refl eq_refl (or_introl eq_refl))
    as (s2 & e & E & Hf).
  split.
  - refine (eq_trans
              (f_equal snd
                 (proj2 (proj1 (proj2 (process_import_isolates_failures env 7))
                           [] "/photos/race/a.jpg"
                           ["/photos/race/b.jpg"; "/photos/rally/c.jpg"]
                           zero_stats s s2 e eq_refl E) Hf)) _).
    reflexivity.
  - repeat split; vm_compute; reflexivity.
Defined.

(** ** Album resolution under a concurrent writer *)

Section AlbumResolver.

Variable env : Env.
Variable owner : Z.

Lemma resolve_album_albums (p : string) (s s' : State) (r : result Album) :
  resolve_album env owner p s = (s', r) ->
  albums (working s') = albums (working s)
  \/ albums (working s') = albums (other_writer env p (working s))
  \/ exists a,
       albums (working s') = albums (other_writer env p (working s)) ++ [a]
       /\ ~ In (slug a) (map slug (albums (other_writer env p (working s)))).
Proof.
  intros H.
  destruct (select_album_by_slug (working s) (album_slug_of env p))
    as [a|] eqn:Ea.
  { rewrite (resolve_album_found env owner p s a Ea) in H.
    inversion H; subst. left. reflexivity. }
  destruct (forallb utf8.valid (album_texts p)) eqn:Hv.
  - destruct (in_dec string_dec (album_slug_of env p)
                (map slug (albums (other_writer env p (working s)))))
      as [Hin | Hnin].
    + rewrite (resolve_album_race env owner p s Ea Hv Hin) in H.
      inversion H; subst. right. left. reflexivity.
    + destruct (resolve_album_created env owner p s Ea Hv Hnin)
        as [a [s2 [E [Hs [_ [Ha _]]]]]].
      rewrite E in H. inversion H; subst. right. right.
      exists a. split; [exact Ha |]. rewrite Hs. exact Hnin.
  - rewrite (resolve_album_refused env owner p s Ea Hv) in H.
    inversion H; subst. right. left. reflexivity.
Qed.

Lemma process_file_albums (p : string) (s s' : State) (r : result Outcome) :
  process_file env owner p s = (s', r) ->
  albums (working s') = albums (working s)
  \/ albums (working s') = albums (other_writer env p (working s))
  \/ exists a,
       albums (working s') = albums (other_writer env p (working s)) ++ [a]
       /\ ~ In (slug a) (map slug (albums (other_writer env p (working s)))).
Proof.
  intros H.
  destruct (calculate_file_hash env p) as [h|e] eqn:Hh.
  2:{ destruct (calculate_file_hash_raises env p e Hh) as [Hr _].
      rewrite (process_file_unreadable env owner p s Hr) in H.
      inversion H; subst. left. reflexivity. }
  destruct (select_image_by_hash (working s) h) as [i|] eqn:Hex.
  { rewrite (process_file_skips env owner p h s i Hh Hex) in H.
    inversion H; subst. left. reflexivity. }
  destruct (extract_metadata env p) as [md|e] eqn:Hmd.
  2:{ destruct (extract_metadata_raises env p e Hmd) as [Hg _].
      rewrite (process_file_no_metadata env owner p h s Hh Hex Hg) in H.
      inversion H; subst. left. reflexivity. }
  destruct (process_file_fresh env owner p h md s Hh Hex Hmd)
    as [s1 [b [_ [_ [Ew E]]]]].
  rewrite E in H. clear E.
  destruct (resolve_album env owner p s1) as [s2 [a|e]] eqn:Er.
  - pose proof (resolve_album_albums p s1 s2 (Ok a) Er) as Hr.
    rewrite Ew in Hr.
    destruct (save_image owner p h md a s2) as [s3 r3] eqn:Es.
    pose proof (save_image_albums owner p h md a s2 s3 r3 Es) as Ha.
    destruct r3; inversion H; subst; rewrite Ha; exact Hr.
  - pose proof (resolve_album_albums p s1 s2 (Raise e) Er) as Hr.
    rewrite Ew in Hr. inversion H; subst. exact Hr.
Qed.

Lemma process_file_unique_slugs (p : string) (s s' : State) (r : result Outcome) :
  process_file env owner p s = (s', r) ->
  unique_slugs (working s) ->
  unique_slugs (other_writer env p (working s)) ->
  unique_slugs (working s').
Proof.
  intros H Hs Hw. unfold unique_slugs in *.
  destruct (process_file_albums p s s' r H) as [E | [E | [a [E Hn]]]];
    rewrite E; try assumption.
  apply NoDup_snoc_key; assumption.
Qed.

End AlbumResolver.

(** C9, as stated, fails: when another ingestion commits the album
    "race" between this file's lookup and its INSERT, the file is not
    ingested; it is counted as an error and no Image row is written. *)
Lemma album_race_fails_the_file :
  let env := sample_env ["/photos/race/a.jpg"] racing_writer in
  let run := process_import env "/photos" 7 (open_db empty_db) in
  select_album_by_slug empty_db (album_slug_of env "/photos/race/a.jpg") = None
  /\ snd run = {| added := 0; skipped := 0; errors := 1 |}
  /\ images (committed (fst run)) = []
  /\ images (working (fst run)) = []
  /\ map slug (albums (committed (fst run))) = ["race"].
Proof.
  cbv zeta. repeat split; vm_compute; reflexivity.
Qed.

(** C9, amended.  When an Album with the slug comes to exist between
    the lookup and the INSERT, the store rejects the second Album, so
    no two Albums share a slug; resolution does not look again: the
    exception of the flush leaves the body of the loop, the file is
    counted under [errors], and this session writes no Image row for it
    (the store is what the other writer left).  The exception is
    IntegrityError, unless the directory's name or path is no UTF-8
    text, which the driver refuses before the INSERT is run.  Whatever
    happens to a file, slugs that were unique before it, and after the
    other writer, are unique after it. *)
Theorem album_race_is_counted_as_error :
  forall (env : Env) (owner : Z) (p : string) (s : State)
         (h : string) (md : Metadata),
    calculate_file_hash env p = Ok h ->
    select_image_by_hash (working s) h = None ->
    extract_metadata env p = Ok md ->
    select_album_by_slug (working s) (album_slug_of env p) = None ->
    In (album_slug_of env p)
       (map slug (albums (other_writer env p (working s)))) ->
    (exists s',
       process_file env owner p s
       = (s', Raise (if forallb utf8.valid (album_texts p)
                     then IntegrityError else UnicodeEncodeError))
       /\ working s' = other_writer env p (working s)
       /\ committed s' = other_writer env p (committed s)
       /\ forall stats,
            process_paths env owner [p] stats s
            = (s', {| added := added stats; skipped := skipped stats;
                      errors := errors stats + 1 |}))
    /\ (forall p0 s0 s1 r,
          process_file env owner p0 s0 = (s1, r) ->
          unique_slugs (working s0) ->
          unique_slugs (other_writer env p0 (working s0)) ->
          unique_slugs (working s1)).
Proof.
  intros env owner p s h md Hh Hex Hmd Hnone Hin. split.
  - destruct (process_file_race env owner p h md s Hh Hex Hmd Hnone Hin)
      as [s' [E [Hw Hc]]].
    exists s'. split; [exact E |]. split; [exact Hw |]. split; [exact Hc |].
    intros stats. unfold process_paths. cbn [process_rounds].
    rewrite E. reflexivity.
  - intros p0 s0 s1 r. apply process_file_unique_slugs.
Qed.

Lemma album_race_is_counted_as_error_witness :
  exists s',
    process_file (sample_env ["/photos/race/a.jpg"] racing_writer) 7
                 "/photos/race/a.jpg" (open_db empty_db)
    = (s', Raise IntegrityError)
    /\ images (working s') = [].
Proof.
  destruct (proj1 (album_race_is_counted_as_error
                     (sample_env ["/photos/race/a.jpg"] racing_writer) 7
                     "/photos/race/a.jpg" (open_db empty_db) "JP"
                     {| md_width := 640; md_height := 480;
                        md_captured_at := None; md_camera_model := "Unknown";
                        md_file_size := 2 |}
                     eq_refl eq_refl eq_refl eq_refl
                     (or_introl eq_refl)))
    as [s' [E [Hw _]]].
  exists s'. split; [exact E |]. rewrite Hw. reflexivity.
Defined.
(** ** Growth of the link and image tables under the worker *)

Section Growth.

Lemma link_extends_refl (ls : list ImageTagLink) : link_extends ls ls.
Proof.
  exists []. rewrite app_nil_r. split; [reflexivity |].
  split; [constructor | intros l []].
Qed.

Lemma link_extends_trans (a b c : list ImageTagLink) :
  link_extends a b -> link_extends b c -> link_extends a c.
Proof.
  intros [e1 [-> [N1 D1]]] [e2 [-> [N2 D2]]].
  exists (e1 ++ e2). rewrite app_assoc. split; [reflexivity |]. split.
  - rewrite map_app. apply NoDup_app; [exact N1 | exact N2 |].
    intros k Hk1 Hk2. apply in_map_iff in Hk2. destruct Hk2 as [l [<- Hl]].
    apply (D2 l Hl). rewrite map_app. apply in_or_app. right. exact Hk1.
  - intros l Hl. apply in_app_or in Hl. destruct Hl as [Hl | Hl].
    + apply D1. exact Hl.
    + intros Hk. apply (D2 l Hl). rewrite map_app. apply in_or_app.
      left. exact Hk.
Qed.

Lemma link_extends_snoc (ls : list ImageTagLink) (l : ImageTagLink) :
  select_link {| images := []; albums := []; tags := []; links := ls |}
              (link_image_id l) (link_tag_id l) = None ->
  link_extends ls (ls ++ [l]).
Proof.
  unfold select_link. simpl. intros H. exists [l].
  split; [reflexivity |]. split.
  - simpl. constructor; [intros [] | constructor].
  - intros l' [<- | []]. apply link_absent_iff.
    apply find_none_existsb. exact H.
Qed.

Lemma link_extends_unique (old new : list ImageTagLink) :
  link_extends old new ->
  NoDup (map link_key old) -> NoDup (map link_key new).
Proof.
  intros [e [-> [N D]]] Hold. rewrite map_app.
  apply NoDup_app; [exact Hold | exact N |].
  intros k Hk He. apply in_map_iff in He. destruct He as [l [<- Hl]].
  exact (D l Hl Hk).
Qed.


Lemma link_extends_filter (old new : list ImageTagLink) (p : ImageTagLink -> bool) :
  link_extends old new ->
  (forall l, In l new -> ~ In l old -> p l = false) ->
  filter p new = filter p old.
Proof.
  intros [e [-> [_ D]]] H. rewrite filter_app.
  assert (E : filter p e = []).
  { assert (He : forall l, In l e -> p l = false).
    { intros l Hl. apply H; [apply in_or_app; right; exact Hl |].
      intros Hold. apply (D l Hl). apply in_map. exact Hold. }
    clear H D. induction e as [|x e IH]; simpl; [reflexivity |].
    rewrite (He x (or_introl eq_refl)). apply IH.
    intros l Hl. apply He. right. exact Hl. }
  rewrite E, app_nil_r. reflexivity.
Qed.

Lemma find_unique_link (ls : list ImageTagLink) (l : ImageTagLink) :
  NoDup (map link_key ls) -> In l ls ->
  find (link_key_eqb (link_image_id l) (link_tag_id l)) ls = Some l.
Proof.
  induction ls as [|x ls IH]; simpl; intros Hnd Hin; [destruct Hin |].
  inversion Hnd as [|? ? Hx Hl]; subst.
  destruct Hin as [-> | Hin].
  - assert (E : link_key_eqb (link_image_id l) (link_tag_id l) l = true)
      by (apply link_key_eqb_true; split; reflexivity).
    rewrite E. reflexivity.
  - destruct (link_key_eqb (link_image_id l) (link_tag_id l) x) eqn:E.
    + exfalso. apply Hx. apply link_key_eqb_true in E. destruct E as [E1 E2].
      apply in_map_iff. exists l. split; [| exact Hin].
      unfold link_key. rewrite E1, E2. reflexivity.
    + apply IH; assumption.
Qed.

Lemma count_unique_link (ls : list ImageTagLink) (l : ImageTagLink) :
  NoDup (map link_key ls) -> In l ls ->
  List.length (filter (link_key_eqb (link_image_id l) (link_tag_id l)) ls)
  = 1%nat.
Proof.
  induction ls as [|x ls IH]; simpl; intros Hnd Hin; [destruct Hin |].
  inversion Hnd as [|? ? Hx Hl]; subst.
  destruct (link_key_eqb (link_image_id l) (link_tag_id l) x) eqn:E.
  - simpl. f_equal.
    assert (F : existsb (link_key_eqb (link_image_id l) (link_tag_id l)) ls
                = false).
    { apply link_absent_iff. apply link_key_eqb_true in E.
      destruct E as [E1 E2]. unfold link_key in Hx.
      rewrite E1, E2 in Hx. exact Hx. }
    clear -F. induction ls as [|y ls IHl]; simpl in *; [reflexivity |].
    apply orb_false_iff in F. destruct F as [F1 F2].
    rewrite F1. apply IHl. exact F2.
  - destruct Hin as [-> | Hin].
    + exfalso.
      assert (T : link_key_eqb (link_image_id l) (link_tag_id l) l = true)
        by (apply link_key_eqb_true; split; reflexivity).
      congruence.
    + apply IH; assumption.
Qed.

Lemma flags_grow_refl (l : list Image) : flags_grow l l.
Proof.
  exists (fun i => i). split; [symmetry; apply map_id | intros i; left; reflexivity].
Qed.

Lemma flags_grow_trans (a b c : list Image) :
  flags_grow a b -> flags_grow b c -> flags_grow a c.
Proof.
  intros [g1 [-> H1]] [g2 [-> H2]].
  exists (fun i => g2 (g1 i)). split; [apply map_map |].
  intros i. destruct (H1 i) as [E1 | E1], (H2 (g1 i)) as [E2 | E2];
    rewrite E2, E1; auto.
Qed.

Lemma flags_grow_mark (l : list Image) (id0 : Z) :
  flags_grow l (map (fun i => if image_id i =? id0 then set_processed i else i) l).
Proof.
  exists (fun i => if image_id i =? id0 then set_processed i else i).
  split; [reflexivity |].
  intros i. cbv beta. destruct (image_id i =? id0); [right | left]; reflexivity.
Qed.

Lemma flags_grow_in (old new : list Image) (i' : Image) :
  flags_grow old new -> In i' new ->
  exists i, In i old /\ image_id i' = image_id i
            /\ (is_processed i = true -> is_processed i' = true).
Proof.
  intros [g [-> Hg]] Hin. apply in_map_iff in Hin.
  destruct Hin as [i [<- Hi]]. exists i. split; [exact Hi |].
  destruct (Hg i) as [E | E]; rewrite E; simpl; auto.
Qed.

Lemma flags_grow_keeps_marks (old new : list Image) (id0 : Z) :
  flags_grow old new ->
  (forall i, In i old -> image_id i = id0 -> is_processed i = true) ->
  forall i', In i' new -> image_id i' = id0 -> is_processed i' = true.
Proof.
  intros Hg Hold i' Hin Hid.
  destruct (flags_grow_in old new i' Hg Hin) as [i [Hi [E Hp]]].
  apply Hp. apply Hold; [exact Hi | congruence].
Qed.

End Growth.

(** ** The tagging worker *)

Section Worker.

Lemma bind_ok {A B : Type} (m : Txn A) (f : A -> Txn B) (s s1 : State) (a : A) :
  m s = (s1, Ok a) -> bind m f s = f a s1.
Proof. intros H. unfold bind. rewrite H. reflexivity. Qed.

(** Find-or-create of the tag: never raises, touches neither images
    nor links, and hands over a tag of the candidate's name. *)
Lemma find_or_create_tag_spec (item : TagItem) (s : State) :
  exists s1 tag,
    find_or_create_tag item s = (s1, Ok tag)
    /\ tag_name tag = ti_name item
    /\ images (working s1) = images (working s)
    /\ links (working s1) = links (working s).
Proof.
  unfold find_or_create_tag. unfold bind at 1. unfold exec at 1.
  destruct (select_tag_by_name (working s) (ti_name item)) as [t|] eqn:Et.
  - exists s, t. split; [reflexivity |].
    unfold select_tag_by_name in Et. apply find_some in Et.
    destruct Et as [_ Et]. apply String.eqb_eq in Et. repeat split. exact Et.
  - unfold bind, add, insert_tag.
    unfold select_tag_by_name in Et. apply find_none_existsb in Et.
    rewrite Et. simpl. eexists. eexists. split; [reflexivity |].
    repeat split.
Qed.

Lemma persist_tag_item_spec (img_id : Z) (item : TagItem) (s : State) :
  exists s' tag,
    persist_tag_item img_id item s = (s', Ok tt)
    /\ tag_name tag = ti_name item
    /\ images (working s') = images (working s)
    /\ ((exists l, select_link (working s) img_id (tag_id tag) = Some l
                   /\ links (working s') = links (working s))
        \/ (select_link (working s) img_id (tag_id tag) = None
            /\ links (working s')
               = links (working s) ++ [new_link img_id tag item])).
Proof.
  destruct (find_or_create_tag_spec item s) as [s1 [tag [E [Hn [Hi Hl]]]]].
  unfold persist_tag_item. rewrite (bind_ok _ _ s s1 tag E).
  unfold bind at 1. unfold exec at 1.
  assert (Hsel : select_link (working s1) img_id (tag_id tag)
                 = select_link (working s) img_id (tag_id tag)).
  { unfold select_link. rewrite Hl. reflexivity. }
  rewrite Hsel.
  destruct (select_link (working s) img_id (tag_id tag)) as [l|] eqn:El.
  - exists s1, tag. split; [reflexivity |]. split; [exact Hn |].
    split; [exact Hi |]. left. exists l. split; [exact El | exact Hl].
  - unfold add.
    rewrite insert_link_accepts.
    + eexists. exists tag. split; [reflexivity |]. split; [exact Hn |].
      cbn [working images links]. split; [exact Hi |]. right.
      split; [exact El |]. rewrite Hl. reflexivity.
    + apply link_absent_iff. apply find_none_existsb. exact Hsel.
Qed.

(** What a run of candidates adds for one image. *)
Lemma persist_tags_spec (img_id : Z) (tags_data : list TagItem) :
  forall s : State,
  exists s',
    persist_tags img_id tags_data s = (s', Ok tt)
    /\ images (working s') = images (working s)
    /\ link_extends (links (working s)) (links (working s'))
    /\ forall l, In l (links (working s')) ->
         In l (links (working s))
         \/ exists tag item, In item tags_data /\ l = new_link img_id tag item.
Proof.
  induction tags_data as [|item rest IH]; intros s.
  - exists s. split; [reflexivity |]. split; [reflexivity |].
    split; [apply link_extends_refl | intros l Hl; left; exact Hl].
  - destruct (persist_tag_item_spec img_id item s)
      as [s1 [tag [E [_ [Hi Hlinks]]]]].
    destruct (IH s1) as [s' [E' [Hi' [Hext Horigin]]]].
    exists s'. cbn [persist_tags]. rewrite (bind_ok _ _ s s1 tt E).
    split; [exact E' |]. split; [congruence |].
    destruct Hlinks as [[l0 [_ Hl]] | [Hnone Hl]].
    + rewrite Hl in *. split; [exact Hext |].
      intros l Hin. destruct (Horigin l Hin) as [H | [tg [it [Hit ->]]]].
      * left. exact H.
      * right. exists tg, it. split; [right; exact Hit | reflexivity].
    + split.
      * apply (link_extends_trans _ (links (working s1))); [| exact Hext].
        rewrite Hl. apply link_extends_snoc. exact Hnone.
      * intros l Hin. destruct (Horigin l Hin) as [H | [tg [it [Hit ->]]]].
        -- rewrite Hl in H. apply in_app_or in H. destruct H as [H | [<- | []]].
           ++ left. exact H.
           ++ right. exists tag, item. split; [left; reflexivity | reflexivity].
        -- right. exists tg, it. split; [right; exact Hit | reflexivity].
Qed.

Lemma mark_processed_spec (id0 : Z) (s : State) :
  exists s',
    modify (fun db => update_image_processed db id0) s = (s', Ok tt)
    /\ links (working s') = links (working s)
    /\ flags_grow (images (working s)) (images (working s'))
    /\ forall i, In i (images (working s')) -> image_id i = id0 ->
         is_processed i = true.
Proof.
  eexists. split; [reflexivity |]. cbn [working links images update_image_processed].
  split; [reflexivity |]. split; [apply flags_grow_mark |].
  intros i Hin Hid. apply in_map_iff in Hin. destruct Hin as [i0 [<- _]].
  destruct (image_id i0 =? id0) eqn:E; [reflexivity |].
  apply Z.eqb_neq in E. contradiction.
Qed.

Lemma persist_image_spec (batch_images : list Image)
      (batch_results : list (list TagItem)) (idx : nat) (img_id : Z) (s : State) :
  (idx < List.length batch_results)%nat ->
  exists s',
    persist_image batch_images batch_results idx img_id s = (s', Ok tt)
    /\ link_extends (links (working s)) (links (working s'))
    /\ flags_grow (images (working s)) (images (working s'))
    /\ (forall l, In l (links (working s')) ->
          In l (links (working s))
          \/ exists tags_data tag item,
               nth_error batch_results idx = Some tags_data
               /\ In item tags_data /\ l = new_link img_id tag item)
    /\ (find (fun i => image_id i =? img_id) batch_images <> None ->
        forall i, In i (images (working s')) -> image_id i = img_id ->
          is_processed i = true).
Proof.
  intros Hidx. unfold persist_image.
  destruct (find (fun i => image_id i =? img_id) batch_images) as [img|] eqn:Ef.
  2:{ exists s. split; [reflexivity |]. split; [apply link_extends_refl |].
      split; [apply flags_grow_refl |]. split; [intros l Hl; left; exact Hl |].
      intros H. contradiction. }
  apply find_some in Ef. destruct Ef as [_ Eid]. apply Z.eqb_eq in Eid.
  rewrite Eid.
  destruct (nth_error batch_results idx) as [tags_data|] eqn:En.
  2:{ apply nth_error_None in En. lia. }
  destruct tags_data as [|item rest].
  - destruct (mark_processed_spec img_id s) as [s' [E [Hl [Hg Hm]]]].
    exists s'. split; [exact E |]. rewrite Hl.
    split; [apply link_extends_refl |]. split; [exact Hg |].
    split; [intros l Hin; left; exact Hin | intros _; exact Hm].
  - destruct (persist_tags_spec img_id (item :: rest) s)
      as [s1 [E1 [Hi1 [Hext Horigin]]]].
    destruct (mark_processed_spec img_id s1) as [s' [E [Hl [Hg Hm]]]].
    exists s'. rewrite (bind_ok _ _ s s1 tt E1).
    split; [exact E |]. rewrite Hl, <- Hi1.
    split; [exact Hext |]. split; [exact Hg |]. split; [| intros _; exact Hm].
    intros l Hin. destruct (Horigin l Hin) as [H | [tag [it [Hit ->]]]].
    + left. exact H.
    + right. exists (item :: rest), tag, it. repeat split. exact Hit.
Qed.

Lemma persist_images_spec (batch_images : list Image)
      (batch_results : list (list TagItem)) (batch_tuples : list (Z * string)) :
  forall (idx : nat) (s : State),
    (idx + List.length batch_tuples <= List.length batch_results)%nat ->
    exists s',
      persist_images batch_images batch_results idx batch_tuples s = (s', Ok tt)
      /\ link_extends (links (working s)) (links (working s'))
      /\ flags_grow (images (working s)) (images (working s'))
      /\ (forall l, In l (links (working s')) ->
            In l (links (working s))
            \/ exists k img_id p tags_data tag item,
                 nth_error batch_tuples k = Some (img_id, p)
                 /\ nth_error batch_results (idx + k) = Some tags_data
                 /\ In item tags_data /\ l = new_link img_id tag item)
      /\ (forall img_id p, In (img_id, p) batch_tuples ->
            find (fun i => image_id i =? img_id) batch_images <> None ->
            forall i, In i (images (working s')) -> image_id i = img_id ->
              is_processed i = true).
Proof.
  induction batch_tuples as [|[img_id p] rest IH]; intros idx s Hlen.
  - exists s. split; [reflexivity |]. split; [apply link_extends_refl |].
    split; [apply flags_grow_refl |].
    split; [intros l Hl; left; exact Hl | intros ? ? []].
  - cbn [List.length] in Hlen.
    destruct (persist_image_spec batch_images batch_results idx img_id s)
      as [s1 [E1 [Hext1 [Hg1 [Ho1 Hm1]]]]]; [lia |].
    destruct (IH (S idx) s1) as [s' [E' [Hext' [Hg' [Ho' Hm']]]]]; [lia |].
    exists s'. cbn [persist_images]. rewrite (bind_ok _ _ s s1 tt E1).
    split; [exact E' |].
    split; [exact (link_extends_trans _ _ _ Hext1 Hext') |].
    split; [exact (flags_grow_trans _ _ _ Hg1 Hg') |]. split.
    + intros l Hin.
      destruct (Ho' l Hin) as [H | (k & id' & p' & td & tag & it & Hk & Hr & Hit & ->)].
      * destruct (Ho1 l H) as [H1 | (td & tag & it & Hr & Hit & ->)].
        -- left. exact H1.
        -- right. exists 0%nat, img_id, p, td, tag, it.
           rewrite Nat.add_0_r. repeat split; assumption.
      * right. exists (S k), id', p', td, tag, it.
        rewrite Nat.add_succ_r. repeat split; assumption.
    + intros id' p' [Heq | Hin] Hfound.
      * inversion Heq; subst id' p'.
        apply (flags_grow_keeps_marks (images (working s1)) (images (working s'))
                 img_id Hg').
        apply Hm1. exact Hfound.
      * exact (Hm' id' p' Hin Hfound).
Qed.

End Worker.

Section WorkerBatch.

Lemma flags_grow_image (old new : list Image) (i : Image) :
  flags_grow old new -> In i old ->
  exists i', In i' new /\ image_id i' = image_id i.
Proof.
  intros [g [-> Hg]] Hin. exists (g i). split; [apply in_map; exact Hin |].
  destruct (Hg i) as [E | E]; rewrite E; reflexivity.
Qed.

Lemma analyze_batch_semantics_length (eng : Engine) (image_paths : list string) :
  List.length (analyze_batch_semantics eng image_paths)
  = List.length image_paths.
Proof.
  unfold analyze_batch_semantics.
  destruct (clip_raises eng image_paths); apply length_map.
Qed.

Lemma analyze_batch_length (eng : Engine) (image_paths : list string)
      (batch_results : list (list TagItem)) :
  analyze_batch eng image_paths = Ok batch_results ->
  List.length batch_results = List.length image_paths.
Proof.
  unfold analyze_batch. intros H.
  assert (L : forall ocr_results : list (list TagItem),
             List.length ocr_results = List.length image_paths ->
             List.length (map (fun '(c, o) => c ++ o)
                            (combine (analyze_batch_semantics eng image_paths)
                                     ocr_results))
             = List.length image_paths).
  { intros o Ho. rewrite length_map, length_combine,
      analyze_batch_semantics_length, Ho. apply Nat.min_id. }
  destruct (ocr_enabled eng).
  - destruct (ocr_reader_loads eng); [| discriminate].
    inversion H; subst. apply L. apply length_map.
  - inversion H; subst. apply L. apply length_map.
Qed.

Lemma save_results_spec (batch_tuples : list (Z * string))
      (batch_results : list (list TagItem)) (s : State) :
  (List.length batch_tuples <= List.length batch_results)%nat ->
  exists s',
    save_results batch_tuples batch_results s = (s', Ok tt)
    /\ committed s' = working s'
    /\ link_extends (links (working s)) (links (working s'))
    /\ flags_grow (images (working s)) (images (working s'))
    /\ (forall l, In l (links (working s')) ->
          In l (links (working s))
          \/ exists k img_id p tags_data tag item,
               nth_error batch_tuples k = Some (img_id, p)
               /\ nth_error batch_results k = Some tags_data
               /\ In item tags_data /\ l = new_link img_id tag item)
    /\ (forall img_id p, In (img_id, p) batch_tuples ->
          forall i, In i (images (working s')) -> image_id i = img_id ->
            is_processed i = true).
Proof.
  intros Hlen. unfold save_results. unfold bind at 1. unfold exec at 1.
  set (batch_images :=
         filter (fun i => existsb (Z.eqb (image_id i)) (map fst batch_tuples))
                (images (working s))).
  destruct (persist_images_spec batch_images batch_results batch_tuples 0%nat s)
    as [s1 [E [Hext [Hg [Ho Hm]]]]]; [simpl; lia |].
  rewrite (bind_ok _ _ s s1 tt E). unfold commit.
  eexists. split; [reflexivity |]. cbn [committed working links images].
  split; [reflexivity |]. split; [exact Hext |]. split; [exact Hg |].
  split; [exact Ho |].
  intros img_id p Hin i Hi Hid.
  destruct (find (fun i0 => image_id i0 =? img_id) batch_images) eqn:Ef.
  - apply (Hm img_id p Hin); [rewrite Ef; discriminate | exact Hi | exact Hid].
  - exfalso. unfold batch_images in Ef.
    rewrite find_filter_keeps in Ef.
    + destruct (flags_grow_in _ _ i Hg Hi) as [i0 [Hi0 [Eid _]]].
      pose proof (find_none _ _ Ef i0 Hi0) as F. cbv beta in F.
      apply Z.eqb_neq in F. congruence.
    + intros x Hx. apply Z.eqb_eq in Hx. apply existsb_exists.
      exists img_id. split; [| apply Z.eqb_eq; exact Hx].
      apply in_map_iff. exists (img_id, p). split; [reflexivity | exact Hin].
Qed.

Lemma process_batch_spec (eng : Engine) (batch_tuples : list (Z * string))
      (batch_results : list (list TagItem)) (s : State) :
  analyze_batch eng (map snd batch_tuples) = Ok batch_results ->
  link_extends (links (committed s))
               (links (committed (process_batch eng batch_tuples s)))
  /\ flags_grow (images (committed s))
                (images (committed (process_batch eng batch_tuples s)))
  /\ (forall l, In l (links (committed (process_batch eng batch_tuples s))) ->
        In l (links (committed s))
        \/ exists k img_id p tags_data tag item,
             nth_error batch_tuples k = Some (img_id, p)
             /\ nth_error batch_results k = Some tags_data
             /\ In item tags_data /\ l = new_link img_id tag item)
  /\ (forall img_id p, In (img_id, p) batch_tuples ->
        forall i, In i (images (committed (process_batch eng batch_tuples s))) ->
          image_id i = img_id -> is_processed i = true).
Proof.
  intros Ha. unfold process_batch. rewrite Ha. unfold with_session.
  pose proof (analyze_batch_length _ _ _ Ha) as Hlen.
  rewrite length_map in Hlen.
  destruct (save_results_spec batch_tuples batch_results (close s))
    as [s' [E [Hc [Hext [Hg [Ho Hm]]]]]]; [lia |].
  rewrite E. cbn [fst close committed working] in *. rewrite Hc.
  repeat split; assumption.
Qed.

Lemma process_batch_grows (eng : Engine) (batch_tuples : list (Z * string))
      (s : State) :
  link_extends (links (committed s))
               (links (committed (process_batch eng batch_tuples s)))
  /\ flags_grow (images (committed s))
                (images (committed (process_batch eng batch_tuples s))).
Proof.
  destruct (analyze_batch eng (map snd batch_tuples)) as [results|e] eqn:Ha.
  - destruct (process_batch_spec eng batch_tuples results s Ha) as [H1 [H2 _]].
    split; assumption.
  - unfold process_batch. rewrite Ha.
    split; [apply link_extends_refl | apply flags_grow_refl].
Qed.

Lemma run_batches_grow (eng : Engine) (worklist : list (Z * string))
      (starts : list nat) :
  forall s : State,
    link_extends
      (links (committed s))
      (links (committed
         (fold_left (fun s' i =>
                       process_batch eng (firstn BATCH_SIZE (skipn i worklist)) s')
                    starts s)))
    /\ flags_grow
         (images (committed s))
         (images (committed
            (fold_left (fun s' i =>
                          process_batch eng (firstn BATCH_SIZE (skipn i worklist)) s')
                       starts s))).
Proof.
  induction starts as [|i starts IH]; intros s; cbn [fold_left].
  - split; [apply link_extends_refl | apply flags_grow_refl].
  - destruct (process_batch_grows eng (firstn BATCH_SIZE (skipn i worklist)) s)
      as [H1 H2].
    destruct (IH (process_batch eng (firstn BATCH_SIZE (skipn i worklist)) s))
      as [H3 H4].
    split; [exact (link_extends_trans _ _ _ H1 H3)
           | exact (flags_grow_trans _ _ _ H2 H4)].
Qed.

Lemma run_ai_processing_task_grows (eng : Engine) (s : State) :
  link_extends (links (committed s))
               (links (committed (run_ai_processing_task eng s)))
  /\ flags_grow (images (committed s))
                (images (committed (run_ai_processing_task eng s))).
Proof.
  unfold run_ai_processing_task.
  destruct (List.length (fetch_worklist (committed s)) =? 0)%nat.
  - split; [apply link_extends_refl | apply flags_grow_refl].
  - apply run_batches_grow.
Qed.

End WorkerBatch.

Section WorkerRun.

Lemma analyze_batch_returns (eng : Engine) (image_paths : list string) :
  (ocr_enabled eng = true -> ocr_reader_loads eng = true) ->
  exists batch_results, analyze_batch eng image_paths = Ok batch_results.
Proof.
  intros H. unfold analyze_batch. destruct (ocr_enabled eng).
  - rewrite (H eq_refl). eexists. reflexivity.
  - eexists. reflexivity.
Qed.

Lemma range_step_covers (total j : nat) :
  (j < total)%nat ->
  In ((j / BATCH_SIZE) * BATCH_SIZE)%nat (range_step total BATCH_SIZE).
Proof.
  intros Hj. unfold range_step. apply in_map_iff.
  exists (j / BATCH_SIZE)%nat. split; [reflexivity |].
  apply in_seq. split; [lia |]. rewrite Nat.add_0_l.
  apply Nat.Div0.div_lt_upper_bound.
  pose proof (Nat.div_mod_eq (total + BATCH_SIZE - 1) BATCH_SIZE) as E.
  pose proof (Nat.mod_upper_bound (total + BATCH_SIZE - 1) BATCH_SIZE) as U.
  unfold BATCH_SIZE in *. lia.
Qed.

Lemma batch_covers {A : Type} (worklist : list A) (j : nat) (x : A) :
  nth_error worklist j = Some x ->
  In x (firstn BATCH_SIZE (skipn ((j / BATCH_SIZE) * BATCH_SIZE) worklist)).
Proof.
  intros H. apply (nth_error_In _ (j mod BATCH_SIZE)).
  rewrite nth_error_firstn.
  assert (U : (j mod BATCH_SIZE < BATCH_SIZE)%nat)
    by (apply Nat.mod_upper_bound; unfold BATCH_SIZE; lia).
  apply Nat.ltb_lt in U. rewrite U.
  rewrite nth_error_skipn.
  replace (j / BATCH_SIZE * BATCH_SIZE + j mod BATCH_SIZE)%nat with j.
  - exact H.
  - pose proof (Nat.div_mod_eq j BATCH_SIZE). lia.
Qed.

Lemma run_batches_mark (eng : Engine) (worklist : list (Z * string))
      (starts : list nat) :
  (ocr_enabled eng = true -> ocr_reader_loads eng = true) ->
  forall (s : State) (start : nat) (img_id : Z) (p : string),
    In start starts ->
    In (img_id, p) (firstn BATCH_SIZE (skipn start worklist)) ->
    forall i,
      In i (images (committed
              (fold_left (fun s' k =>
                            process_batch eng
                              (firstn BATCH_SIZE (skipn k worklist)) s')
                         starts s))) ->
      image_id i = img_id -> is_processed i = true.
Proof.
  intros Hocr. induction starts as [|k starts IH];
    intros s start img_id p Hstart Hin; [destruct Hstart |].
  cbn [fold_left]. destruct Hstart as [-> | Hstart].
  - destruct (analyze_batch_returns eng
                (map snd (firstn BATCH_SIZE (skipn start worklist))) Hocr)
      as [results Ha].
    destruct (process_batch_spec eng _ results s Ha) as [_ [_ [_ Hm]]].
    destruct (run_batches_grow eng worklist starts
                (process_batch eng (firstn BATCH_SIZE (skipn start worklist)) s))
      as [_ Hg].
    apply (flags_grow_keeps_marks _ _ img_id Hg).
    exact (Hm img_id p Hin).
  - exact (IH _ start img_id p Hstart Hin).
Qed.

Lemma run_marks_everything (eng : Engine) (s : State) :
  (ocr_enabled eng = true -> ocr_reader_loads eng = true) ->
  forall i, In i (images (committed (run_ai_processing_task eng s))) ->
    is_processed i = true.
Proof.
  intros Hocr i' Hi'.
  destruct (run_ai_processing_task_grows eng s) as [_ Hg].
  destruct (flags_grow_in _ _ i' Hg Hi') as [i [Hi [Eid Hp]]].
  destruct (is_processed i) eqn:Ei; [exact (Hp eq_refl) |].
  assert (Hw : In (image_id i, path i) (fetch_worklist (committed s))).
  { unfold fetch_worklist.
    apply (in_map (fun i0 => (image_id i0, path i0))).
    apply filter_In. split; [exact Hi | rewrite Ei; reflexivity]. }
  apply In_nth_error in Hw. destruct Hw as [j Hj].
  assert (Hlt : (j < List.length (fetch_worklist (committed s)))%nat)
    by (apply nth_error_Some; rewrite Hj; discriminate).
  unfold run_ai_processing_task in Hi'.
  destruct (List.length (fetch_worklist (committed s)) =? 0)%nat eqn:E0.
  { apply Nat.eqb_eq in E0. lia. }
  apply (run_batches_mark eng (fetch_worklist (committed s)) _ Hocr s
           ((j / BATCH_SIZE) * BATCH_SIZE)%nat (image_id i) (path i)
           (range_step_covers _ j Hlt) (batch_covers _ j _ Hj) i' Hi' Eid).
Qed.

End WorkerRun.

(** The scenario of two unprocessed images: the first gets one link
    from the classifier, the second none, and both end up processed. *)
Example worker_scenario :
  let s' := run_ai_processing_task sample_engine (open_db two_images_db) in
  map (fun l => (link_image_id l, source l, is_verified l)) (links (committed s'))
  = [(1, "ai_clip", false)]
  /\ links_of 2 (committed s') = []
  /\ map is_processed (images (committed s')) = [true; true].
Proof. cbv zeta. repeat split; vm_compute; reflexivity. Qed.

(** C3.  A run of the worker leaves every link that exists when it
    starts as it is: the lookup of its (image, tag) pair returns the
    same row, with its confidence, source and verified flag, and the
    pair occurs once, so no duplicate is made; the same holds after a
    second run.  In the loop itself, a candidate whose tag is already
    linked to the image changes nothing. *)
Theorem worker_keeps_existing_links :
  forall (eng : Engine) (s : State) (link : ImageTagLink),
    unique_links (committed s) ->
    In link (links (committed s)) ->
    let once := run_ai_processing_task eng s in
    let twice := run_ai_processing_task eng once in
    (select_link (committed once) (link_image_id link) (link_tag_id link)
     = Some link
     /\ count_link (link_image_id link) (link_tag_id link) (committed once)
        = 1%nat
     /\ unique_links (committed once))
    /\ (select_link (committed twice) (link_image_id link) (link_tag_id link)
        = Some link
        /\ count_link (link_image_id link) (link_tag_id link) (committed twice)
           = 1%nat
        /\ unique_links (committed twice))
    /\ (forall (st : State) (item : TagItem) (tag : Tag),
          select_tag_by_name (working st) (ti_name item) = Some tag ->
          select_link (working st) (link_image_id link) (tag_id tag)
          = Some link ->
          persist_tag_item (link_image_id link) item st = (st, Ok tt)).
Proof.
  intros eng s link Hu Hin once twice.
  assert (Hkeep : forall s0 s1 : State,
            link_extends (links (committed s0)) (links (committed s1)) ->
            unique_links (committed s0) ->
            In link (links (committed s0)) ->
            (select_link (committed s1) (link_image_id link) (link_tag_id link)
             = Some link
             /\ count_link (link_image_id link) (link_tag_id link) (committed s1)
                = 1%nat
             /\ unique_links (committed s1))
            /\ In link (links (committed s1))).
  { intros s0 s1 Hext Hu0 Hin0.
    pose proof (link_extends_unique _ _ Hext Hu0) as Hu1.
    assert (Hin1 : In link (links (committed s1))).
    { destruct Hext as [e [-> _]]. apply in_or_app. left. exact Hin0. }
    split; [| exact Hin1]. split; [| split; [| exact Hu1]].
    - unfold select_link. apply find_unique_link; assumption.
    - unfold count_link. apply count_unique_link; assumption. }
  destruct (run_ai_processing_task_grows eng s) as [H1 _].
  destruct (run_ai_processing_task_grows eng once) as [H2 _].
  destruct (Hkeep s once H1 Hu Hin) as [Honce Hin1].
  split; [exact Honce |]. split.
  - destruct Honce as [_ [_ Hu1]].
    destruct (Hkeep once twice H2 Hu1 Hin1) as [Htwice _]. exact Htwice.
  - intros st item tag Ht Hl.
    unfold persist_tag_item, find_or_create_tag, bind, exec.
    rewrite Ht. cbn. rewrite Hl. reflexivity.
Qed.

Lemma worker_keeps_existing_links_witness :
  select_link (committed (run_ai_processing_task sample_engine (open_db tagged_db)))
              1 1
  = Some reviewed_link.
Proof.
  apply (proj1 (proj1 (worker_keeps_existing_links sample_engine
                         (open_db tagged_db) reviewed_link
                         (NoDup_cons (1, 1) (fun F : In (1, 1) [] => F)
                                     (NoDup_nil (Z * Z)))
                         (or_introl eq_refl)))).
Defined.

(** C6.  When the analyzers return for a batch, every image of the
    batch is marked processed in the committed store, whatever its
    candidates were; the rows of the image table are otherwise the
    same.  An image whose candidate list is empty gets no link: the
    links of that image are what they were, so none if it had none.
    When no batch can fail in the analyzers, a whole run leaves no
    image unprocessed. *)
Theorem worker_marks_batch_processed :
  forall (eng : Engine) (batch_tuples : list (Z * string))
         (batch_results : list (list TagItem)) (s : State),
    analyze_batch eng (map snd batch_tuples) = Ok batch_results ->
    let s' := process_batch eng batch_tuples s in
    (forall img_id p i,
       In (img_id, p) batch_tuples ->
       In i (images (committed s')) -> image_id i = img_id ->
       is_processed i = true)
    /\ (forall img_id p i,
          In (img_id, p) batch_tuples ->
          In i (images (committed s)) -> image_id i = img_id ->
          exists i', In i' (images (committed s'))
                     /\ image_id i' = img_id /\ is_processed i' = true)
    /\ flags_grow (images (committed s)) (images (committed s'))
    /\ (forall idx img_id p,
          NoDup (map fst batch_tuples) ->
          nth_error batch_tuples idx = Some (img_id, p) ->
          nth_error batch_results idx = Some [] ->
          links_of img_id (committed s') = links_of img_id (committed s)
          /\ forall i, In i (images (committed s')) -> image_id i = img_id ->
               is_processed i = true)
    /\ ((ocr_enabled eng = true -> ocr_reader_loads eng = true) ->
        forall s0 i,
          In i (images (committed (run_ai_processing_task eng s0))) ->
          is_processed i = true).
Proof.
  intros eng batch_tuples batch_results s Ha s'.
  destruct (process_batch_spec eng batch_tuples batch_results s Ha)
    as [Hext [Hg [Ho Hm]]]. fold s' in Hext, Hg, Ho, Hm.
  split; [intros img_id p i Hin; exact (Hm img_id p Hin i) |]. split.
  { intros img_id p i Hin Hi Hid.
    destruct (flags_grow_image _ _ i Hg Hi) as [i' [Hi' Eid]].
    exists i'. split; [exact Hi' |]. split; [congruence |].
    apply (Hm img_id p Hin i' Hi'). congruence. }
  split; [exact Hg |].
  split; [| intros Hocr s0; exact (run_marks_everything eng s0 Hocr)].
  intros idx img_id p Hnd Hk Hempty. split.
  - unfold links_of. apply link_extends_filter; [exact Hext |].
    intros l Hl Hnew.
    destruct (Ho l Hl) as [Hold | (k & id' & p' & td & tag & it & Hk' & Hr & Hit & ->)];
      [contradiction |].
    simpl. apply Z.eqb_neq. intros ->.
    assert (k = idx).
    { apply (proj1 (NoDup_nth_error (map fst batch_tuples)) Hnd).
      - rewrite length_map. apply nth_error_Some. rewrite Hk'. discriminate.
      - rewrite !nth_error_map, Hk', Hk. reflexivity. }
    subst k. rewrite Hr in Hempty. inversion Hempty; subst td. destruct Hit.
  - apply (Hm img_id p). exact (nth_error_In _ _ Hk).
Qed.

Lemma worker_marks_batch_processed_witness :
  links_of 2 (committed (process_batch sample_engine
                           [(1, "/photos/race/a.jpg"); (2, "/photos/race/b.jpg")]
                           (open_db two_images_db)))
  = []
  /\ forall i,
       In i (images (committed (process_batch sample_engine
                                  [(1, "/photos/race/a.jpg");
                                   (2, "/photos/race/b.jpg")]
                                  (open_db two_images_db)))) ->
       image_id i = 2 -> is_processed i = true.
Proof.
  apply (proj1 (proj2 (proj2 (proj2
           (worker_marks_batch_processed sample_engine
              [(1, "/photos/race/a.jpg"); (2, "/photos/race/b.jpg")]
              [[clip_item "car" 0.75%float]; []]
              (open_db two_images_db) eq_refl))))
           1%nat 2 "/photos/race/b.jpg").
  - simpl. constructor.
    + intros [H | []]. discriminate H.
    + constructor; [intros [] | constructor].
  - reflexivity.
  - reflexivity.
Defined.

(** ** Recognizer links and the review queue *)

Section RecognizerLinks.

Lemma review_where_link (link : ImageTagLink) (image : Image) :
  review_where link image = needs_verification link && negb (is_deleted image).
Proof. reflexivity. Qed.

End RecognizerLinks.

(** C10.  For a candidate of the text recognizer, the loop body of the
    worker either finds the pair linked already and writes nothing, or
    appends one link carrying the candidate's confidence, unverified.
    For a "number" candidate that confidence is 0.90: the link fails
    the clause [confidence < 0.90], so it is in no row the review query
    selects, in any store.  For a "text" candidate it is 0.80: the link
    meets the three clauses on the link and is selected with every live
    image and tag row it joins; once approved it meets them no more. *)
Theorem ocr_links_and_review_queue :
  forall (t : pystr.Tables) (text : pystr.str) (items : list TagItem)
         (item : TagItem) (img_id : Z) (s : State),
    classify_text t text = Ok items ->
    In item items ->
    exists s' tag,
      persist_tag_item img_id item s = (s', Ok tt)
      /\ (links (working s') = links (working s)
          \/ links (working s')
             = links (working s) ++ [new_link img_id tag item])
      /\ (ti_category item = "number" ->
          confidence (new_link img_id tag item) = 0.90%float
          /\ is_verified (new_link img_id tag item) = false
          /\ needs_verification (new_link img_id tag item) = false
          /\ forall db image tag',
               ~ In (new_link img_id tag item, image, tag') (review_rows db))
      /\ (ti_category item = "text" ->
          confidence (new_link img_id tag item) = 0.80%float
          /\ is_verified (new_link img_id tag item) = false
          /\ needs_verification (new_link img_id tag item) = true
          /\ needs_verification (approved (new_link img_id tag item)) = false
          /\ forall db image tag',
               In (new_link img_id tag item) (links db) ->
               In image (images db) -> In tag' (tags db) ->
               image_id image = img_id -> tag_id tag' = tag_id tag ->
               is_deleted image = false ->
               In (new_link img_id tag item, image, tag') (review_rows db)).
Proof.
  intros t text items item img_id s Hitems Hin.
  destruct (persist_tag_item_spec img_id item s)
    as [s' [tag [E [_ [_ Hlinks]]]]].
  exists s', tag. split; [exact E |]. split.
  { destruct Hlinks as [[l [_ H]] | [_ H]]; [left | right]; exact H. }
  destruct (classified_item t text items item Hitems Hin) as [_ [-> | ->]];
    split.
  - intros _. split; [reflexivity |]. split; [reflexivity |].
    assert (Hn : needs_verification
                   (new_link img_id tag (number_item (pystr.strip t text)))
                 = false) by (vm_compute; reflexivity).
    split; [exact Hn |].
    intros db image tag' Hrow. apply review_rows_spec in Hrow.
    destruct Hrow as (_ & _ & _ & _ & _ & Hw).
    rewrite review_where_link, Hn in Hw. discriminate Hw.
  - intros H. discriminate H.
  - intros H. discriminate H.
  - intros _. split; [reflexivity |]. split; [reflexivity |].
    assert (Hn : needs_verification
                   (new_link img_id tag (text_item (pystr.strip t text)))
                 = true) by (vm_compute; reflexivity).
    split; [exact Hn |]. split; [vm_compute; reflexivity |].
    intros db image tag' Hl Hi Ht Eid Etag Hdel.
    apply review_rows_spec. repeat split; try assumption.
    + simpl. symmetry. exact Eid.
    + simpl. symmetry. exact Etag.
    + rewrite review_where_link, Hn, Hdel. reflexivity.
Qed.

Lemma ocr_links_and_review_queue_witness :
  exists s' tag,
    persist_tag_item 1 (number_item (text_of "42")) (open_db two_images_db)
    = (s', Ok tt)
    /\ needs_verification (new_link 1 tag (number_item (text_of "42")))
       = false.
Proof.
  destruct (ocr_links_and_review_queue
              latin1_tables (text_of " 42 ") [number_item (text_of "42")]
              (number_item (text_of "42")) 1
              (open_db two_images_db) eq_refl (or_introl eq_refl))
    as [s' [tag [E [_ [Hnum _]]]]].
  exists s', tag. split; [exact E |].
  destruct (Hnum eq_refl) as [_ [_ [Hn _]]]. exact Hn.
Defined.

(** * Further properties of the pipeline *)

(** X1.  The fingerprint of a readable file is the digest of its whole
    content, whatever its length: the loop of 4096-byte reads feeds
    every byte, in order, and stops at the end.  An unreadable file
    raises [OSError]; nothing else does. *)
Theorem calculate_file_hash_whole_content :
  forall (env : Env) (file_path : string),
    (forall content,
       read_bytes env file_path = Some content ->
       calculate_file_hash env file_path
       = Ok (sha256_hexdigest env content))
    /\ (read_bytes env file_path = None ->
        calculate_file_hash env file_path = Raise OSError)
    /\ (forall e, calculate_file_hash env file_path = Raise e ->
          read_bytes env file_path = None /\ e = OSError)
    /\ (forall other content,
          read_bytes env file_path = Some content ->
          read_bytes env other = Some content ->
          calculate_file_hash env other = calculate_file_hash env file_path).
Proof.
  intros env p. split; [| split; [| split]].
  - intros content H. apply calculate_file_hash_content. exact H.
  - intros H. unfold calculate_file_hash. rewrite H. reflexivity.
  - intros e H. exact (calculate_file_hash_raises env p e H).
  - intros other content H1 H2.
    rewrite (calculate_file_hash_content env p content H1).
    apply calculate_file_hash_content. exact H2.
Qed.

Lemma calculate_file_hash_whole_content_witness :
  calculate_file_hash (sample_env [] no_writer) "/photos/race/a.jpg"
  = Ok "JP"
  /\ calculate_file_hash (sample_env [] no_writer) "/photos/lost.jpg"
     = Raise OSError.
Proof.
  split.
  - apply (proj1 (calculate_file_hash_whole_content
                    (sample_env [] no_writer) "/photos/race/a.jpg")
             [Byte.x4a; Byte.x50]).
    reflexivity.
  - apply (proj1 (proj2 (calculate_file_hash_whole_content
                           (sample_env [] no_writer) "/photos/lost.jpg"))).
    reflexivity.
Defined.

(** X2.  Running the ingestion a second time over the same discovered
    paths, with no other writer, adds nothing: every path is skipped or
    fails as before, and the store and the thumbnails are left exactly
    as the first run left them. *)
Theorem reingestion_adds_nothing :
  forall (env : Env) (root : string) (owner : Z) (s : State),
    quiet env ->
    let first := process_import env root owner s in
    let second := process_import env root owner (fst first) in
    fst second = fst first
    /\ added (snd second) = 0
    /\ skipped (snd second) + errors (snd second)
       = Z.of_nat (List.length (list_image_files env root)).
Proof.
  intros env root owner s Hq first second.
  destruct (process_paths_again env owner Hq (list_image_files env root) []
              {| added := 0; skipped := 0; errors := 0 |}
              {| added := 0; skipped := 0; errors := 0 |} s
              (fun p (F : In p []) => match F with end))
    as [H1 H2].
  cbn [app] in H1, H2.
  fold (process_import env root owner s) in H1, H2. fold first in H1, H2.
  fold (process_import env root owner (fst first)) in H1, H2.
  fold second in H1, H2.
  split; [exact H1 |]. split; [exact H2 |].
  pose proof (process_paths_total env owner (list_image_files env root)
                {| added := 0; skipped := 0; errors := 0 |} (fst first)) as T.
  fold (process_import env root owner (fst first)) in T. fold second in T.
  simpl in T, H2. lia.
Qed.

Lemma reingestion_adds_nothing_witness :
  let env := sample_env ["/photos/race/a.jpg"; "/photos/lost.jpg";
                         "/photos/rally/c.jpg"] no_writer in
  added (snd (process_import env "/photos" 7
                (fst (process_import env "/photos" 7 (open_db empty_db)))))
  = 0.
Proof.
  cbv zeta.
  apply (proj1 (proj2 (reingestion_adds_nothing
                         (sample_env ["/photos/race/a.jpg"; "/photos/lost.jpg";
                                      "/photos/rally/c.jpg"] no_writer)
                         "/photos" 7 (open_db empty_db)
                         (fun p db => eq_refl)))).
Defined.

(** X3.  With no other writer, ingestion only appends to the image
    table: the rows that were there stay, in place and unchanged, and
    exactly [added] rows follow them, each one for a discovered path and
    carrying that file's fingerprint and base name, the owner, and both
    flags cleared.  Tags and links are not touched. *)
Theorem ingestion_appends_rows :
  forall (env : Env) (root : string) (owner : Z) (s : State),
    quiet env ->
    let s' := fst (process_import env root owner s) in
    let stats := snd (process_import env root owner s) in
    exists new,
      images (working s') = images (working s) ++ new
      /\ Z.of_nat (List.length new) = added stats
      /\ Forall (ingested_row env owner) new
      /\ Forall (fun i => In (path i) (list_image_files env root)) new
      /\ tags (working s') = tags (working s)
      /\ links (working s') = links (working s).
Proof.
  intros env root owner s Hq s' stats.
  destruct (process_paths_quiet env owner Hq (list_image_files env root)
              {| added := 0; skipped := 0; errors := 0 |} s)
    as (new & extra & Hi & _ & Ht & Hl & Hn & Hrow & Hpath & _).
  fold (process_import env root owner s) in Hi, Ht, Hl, Hn. 
  exists new. split; [exact Hi |].
  split; [fold stats in Hn; simpl in Hn; lia |].
  split; [exact Hrow |]. split; [exact Hpath |].
  split; [exact Ht | exact Hl].
Qed.

Lemma ingestion_appends_rows_witness :
  let env := sample_env ["/photos/race/a.jpg"; "/photos/rally/c.jpg"]
                        no_writer in
  exists new,
    images (working (fst (process_import env "/photos" 7
                            (open_db one_image_db))))
    = images one_image_db ++ new
    /\ Z.of_nat (List.length new) = 2.
Proof.
  cbv zeta.
  destruct (ingestion_appends_rows
              (sample_env ["/photos/race/a.jpg"; "/photos/rally/c.jpg"] no_writer)
              "/photos" 7 (open_db one_image_db) (fun p db => eq_refl))
    as [new [Hi [Hn _]]].
  exists new. split; [exact Hi | exact Hn].
Defined.

(** X4.  With no other writer, a store in which no two rows share a
    fingerprint is still such a store after any ingestion run: the
    lookup before each insertion does what the schema leaves open. *)
Theorem ingestion_keeps_fingerprints_unique :
  forall (env : Env) (root : string) (owner : Z) (s : State),
    quiet env ->
    unique_hashes (working s) ->
    unique_hashes (working (fst (process_import env root owner s)))
    /\ (committed s = working s ->
        unique_hashes (committed (fst (process_import env root owner s)))).
Proof.
  intros env root owner s Hq Hu.
  destruct (process_paths_quiet env owner Hq (list_image_files env root)
              {| added := 0; skipped := 0; errors := 0 |} s)
    as (new & extra & _ & _ & _ & _ & _ & _ & _ & _ & Hun & Hflush & _).
  fold (process_import env root owner s) in Hun, Hflush.
  split; [exact (Hun Hu) |].
  intros Hc. rewrite (Hflush Hc). exact (Hun Hu).
Qed.

Lemma ingestion_keeps_fingerprints_unique_witness :
  unique_hashes
    (working (fst (process_import
                     (sample_env ["/photos/race/a.jpg"; "/photos/race/b.jpg";
                                  "/photos/rally/c.jpg"] no_writer)
                     "/photos" 7 (open_db one_image_db)))).
Proof.
  apply (proj1 (ingestion_keeps_fingerprints_unique
                  (sample_env ["/photos/race/a.jpg"; "/photos/race/b.jpg";
                               "/photos/rally/c.jpg"] no_writer)
                  "/photos" 7 (open_db one_image_db)
                  (fun p db => eq_refl)
                  (NoDup_cons "h1" (fun F : In "h1" [] => F) (NoDup_nil string)))).
Defined.

(** X5.  With no other writer, every row an ingestion run adds belongs
    to the album the store returns for the slug of its file's directory
    name; so two added files whose directories give the same slug are
    in the same album, and an album that existed is reused. *)
Theorem ingestion_groups_by_directory :
  forall (env : Env) (root : string) (owner : Z) (s : State),
    quiet env ->
    let s' := fst (process_import env root owner s) in
    exists new,
      images (working s') = images (working s) ++ new
      /\ Forall (in_directory_album env (working s')) new
      /\ (forall i j,
            In i new -> In j new ->
            album_slug_of env (path i) = album_slug_of env (path j) ->
            image_album_id i = image_album_id j)
      /\ (forall i a,
            In i new ->
            select_album_by_slug (working s) (album_slug_of env (path i))
            = Some a ->
            image_album_id i = album_id a).
Proof.
  intros env root owner s Hq s'.
  destruct (process_paths_quiet env owner Hq (list_image_files env root)
              {| added := 0; skipped := 0; errors := 0 |} s)
    as (new & extra & Hi & Ha & _ & _ & _ & _ & _ & Halb & _).
  fold (process_import env root owner s) in Hi, Ha, Halb. fold s' in Hi, Ha, Halb.
  exists new. split; [exact Hi |]. split; [exact Halb |].
  rewrite Forall_forall in Halb. split.
  - intros i j Hin Hjn Hs.
    destruct (Halb i Hin) as [a [Ea Eid]].
    destruct (Halb j Hjn) as [b [Eb Ejd]].
    rewrite Hs in Ea. rewrite Ea in Eb. inversion Eb; subst b. congruence.
  - intros i a Hin Hsel.
    destruct (Halb i Hin) as [b [Eb Eid]].
    unfold select_album_by_slug in *. rewrite Ha in Eb.
    rewrite (find_app_found _ _ extra a Hsel) in Eb.
    inversion Eb; subst b. exact Eid.
Qed.

Lemma ingestion_groups_by_directory_witness :
  let env := sample_env ["/photos/race/a.jpg"; "/photos/rally/c.jpg"]
                        no_writer in
  exists new,
    images (working (fst (process_import env "/photos" 7 (open_db empty_db))))
    = new
    /\ Forall (in_directory_album env
                 (working (fst (process_import env "/photos" 7
                                  (open_db empty_db))))) new.
Proof.
  cbv zeta.
  destruct (ingestion_groups_by_directory
              (sample_env ["/photos/race/a.jpg"; "/photos/rally/c.jpg"] no_writer)
              "/photos" 7 (open_db empty_db) (fun p db => eq_refl))
    as [new [Hi [Halb _]]].
  exists new. split; [exact Hi | exact Halb].
Defined.

(** ** Thumbnails *)

Section Thumbnails.

Variable env : Env.
Variable owner : Z.

Lemma resolve_album_thumbnails (p : string) (s s' : State) (r : result Album) :
  resolve_album env owner p s = (s', r) -> thumbnails s' = thumbnails s.
Proof.
  unfold resolve_album, bind, exec. cbn zeta.
  destruct (select_album_by_slug (working s) _).
  - unfold ret. intros H. inversion H. reflexivity.
  - unfold concurrent, add, bind_text. cbn [working committed thumbnails].
    destruct (forallb utf8.valid _);
      [destruct (insert_album _ _ _ _ _) as [[a db']|e] |];
      unfold commit, ret; cbn [working committed thumbnails];
      intros H; inversion H; reflexivity.
Qed.

Lemma save_image_thumbnails (p h : string) (md : Metadata) (a : Album)
      (s s' : State) (r : result Image) :
  save_image owner p h md a s = (s', r) -> thumbnails s' = thumbnails s.
Proof.
  destruct (forallb utf8.valid (image_texts p)) eqn:Hv.
  - destruct (save_image_row owner p h md a s Hv)
      as (i' & s3 & E & _ & _ & _ & _ & _ & T & _).
    rewrite E. intros H. inversion H; subst. exact T.
  - rewrite (save_image_refused owner p h md a s Hv).
    intros H. inversion H; subst. reflexivity.
Qed.

Lemma resolve_album_same_store (ok : string -> bool) (p : string) (s1 s2 : State) :
  same_store s1 s2 ->
  snd (resolve_album (with_thumbnail_ok env ok) owner p s1)
  = snd (resolve_album env owner p s2)
  /\ same_store (fst (resolve_album (with_thumbnail_ok env ok) owner p s1))
                (fst (resolve_album env owner p s2)).
Proof.
  intros [Hc Hw]. unfold resolve_album, bind, exec. cbn zeta.
  cbn [slugify other_writer with_thumbnail_ok]. rewrite Hw.
  destruct (select_album_by_slug (working s2) _).
  - unfold ret. cbn [fst snd]. split; [reflexivity | split; assumption].
  - unfold concurrent, add, bind_text. cbn [working committed thumbnails].
    rewrite Hw, Hc.
    destruct (forallb utf8.valid _);
      [destruct (insert_album _ _ _ _ _) as [[a db']|e] |];
      unfold commit, ret; cbn [working committed thumbnails fst snd];
      (split; [reflexivity | split; reflexivity]).
Qed.

Lemma save_image_same_store (p h : string) (md : Metadata) (a : Album)
      (s1 s2 : State) :
  same_store s1 s2 ->
  snd (save_image owner p h md a s1) = snd (save_image owner p h md a s2)
  /\ same_store (fst (save_image owner p h md a s1))
                (fst (save_image owner p h md a s2)).
Proof.
  intros [Hc Hw]. unfold save_image, bind, add, bind_text.
  destruct (forallb utf8.valid _).
  - rewrite !insert_image_accepts. unfold commit, ret.
    cbn [working committed thumbnails fst snd]. rewrite Hw.
    split; [reflexivity | split; reflexivity].
  - cbn [fst snd]. split; [reflexivity | split; assumption].
Qed.

Lemma process_file_same_store (ok : string -> bool) (p : string) (s1 s2 : State) :
  same_store s1 s2 ->
  snd (process_file (with_thumbnail_ok env ok) owner p s1)
  = snd (process_file env owner p s2)
  /\ same_store (fst (process_file (with_thumbnail_ok env ok) owner p s1))
                (fst (process_file env owner p s2)).
Proof.
  intros Hs. pose proof Hs as [Hc Hw].
  destruct (calculate_file_hash env p) as [h|e] eqn:Hh.
  2:{ unfold process_file, bind, lift.
      change (calculate_file_hash (with_thumbnail_ok env ok) p)
        with (calculate_file_hash env p).
      rewrite Hh. cbn [fst snd]. split; [reflexivity | exact Hs]. }
  assert (Hh1 : calculate_file_hash (with_thumbnail_ok env ok) p = Ok h)
    by exact Hh.
  destruct (select_image_by_hash (working s2) h) as [i|] eqn:Hex.
  { rewrite (process_file_skips env owner p h s2 i Hh Hex).
    rewrite <- Hw in Hex.
    rewrite (process_file_skips (with_thumbnail_ok env ok) owner p h s1 i Hh1 Hex).
    split; [reflexivity | exact Hs]. }
  destruct (extract_metadata env p) as [md|e] eqn:Hmd.
  2:{ unfold process_file, bind, lift, exec.
      rewrite Hh1, Hh. cbn beta iota. rewrite Hw, Hex.
      change (extract_metadata (with_thumbnail_ok env ok) p)
        with (extract_metadata env p).
      rewrite Hmd. cbn [fst snd]. split; [reflexivity | exact Hs]. }
  assert (Hmd1 : extract_metadata (with_thumbnail_ok env ok) p = Ok md)
    by exact Hmd.
  destruct (process_file_fresh env owner p h md s2 Hh Hex Hmd)
    as [t2 [b2 [_ [Ec2 [Ew2 ->]]]]].
  rewrite <- Hw in Hex.
  destruct (process_file_fresh (with_thumbnail_ok env ok) owner p h md s1
              Hh1 Hex Hmd1) as [t1 [b1 [_ [Ec1 [Ew1 ->]]]]].
  assert (Ht : same_store t1 t2) by (split; congruence).
  destruct (resolve_album_same_store ok p t1 t2 Ht) as [Hr Hrs].
  destruct (resolve_album (with_thumbnail_ok env ok) owner p t1) as [u1 r1].
  destruct (resolve_album env owner p t2) as [u2 r2].
  cbn [fst snd] in Hr, Hrs. subst r2.
  destruct r1 as [a|e]; [| split; [reflexivity | exact Hrs]].
  destruct (save_image_same_store p h md a u1 u2 Hrs) as [Hv Hvs].
  destruct (save_image owner p h md a u1) as [v1 q1].
  destruct (save_image owner p h md a u2) as [v2 q2].
  cbn [fst snd] in Hv, Hvs. subst q2.
  destruct q1; (split; [reflexivity | exact Hvs]).
Qed.

Lemma process_file_inactive_same_store (ok : string -> bool) (p : string)
      (s1 s2 : State) :
  same_store s1 s2 ->
  snd (process_file_inactive (with_thumbnail_ok env ok) p s1)
  = snd (process_file_inactive env p s2)
  /\ same_store (fst (process_file_inactive (with_thumbnail_ok env ok) p s1))
                (fst (process_file_inactive env p s2)).
Proof.
  intros Hs. unfold process_file_inactive, bind, lift, raise.
  change (calculate_file_hash (with_thumbnail_ok env ok) p)
    with (calculate_file_hash env p).
  destruct (calculate_file_hash env p); cbn [fst snd];
    (split; [reflexivity | exact Hs]).
Qed.

Lemma process_rounds_same_store (ok : string -> bool) (paths : list string) :
  forall (inactive : bool) (stats : Stats) (s1 s2 : State),
    same_store s1 s2 ->
    snd (process_rounds (with_thumbnail_ok env ok) owner inactive paths stats s1)
    = snd (process_rounds env owner inactive paths stats s2)
    /\ same_store
         (fst (process_rounds (with_thumbnail_ok env ok) owner inactive paths
                 stats s1))
         (fst (process_rounds env owner inactive paths stats s2)).
Proof.
  induction paths as [|p paths IH]; intros inactive stats s1 s2 Hs.
  - split; [reflexivity | exact Hs].
  - cbn [process_rounds]. destruct inactive.
    + destruct (process_file_inactive_same_store ok p s1 s2 Hs) as [Hr Hn].
      destruct (process_file_inactive (with_thumbnail_ok env ok) p s1)
        as [t1 r1].
      destruct (process_file_inactive env p s2) as [t2 r2].
      cbn [fst snd] in Hr, Hn. subst r2. apply IH. exact Hn.
    + destruct (process_file_same_store ok p s1 s2 Hs) as [Hr Hn].
      destruct (process_file (with_thumbnail_ok env ok) owner p s1) as [t1 r1].
      destruct (process_file env owner p s2) as [t2 r2].
      cbn [fst snd] in Hr, Hn. subst r2. apply IH. exact Hn.
Qed.

Lemma process_paths_same_store (ok : string -> bool) (paths : list string) :
  forall (stats : Stats) (s1 s2 : State),
    same_store s1 s2 ->
    snd (process_paths (with_thumbnail_ok env ok) owner paths stats s1)
    = snd (process_paths env owner paths stats s2)
    /\ same_store
         (fst (process_paths (with_thumbnail_ok env ok) owner paths stats s1))
         (fst (process_paths env owner paths stats s2)).
Proof.
  intros stats s1 s2 Hs. apply process_rounds_same_store. exact Hs.
Qed.

Lemma process_file_added_thumbnails (p h : string) (s s' : State) :
  calculate_file_hash env p = Ok h ->
  process_file env owner p s = (s', Ok Added) ->
  exists b, ensure_thumbnail env p h s
            = ({| committed := committed s; working := working s;
                  thumbnails := thumbnails s' |}, Ok b).
Proof.
  intros Hh H.
  destruct (select_image_by_hash (working s) h) as [i|] eqn:Hex.
  { rewrite (process_file_skips env owner p h s i Hh Hex) in H. discriminate H. }
  destruct (extract_metadata env p) as [md|e] eqn:Hmd.
  2:{ destruct (extract_metadata_raises env p e Hmd) as [Hg _].
      rewrite (process_file_no_metadata env owner p h s Hh Hex Hg) in H.
      discriminate H. }
  destruct (process_file_fresh env owner p h md s Hh Hex Hmd)
    as [t [b [Et [Ec [Ew E]]]]].
  rewrite E in H. clear E.
  destruct (resolve_album env owner p t) as [u [a|e]] eqn:Er; [| discriminate H].
  pose proof (resolve_album_thumbnails p t u (Ok a) Er) as Tu.
  destruct (save_image owner p h md a u) as [v [i'|e]] eqn:Ev;
    [| discriminate H].
  pose proof (save_image_thumbnails p h md a u v (Ok i') Ev) as Tv.
  inversion H; subst v.
  exists b. rewrite Et. f_equal. destruct t as [tc tw tt].
  cbn [committed working thumbnails] in *. subst tc tw. f_equal. congruence.
Qed.

(** A file is added only when the text of its row can be bound. *)
Lemma process_file_added_valid (p : string) (s s' : State) :
  process_file env owner p s = (s', Ok Added) -> utf8.valid p = true.
Proof.
  intros H.
  destruct (calculate_file_hash env p) as [h|e] eqn:Hh.
  2:{ destruct (calculate_file_hash_raises env p e Hh) as [Hr _].
      rewrite (process_file_unreadable env owner p s Hr) in H.
      discriminate H. }
  destruct (select_image_by_hash (working s) h) as [i|] eqn:Hex.
  { rewrite (process_file_skips env owner p h s i Hh Hex) in H.
    discriminate H. }
  destruct (extract_metadata env p) as [md|e] eqn:Hmd.
  2:{ destruct (extract_metadata_raises env p e Hmd) as [Hg _].
      rewrite (process_file_no_metadata env owner p h s Hh Hex Hg) in H.
      discriminate H. }
  destruct (process_file_fresh env owner p h md s Hh Hex Hmd)
    as [t [b [_ [_ [_ E]]]]].
  rewrite E in H. clear E.
  destruct (forallb utf8.valid (image_texts p)) eqn:Hv.
  - unfold image_texts in Hv. cbn [forallb] in Hv.
    apply andb_true_iff in Hv. destruct Hv as [_ Hv].
    apply andb_true_iff in Hv. exact (proj1 Hv).
  - destruct (resolve_album env owner p t) as [u [a|e]];
      [rewrite (save_image_refused owner p h md a u Hv) in H |];
      discriminate H.
Qed.

End Thumbnails.

(** X6.  Whether thumbnails can be generated has no bearing on what is
    ingested: the counts returned and the store are the same for every
    outcome of thumbnail generation, from stores that agree. *)
Theorem thumbnail_failure_is_not_fatal :
  forall (env : Env) (ok : string -> bool) (root : string) (owner : Z)
         (s1 s2 : State),
    same_store s1 s2 ->
    snd (process_import (with_thumbnail_ok env ok) root owner s1)
    = snd (process_import env root owner s2)
    /\ same_store (fst (process_import (with_thumbnail_ok env ok) root owner s1))
                  (fst (process_import env root owner s2)).
Proof.
  intros env ok root owner s1 s2 Hs. unfold process_import.
  change (list_image_files (with_thumbnail_ok env ok) root)
    with (list_image_files env root).
  apply process_paths_same_store. exact Hs.
Qed.

Lemma thumbnail_failure_is_not_fatal_witness :
  snd (process_import
         (with_thumbnail_ok (sample_env ["/photos/race/a.jpg"] no_writer)
                            (fun _ => false))
         "/photos" 7 (open_db empty_db))
  = snd (process_import (sample_env ["/photos/race/a.jpg"] no_writer)
                        "/photos" 7 (open_db empty_db)).
Proof.
  apply (proj1 (thumbnail_failure_is_not_fatal
                  (sample_env ["/photos/race/a.jpg"] no_writer)
                  (fun _ => false) "/photos" 7
                  (open_db empty_db) (open_db empty_db)
                  (conj eq_refl eq_refl))).
Defined.

(** X7.  When a file is added, its thumbnail is looked for under the
    name of its fingerprint with ".jpg": one that is there is left
    alone and nothing is generated; otherwise one is written under that
    name if generation succeeds, and none if it fails.  No other file
    of the thumbnail directory is touched. *)
Theorem thumbnail_named_by_fingerprint :
  forall (env : Env) (owner : Z) (file_path h : string) (s s' : State),
    calculate_file_hash env file_path = Ok h ->
    process_file env owner file_path s = (s', Ok Added) ->
    (In (h ++ ".jpg")%string (thumbnails s) -> thumbnails s' = thumbnails s)
    /\ (~ In (h ++ ".jpg")%string (thumbnails s) ->
        thumbnail_ok env file_path = true ->
        thumbnails s' = (h ++ ".jpg")%string :: thumbnails s)
    /\ (~ In (h ++ ".jpg")%string (thumbnails s) ->
        thumbnail_ok env file_path = false ->
        thumbnails s' = thumbnails s).
Proof.
  intros env owner p h s s' Hh H.
  destruct (process_file_added_thumbnails env owner p h s s' Hh H) as [b E].
  unfold ensure_thumbnail, bind, exists_thumbnail in E. cbn zeta in E.
  assert (Hex : forall l, existsb (String.eqb (h ++ ".jpg")%string) l = true
                          <-> In (h ++ ".jpg")%string l).
  { intros l. rewrite existsb_exists. split.
    - intros [x [Hx Ex]]. apply String.eqb_eq in Ex. subst x. exact Hx.
    - intros Hx. exists (h ++ ".jpg")%string. split; [exact Hx |].
      apply String.eqb_refl. }
  destruct (existsb (String.eqb (h ++ ".jpg")%string) (thumbnails s)) eqn:Ee.
  - unfold ret in E.
    apply (f_equal (fun x => thumbnails (fst x))) in E. cbn in E.
    split; [intros _; symmetry; exact E |].
    apply Hex in Ee. split; intros Hn; contradiction.
  - assert (Hn : ~ In (h ++ ".jpg")%string (thumbnails s)).
    { intros Hin. apply Hex in Hin. congruence. }
    split; [intros Hin; contradiction |].
    unfold generate_thumbnail in E.
    destruct (thumbnail_ok env p).
    + unfold bind, write_thumbnail, ret in E.
      apply (f_equal (fun x => thumbnails (fst x))) in E. cbn in E.
      split; [intros _ _; symmetry; exact E | intros _ F; discriminate F].
    + unfold ret in E.
      apply (f_equal (fun x => thumbnails (fst x))) in E. cbn in E.
      split; [intros _ F; discriminate F | intros _ _; symmetry; exact E].
Qed.

Lemma thumbnail_named_by_fingerprint_witness :
  thumbnails (fst (process_file (sample_env [] no_writer) 7
                     "/photos/race/a.jpg" (open_db empty_db)))
  = ["JP.jpg"].
Proof.
  apply (proj1 (proj2 (thumbnail_named_by_fingerprint
                         (sample_env [] no_writer) 7 "/photos/race/a.jpg" "JP"
                         (open_db empty_db)
                         (fst (process_file (sample_env [] no_writer) 7
                                 "/photos/race/a.jpg" (open_db empty_db)))
                         eq_refl eq_refl))).
  - intros [].
  - reflexivity.
Defined.

(** X8.  A file that Pillow cannot open is ingested all the same, with
    no other writer, when its path is UTF-8 text (a path that is not
    cannot be stored at all): once its size is read the metadata step
    cannot fail, and the row is stored with width and height 0, camera
    model "Unknown" and no capture time.  A file without EXIF keeps its
    real dimensions and gets the same camera model and capture time.
    A path that is no UTF-8 text is refused when the row is flushed,
    whatever Pillow makes of the file. *)
Theorem undecodable_file_is_still_ingested :
  forall (env : Env) (owner : Z) (file_path h : string) (size : Z) (s : State),
    quiet env ->
    calculate_file_hash env file_path = Ok h ->
    select_image_by_hash (working s) h = None ->
    getsize env file_path = Some size ->
    (utf8.valid file_path = true ->
     exists s' i',
       process_file env owner file_path s = (s', Ok Added)
       /\ images (working s') = images (working s) ++ [i']
       /\ file_size i' = Some size
       /\ (pil_size env file_path = None ->
           width i' = Some 0 /\ height i' = Some 0
           /\ camera_model i' = Some "Unknown" /\ captured_at i' = None)
       /\ (forall w0 h0,
             pil_size env file_path = Some (w0, h0) ->
             pil_exif env file_path = None ->
             width i' = Some w0 /\ height i' = Some h0
             /\ camera_model i' = Some "Unknown" /\ captured_at i' = None))
    /\ (utf8.valid file_path = false ->
        exists s',
          process_file env owner file_path s = (s', Raise UnicodeEncodeError)
          /\ images (working s') = images (working s)).
Proof.
  intros env owner p h size s Hq Hh Hn Hg.
  destruct (process_file_quiet env owner Hq p s)
    as [[_ [Hr | (h0 & _ & _ & Hg0)]]
       | [(h0 & i & Hh0 & Hsel & _)
         | [(h0 & md & s' & i' & a & Hh0 & _ & Hmd & E & Hi & _ & _ & _ & _ & _
            & _ & _ & _ & _ & _ & _ & _ & Hw & Hht & Hfs & Hcm & Hca)
           | (h0 & md & s' & extra & _ & _ & _ & E & Hv & Hi & _)]]].
  - unfold calculate_file_hash in Hh. rewrite Hr in Hh. discriminate Hh.
  - congruence.
  - rewrite Hh in Hh0. inversion Hh0; subst h0. congruence.
  - split; [intros _ | intros Hv].
    2:{ pose proof (process_file_added_valid env owner p s s' E) as Hv'.
        congruence. }
    exists s', i'. split; [exact E |]. split; [exact Hi |].
    unfold extract_metadata in Hmd. rewrite Hg in Hmd.
    destruct (pil_size env p) as [[w0 h1]|] eqn:Hp.
    + destruct (pil_exif env p) as [[model date]|] eqn:Hx;
        inversion Hmd; subst md; cbn in *.
      * split; [exact Hfs |]. split; [intros F; discriminate F |].
        intros w1 h2 _ F. discriminate F.
      * split; [exact Hfs |]. split; [intros F; discriminate F |].
        intros w1 h2 F _. inversion F; subst. repeat split; assumption.
    + inversion Hmd; subst md; cbn in *.
      split; [exact Hfs |]. split; [intros _; repeat split; assumption |].
      intros w1 h2 F. discriminate F.
  - split; [intros Hv'; congruence | intros _].
    exists s'. split; [exact E | exact Hi].
Qed.

Lemma undecodable_file_is_still_ingested_witness :
  (exists s' i',
     process_file (sample_env [] no_writer) 7 "/photos/race/a.jpg"
                  (open_db empty_db) = (s', Ok Added)
     /\ file_size i' = Some 2)
  /\ (exists s',
        process_file (legacy_env []) 7 latin1_path (open_db empty_db)
        = (s', Raise UnicodeEncodeError)
        /\ images (working s') = []).
Proof.
  split.
  - destruct (proj1 (undecodable_file_is_still_ingested
                       (sample_env [] no_writer) 7 "/photos/race/a.jpg" "JP" 2
                       (open_db empty_db) (fun p db => eq_refl)
                       eq_refl eq_refl eq_refl) eq_refl)
      as [s' [i' [E [_ [Hs _]]]]].
    exists s', i'. split; [exact E | exact Hs].
  - exact (proj2 (undecodable_file_is_still_ingested
                    (legacy_env []) 7 latin1_path "JP" 2
                    (open_db empty_db) (fun p db => eq_refl)
                    eq_refl eq_refl eq_refl) eq_refl).
Defined.

(** ** The analyzers *)

Section Analyzers.

Lemma insert_desc_perm (x : TagItem) (l : list TagItem) :
  Permutation (insert_desc x l) (x :: l).
Proof.
  induction l as [|y l IH]; simpl.
  - apply Permutation_refl.
  - destruct (PrimFloat.leb (ti_confidence y) (ti_confidence x)).
    + apply Permutation_refl.
    + apply (perm_trans (perm_skip y IH)). apply perm_swap.
Qed.

Lemma sort_desc_perm (l : list TagItem) : Permutation (sort_desc l) l.
Proof.
  induction l as [|x l IH]; simpl.
  - apply perm_nil.
  - apply (perm_trans (insert_desc_perm x (sort_desc l))).
    apply perm_skip. exact IH.
Qed.

Lemma insert_desc_head (x : TagItem) (l : list TagItem) (z : TagItem) :
  HdRel not_below z l -> not_below z x -> HdRel not_below z (insert_desc x l).
Proof.
  intros Hl Hx. destruct l as [|y l]; simpl.
  - constructor. exact Hx.
  - destruct (PrimFloat.leb (ti_confidence y) (ti_confidence x)).
    + constructor. exact Hx.
    + constructor. inversion Hl; assumption.
Qed.

Lemma insert_desc_sorted (x : TagItem) (l : list TagItem) :
  (forall y, In y l ->
     PrimFloat.leb (ti_confidence y) (ti_confidence x) = true
     \/ PrimFloat.leb (ti_confidence x) (ti_confidence y) = true) ->
  Sorted not_below l -> Sorted not_below (insert_desc x l).
Proof.
  induction l as [|y l IH]; simpl; intros Hc Hs.
  - constructor; constructor.
  - destruct (PrimFloat.leb (ti_confidence y) (ti_confidence x)) eqn:E.
    + constructor; [exact Hs |]. constructor. exact E.
    + inversion Hs as [|? ? Hs' Hh]; subst. constructor.
      * apply IH; [| exact Hs']. intros z Hz. apply Hc. right. exact Hz.
      * apply insert_desc_head; [exact Hh |].
        destruct (Hc y (or_introl eq_refl)) as [F | F]; [congruence | exact F].
Qed.

Lemma sort_desc_sorted (l : list TagItem) :
  comparable l -> Sorted not_below (sort_desc l).
Proof.
  induction l as [|x l IH]; simpl; intros Hc.
  - constructor.
  - apply insert_desc_sorted.
    + intros y Hy. apply Hc; [right | left; reflexivity].
      apply (Permutation_in _ (sort_desc_perm l)). exact Hy.
    + apply IH. intros a b Ha Hb. apply Hc; right; assumption.
Qed.

Lemma above_threshold_sound (eng : Engine) (probs : list float) (item : TagItem) :
  In item (above_threshold eng probs) ->
  PrimFloat.ltb (clip_threshold eng) (ti_confidence item) = true
  /\ In (ti_name item) (clip_labels eng)
  /\ In (ti_confidence item) probs
  /\ ti_source item = "ai_clip"
  /\ ti_category item = "auto_classified".
Proof.
  unfold above_threshold. intros H. apply in_flat_map in H.
  destruct H as [[label score] [Hin H]].
  destruct (PrimFloat.ltb (clip_threshold eng) score) eqn:E; [| destruct H].
  destruct H as [<- | []]. simpl.
  split; [exact E |].
  split; [exact (in_combine_l _ _ _ _ Hin) |].
  split; [exact (in_combine_r _ _ _ _ Hin) |]. split; reflexivity.
Qed.

Lemma above_threshold_complete (eng : Engine) (probs : list float)
      (label : string) (score : float) :
  In (label, score) (combine (clip_labels eng) probs) ->
  PrimFloat.ltb (clip_threshold eng) score = true ->
  In (clip_item label score) (above_threshold eng probs).
Proof.
  intros Hin E. unfold above_threshold. apply in_flat_map.
  exists (label, score). split; [exact Hin |]. rewrite E. left. reflexivity.
Qed.

End Analyzers.

(** X9.  The classifier step returns one list per path.  Every
    candidate in it has a score strictly above the configured
    threshold, a label of the vocabulary, source "ai_clip" and category
    "auto_classified", and comes from the probability row of its image;
    every label of the row that is above the threshold is among them.
    An image that cannot be loaded gets the empty list, and so does
    every image of a batch on which the model raises. *)
Theorem classifier_candidates_above_threshold :
  forall (eng : Engine) (image_paths : list string),
    List.length (analyze_batch_semantics eng image_paths)
    = List.length image_paths
    /\ (forall idx items item,
          nth_error (analyze_batch_semantics eng image_paths) idx = Some items ->
          In item items ->
          PrimFloat.ltb (clip_threshold eng) (ti_confidence item) = true
          /\ In (ti_name item) (clip_labels eng)
          /\ ti_source item = "ai_clip"
          /\ ti_category item = "auto_classified"
          /\ exists p probs,
               nth_error image_paths idx = Some p
               /\ clip_probs eng p = Some probs
               /\ In (ti_confidence item) probs)
    /\ (forall idx p probs label score,
          clip_raises eng image_paths = false ->
          nth_error image_paths idx = Some p ->
          clip_probs eng p = Some probs ->
          In (label, score) (combine (clip_labels eng) probs) ->
          PrimFloat.ltb (clip_threshold eng) score = true ->
          exists items,
            nth_error (analyze_batch_semantics eng image_paths) idx = Some items
            /\ In (clip_item label score) items)
    /\ (forall idx p,
          nth_error image_paths idx = Some p ->
          clip_probs eng p = None \/ clip_raises eng image_paths = true ->
          nth_error (analyze_batch_semantics eng image_paths) idx = Some []).
Proof.
  intros eng paths. split; [apply analyze_batch_semantics_length |].
  unfold analyze_batch_semantics. split; [| split].
  - intros idx items item Hn Hin.
    destruct (clip_raises eng paths).
    + rewrite nth_error_map in Hn.
      destruct (nth_error paths idx); [| discriminate].
      inversion Hn; subst. destruct Hin.
    + rewrite nth_error_map in Hn.
      destruct (nth_error paths idx) as [p|] eqn:Hp; [| discriminate].
      simpl in Hn. destruct (clip_probs eng p) as [probs|] eqn:Hc;
        inversion Hn; subst; [| destruct Hin].
      apply (Permutation_in _ (sort_desc_perm _)) in Hin.
      destruct (above_threshold_sound eng probs item Hin)
        as (H1 & H2 & H3 & H4 & H5).
      repeat split; try assumption. exists p, probs.
      repeat split; first [assumption | reflexivity].
  - intros idx p probs label score Hr Hp Hc Hin E. rewrite Hr.
    rewrite nth_error_map, Hp. simpl. rewrite Hc.
    eexists. split; [reflexivity |].
    apply (Permutation_in _ (Permutation_sym (sort_desc_perm _))).
    apply above_threshold_complete; assumption.
  - intros idx p Hp [Hc | Hr].
    + destruct (clip_raises eng paths); rewrite nth_error_map, Hp; simpl;
        [reflexivity | rewrite Hc; reflexivity].
    + rewrite Hr, nth_error_map, Hp. reflexivity.
Qed.

Lemma classifier_candidates_above_threshold_witness :
  PrimFloat.ltb (clip_threshold sample_engine) 0.75%float = true
  /\ In "car" (clip_labels sample_engine).
Proof.
  destruct (proj1 (proj2 (classifier_candidates_above_threshold sample_engine
              ["/photos/race/a.jpg"; "/photos/race/b.jpg"]))
              0%nat [clip_item "car" 0.75%float] (clip_item "car" 0.75%float)
              eq_refl (or_introl eq_refl))
    as (Hlt & Hlabel & _).
  split; [exact Hlt | exact Hlabel].
Defined.

(** X10.  Sorting the candidates of an image keeps them all, each as
    often as before; and when their scores can be compared (none is
    NaN) the result runs from the highest confidence to the lowest. *)
Theorem sort_desc_orders_candidates :
  forall l : list TagItem,
    Permutation (sort_desc l) l
    /\ List.length (sort_desc l) = List.length l
    /\ (comparable l -> Sorted not_below (sort_desc l)).
Proof.
  intros l. split; [apply sort_desc_perm |].
  split; [apply Permutation_length; apply sort_desc_perm |].
  apply sort_desc_sorted.
Qed.

Lemma sort_desc_orders_candidates_witness :
  Sorted not_below (sort_desc three_candidates)
  /\ map ti_name (sort_desc three_candidates) = ["car"; "track"; "crowd"].
Proof.
  split; [| reflexivity].
  apply (proj2 (proj2 (sort_desc_orders_candidates three_candidates))).
  intros a b Ha Hb. simpl in Ha, Hb.
  destruct Ha as [<- | [<- | [<- | []]]];
    destruct Hb as [<- | [<- | [<- | []]]];
    vm_compute; first [left; reflexivity | right; reflexivity].
Defined.

Section Merging.

Lemma combine_map_map {A B C : Type} (f : A -> B) (g : A -> C) (l : list A) :
  combine (map f l) (map g l) = map (fun x => (f x, g x)) l.
Proof.
  induction l as [|x l IH]; simpl; [reflexivity | rewrite IH; reflexivity].
Qed.

Lemma analyze_batch_semantics_map (eng : Engine) (image_paths : list string) :
  exists f : string -> list TagItem,
    analyze_batch_semantics eng image_paths = map f image_paths.
Proof.
  unfold analyze_batch_semantics. destruct (clip_raises eng image_paths);
    eexists; reflexivity.
Qed.

Lemma analyze_batch_rows (eng : Engine) (image_paths : list string)
      (g : string -> list TagItem) :
  map (fun '(c, o) => c ++ o)
      (combine (analyze_batch_semantics eng image_paths) (map g image_paths))
  = map (fun '(c, p) => c ++ g p)
        (combine (analyze_batch_semantics eng image_paths) image_paths).
Proof.
  destruct (analyze_batch_semantics_map eng image_paths) as [f ->].
  rewrite combine_map_map.
  replace (combine (map f image_paths) image_paths)
    with (map (fun p => (f p, p)) image_paths).
  - rewrite !map_map. reflexivity.
  - rewrite <- (map_id image_paths) at 3. rewrite combine_map_map. reflexivity.
Qed.

Lemma analyze_image_text_disabled (eng : Engine) (p : string) :
  ocr_enabled eng = false -> analyze_image_text eng p = [].
Proof. intros H. unfold analyze_image_text. rewrite H. reflexivity. Qed.

Lemma analyze_batch_ok_rows (eng : Engine) (image_paths : list string)
      (batch_results : list (list TagItem)) :
  analyze_batch eng image_paths = Ok batch_results ->
  batch_results
  = map (fun '(c, p) => c ++ analyze_image_text eng p)
        (combine (analyze_batch_semantics eng image_paths) image_paths).
Proof.
  unfold analyze_batch. destruct (ocr_enabled eng) eqn:He.
  - destruct (ocr_reader_loads eng); [| discriminate].
    intros H. inversion H. apply analyze_batch_rows.
  - intros H. inversion H.
    rewrite (analyze_batch_rows eng image_paths (fun _ => [])).
    apply map_ext_in. intros [c p] _.
    rewrite (analyze_image_text_disabled eng p He). reflexivity.
Qed.

End Merging.

(** X11.  The batch analysis fails only when the recognizer is enabled
    and its reader cannot be loaded.  When it returns, there is one
    result per path, and the result of an image is the classifier's
    candidates followed by the recognizer's; with the recognizer
    disabled it is the classifier's candidates alone. *)
Theorem analyze_batch_merges_results :
  forall (eng : Engine) (image_paths : list string),
    (forall e, analyze_batch eng image_paths = Raise e ->
       e = RuntimeError
       /\ ocr_enabled eng = true /\ ocr_reader_loads eng = false)
    /\ (ocr_enabled eng = true -> ocr_reader_loads eng = false ->
        analyze_batch eng image_paths = Raise RuntimeError)
    /\ (forall batch_results,
          analyze_batch eng image_paths = Ok batch_results ->
          List.length batch_results = List.length image_paths
          /\ forall idx p,
               nth_error image_paths idx = Some p ->
               exists clip,
                 nth_error (analyze_batch_semantics eng image_paths) idx
                 = Some clip
                 /\ nth_error batch_results idx
                    = Some (clip ++ analyze_image_text eng p))
    /\ (ocr_enabled eng = false ->
        analyze_batch eng image_paths
        = Ok (analyze_batch_semantics eng image_paths)).
Proof.
  intros eng paths. split; [| split; [| split]].
  - unfold analyze_batch. intros e H.
    destruct (ocr_enabled eng); [| discriminate].
    destruct (ocr_reader_loads eng); [discriminate |].
    inversion H. repeat split.
  - intros He Hr. unfold analyze_batch. rewrite He, Hr. reflexivity.
  - intros results H. split; [exact (analyze_batch_length eng paths results H) |].
    intros idx p Hp.
    rewrite (analyze_batch_ok_rows eng paths results H).
    destruct (analyze_batch_semantics_map eng paths) as [f Hf]. rewrite Hf.
    exists (f p). split; [rewrite nth_error_map, Hp; reflexivity |].
    replace (combine (map f paths) paths) with (map (fun q => (f q, q)) paths).
    + rewrite map_map, nth_error_map, Hp. reflexivity.
    + rewrite <- (map_id paths) at 3. rewrite combine_map_map. reflexivity.
  - intros He.
    destruct (analyze_batch_returns eng paths) as [results H];
      [intros F; congruence |].
    rewrite H. f_equal. rewrite (analyze_batch_ok_rows eng paths results H).
    destruct (analyze_batch_semantics_map eng paths) as [f Hf]. rewrite Hf.
    replace (combine (map f paths) paths) with (map (fun q => (f q, q)) paths).
    + rewrite map_map. apply map_ext. intros q.
      rewrite (analyze_image_text_disabled eng q He). apply app_nil_r.
    + rewrite <- (map_id paths) at 3. rewrite combine_map_map. reflexivity.
Qed.

Lemma analyze_batch_merges_results_witness :
  nth_error [[clip_item "car" 0.75%float]; []] 0
  = Some ([clip_item "car" 0.75%float]
          ++ analyze_image_text sample_engine "/photos/race/a.jpg").
Proof.
  destruct (proj2 (proj1 (proj2 (proj2
              (analyze_batch_merges_results sample_engine
                 ["/photos/race/a.jpg"; "/photos/race/b.jpg"])))
              [[clip_item "car" 0.75%float]; []] eq_refl)
              0%nat "/photos/race/a.jpg" eq_refl)
    as [clip [Hc Hr]].
  vm_compute in Hc. inversion Hc; subst clip. exact Hr.
Defined.

Section Stripping.

Variable t : pystr.Tables.

Lemma rstrip_idem (s : pystr.str) :
  pystr.rstrip t (pystr.rstrip t s) = pystr.rstrip t s.
Proof.
  induction s as [|c r IH]; [reflexivity |]. cbn [pystr.rstrip].
  destruct (pystr.rstrip t r) as [|d r'] eqn:E.
  - destruct (pystr.isspace_cp t c) eqn:Ec; [reflexivity |].
    cbn [pystr.rstrip]. rewrite Ec. reflexivity.
  - cbn [pystr.rstrip] in *. rewrite IH. reflexivity.
Qed.

Lemma rstrip_head (c : N) (r : pystr.str) :
  pystr.isspace_cp t c = false ->
  exists r', pystr.rstrip t (c :: r) = c :: r'.
Proof.
  intros Hc. cbn [pystr.rstrip]. destruct (pystr.rstrip t r).
  - rewrite Hc. eexists. reflexivity.
  - eexists. reflexivity.
Qed.

Lemma lstrip_cases (s : pystr.str) :
  pystr.lstrip t s = []
  \/ exists c r, pystr.lstrip t s = c :: r /\ pystr.isspace_cp t c = false.
Proof.
  induction s as [|c r IH]; [left; reflexivity |]. cbn [pystr.lstrip].
  destruct (pystr.isspace_cp t c) eqn:Ec; [exact IH |].
  right. exists c, r. split; [reflexivity | exact Ec].
Qed.

Lemma strip_idem (s : pystr.str) :
  pystr.strip t (pystr.strip t s) = pystr.strip t s.
Proof.
  unfold pystr.strip.
  destruct (lstrip_cases s) as [E | (c & r & E & Hc)]; rewrite E.
  - reflexivity.
  - destruct (rstrip_head c r Hc) as [r' Er]. rewrite Er.
    cbn [pystr.lstrip]. rewrite Hc. rewrite <- Er. apply rstrip_idem.
Qed.

Lemma encode_nonempty (s : pystr.str) :
  s <> [] -> utf8.encode s <> EmptyString.
Proof.
  destruct s as [| c r]; [congruence |]. intros _.
  unfold utf8.encode. cbn [flat_map]. unfold utf8.encode_char.
  destruct (c <? 128)%N; [cbn; discriminate |].
  destruct (c <? 2048)%N; [cbn; discriminate |].
  destruct (c <? 65536)%N; cbn; discriminate.
Qed.

(** What a candidate of the recognizer looks like. *)
Lemma classified_shape (text : pystr.str) (items : list TagItem)
      (item : TagItem) :
  classify_text t text = Ok items -> In item items ->
  items = [item]
  /\ ti_source item = "ai_ocr"
  /\ (ti_category item = "number" \/ ti_category item = "text")
  /\ ti_name item = utf8.encode (pystr.strip t text)
  /\ pystr.strip t text <> []
  /\ ti_name item <> EmptyString.
Proof.
  intros E Hin.
  assert (Hne : pystr.strip t text <> []).
  { intros F.
    destruct (classify_cases t text)
      as [[E' Hn] | [(E' & _ & Hl & _) | [[E' _] | [E' _]]]];
      rewrite E' in E; inversion E; subst items.
    - unfold is_number in Hn. rewrite F in Hn. discriminate Hn.
    - rewrite F in Hl. unfold pystr.len in Hl. cbn in Hl. lia.
    - destruct Hin. }
  destruct (classified_item t text items item E Hin) as [Hone [-> | ->]];
    (split; [exact Hone |]); cbn [ti_source ti_category ti_name];
    (split; [reflexivity |]).
  - split; [left; reflexivity |]. split; [reflexivity |].
    split; [exact Hne | exact (encode_nonempty _ Hne)].
  - split; [right; reflexivity |]. split; [reflexivity |].
    split; [exact Hne | exact (encode_nonempty _ Hne)].
Qed.

(** The loop goes through a prefix of the fragments, one round each. *)
Lemma classify_texts_rounds (texts : list pystr.str) :
  exists read unread picks,
    texts = read ++ unread
    /\ Forall2 (fun text items => classify_text t text = Ok items) read picks
    /\ classify_texts t texts [] = List.concat picks
    /\ (unread = []
        \/ exists text rest,
             unread = text :: rest
             /\ classify_text t text = Raise ValueError).
Proof.
  induction texts as [| text texts IH].
  - exists [], [], []. repeat split; [constructor | left; reflexivity].
  - destruct (classify_text t text) as [items | e] eqn:E.
    + destruct IH as (read & unread & picks & Ht & Hf & Hc & Hu).
      exists (text :: read), unread, (items :: picks).
      split; [rewrite Ht; reflexivity |].
      split; [constructor; assumption |].
      split; [| exact Hu].
      cbn [classify_texts List.concat]. rewrite E, classify_texts_acc, Hc.
      reflexivity.
    + exists [], (text :: texts), [].
      split; [reflexivity |]. split; [constructor |].
      split; [cbn [classify_texts List.concat]; rewrite E; reflexivity |].
      right. exists text, texts. split; [reflexivity |].
      destruct (classify_cases t text) as [[E' _] | [[E' _] | [[E' _] | [E' _]]]];
        congruence.
Qed.

(** Every candidate of the loop is the candidate of one fragment. *)
Lemma classify_texts_in (texts : list pystr.str) (item : TagItem) :
  In item (classify_texts t texts []) ->
  exists text items,
    In text texts /\ classify_text t text = Ok items /\ In item items.
Proof.
  intros Hin.
  destruct (classify_texts_rounds texts)
    as (read & unread & picks & Ht & Hf & Hc & _).
  rewrite Hc in Hin. apply in_concat in Hin.
  destruct Hin as (items & Hitems & Hin).
  assert (Hsrc : exists text, In text read /\ classify_text t text = Ok items).
  { clear - Hf Hitems. induction Hf as [| x y l l' Hxy _ IH];
      [destruct Hitems |].
    destruct Hitems as [<- | Hitems].
    - exists x. split; [left; reflexivity | exact Hxy].
    - destruct (IH Hitems) as (text & Hi & E).
      exists text. split; [right; exact Hi | exact E]. }
  destruct Hsrc as (text & Hread & E).
  exists text, items. split; [| split; assumption].
  rewrite Ht. apply in_or_app. left. exact Hread.
Qed.

End Stripping.

(** X12.  Whatever the recognizer returns for an image, the loop goes
    through its fragments in order, up to the first on which [int]
    raises, and makes of each at most one candidate; the candidates of
    the image are these, in order.  Each has source "ai_ocr", category
    "number" or "text", and as its name the stripped fragment: the name
    is never empty, and the fragment it encodes has no white space at
    either end.  With the recognizer disabled, unavailable or raising
    there are none. *)
Theorem ocr_candidates_are_clean :
  forall (eng : Engine) (image_path : string),
    (forall item,
       In item (analyze_image_text eng image_path) ->
       ti_source item = "ai_ocr"
       /\ (ti_category item = "number" \/ ti_category item = "text")
       /\ ti_name item <> EmptyString
       /\ exists texts text,
            readtext eng image_path = Some texts /\ In text texts
            /\ ti_name item = utf8.encode (pystr.strip (tables eng) text)
            /\ pystr.strip (tables eng) text <> []
            /\ stripped (tables eng) (pystr.strip (tables eng) text))
    /\ (forall texts,
          ocr_enabled eng = true -> ocr_reader_loads eng = true ->
          readtext eng image_path = Some texts ->
          exists read unread picks,
            texts = read ++ unread
            /\ Forall2 (fun text items =>
                          classify_text (tables eng) text = Ok items
                          /\ (items = []
                              \/ items
                                 = [number_item (pystr.strip (tables eng) text)]
                              \/ items
                                 = [text_item (pystr.strip (tables eng) text)]))
                       read picks
            /\ analyze_image_text eng image_path = List.concat picks
            /\ (unread = []
                \/ exists text rest,
                     unread = text :: rest
                     /\ classify_text (tables eng) text = Raise ValueError))
    /\ (ocr_enabled eng = false \/ ocr_reader_loads eng = false
        \/ readtext eng image_path = None ->
        analyze_image_text eng image_path = []).
Proof.
  intros eng p. split; [| split].
  - unfold analyze_image_text. intros item Hin.
    destruct (ocr_enabled eng); [| destruct Hin].
    destruct (ocr_reader_loads eng); [| destruct Hin]. cbn [negb] in Hin.
    destruct (readtext eng p) as [texts|]; [| destruct Hin].
    destruct (classify_texts_in (tables eng) texts item Hin)
      as (text & items & Hread & E & Hitem).
    destruct (classified_shape (tables eng) text items item E Hitem)
      as (_ & Hs & Hcat & Hname & Hne & Hnn).
    split; [exact Hs |]. split; [exact Hcat |]. split; [exact Hnn |].
    exists texts, text. split; [reflexivity |]. split; [exact Hread |].
    split; [exact Hname |]. split; [exact Hne |]. apply strip_idem.
  - intros texts He Hr Ht. unfold analyze_image_text.
    rewrite He, Hr, Ht. cbn [negb].
    destruct (classify_texts_rounds (tables eng) texts)
      as (read & unread & picks & Hsplit & Hf & Hc & Hu).
    exists read, unread, picks. split; [exact Hsplit |].
    split; [| split; [exact Hc | exact Hu]].
    clear - Hf. induction Hf as [| x y l l' Hxy _ IH]; constructor;
      [| exact IH].
    split; [exact Hxy |].
    destruct (classify_cases (tables eng) x)
      as [[E' _] | [[E' _] | [[E' _] | [E' _]]]];
      rewrite E' in Hxy; inversion Hxy; auto.
  - unfold analyze_image_text. intros [H | [H | H]]; rewrite H;
      [reflexivity | |].
    + destruct (ocr_enabled eng); reflexivity.
    + destruct (ocr_enabled eng); [| reflexivity].
      destruct (ocr_reader_loads eng); reflexivity.
Qed.

Lemma ocr_candidates_are_clean_witness :
  let eng := reading_engine [text_of " 42 "; text_of "pit lane";
                             text_of "STOP"; [178%N]; text_of "FINISH"] in
  analyze_image_text eng "/photos/race/a.jpg"
  = [number_item (text_of "42"); text_item (text_of "STOP")]
  /\ exists read unread picks,
       [text_of " 42 "; text_of "pit lane"; text_of "STOP"; [178%N];
        text_of "FINISH"] = read ++ unread
       /\ List.length read = List.length picks
       /\ analyze_image_text eng "/photos/race/a.jpg" = List.concat picks.
Proof.
  intros eng. split; [reflexivity |].
  destruct (proj1 (proj2 (ocr_candidates_are_clean eng "/photos/race/a.jpg"))
              _ eq_refl eq_refl eq_refl)
    as (read & unread & picks & Hs & Hf & Hc & _).
  exists read, unread, picks. split; [exact Hs |].
  split; [exact (Forall2_length Hf) | exact Hc].
Defined.

(** ** The worker's batches *)

Section Batches.

Context {A : Type}.

Lemma firstn_plus (a b : nat) (l : list A) :
  firstn (a + b) l = firstn a l ++ firstn b (skipn a l).
Proof.
  revert l. induction a as [|a IH]; intros l; [reflexivity |].
  destruct l as [|x l]; simpl.
  - rewrite firstn_nil. reflexivity.
  - rewrite IH. reflexivity.
Qed.

Lemma batches_prefix (worklist : list A) (n : nat) :
  List.concat (map (fun i => firstn BATCH_SIZE (skipn i worklist))
              (map (fun k => (k * BATCH_SIZE)%nat) (seq 0 n)))
  = firstn (n * BATCH_SIZE) worklist.
Proof.
  induction n as [|n IH]; [reflexivity |].
  rewrite seq_S, !map_app, concat_app, IH. cbn [map List.concat].
  rewrite app_nil_r, Nat.add_0_l.
  replace (S n * BATCH_SIZE)%nat with (n * BATCH_SIZE + BATCH_SIZE)%nat by lia.
  symmetry. apply firstn_plus.
Qed.

Lemma fold_left_over_map {S B : Type} (f : B -> S -> S) (g : nat -> B)
      (starts : list nat) :
  forall s : S,
    fold_left (fun s' i => f (g i) s') starts s
    = fold_left (fun s' b => f b s') (map g starts) s.
Proof.
  induction starts as [|i starts IH]; intros s; [reflexivity |].
  cbn [fold_left map]. apply IH.
Qed.

End Batches.

(** X13.  The batch loop cuts the worklist into consecutive batches:
    put end to end they are the worklist, every element once and in
    order; each batch has between one and [BATCH_SIZE] elements, and
    there are as many batches as the length divided by [BATCH_SIZE],
    rounded up. *)
Theorem batches_partition_worklist :
  forall (A : Type) (worklist : list A),
    List.concat (batches_of worklist) = worklist
    /\ Forall (fun batch => (1 <= List.length batch <= BATCH_SIZE)%nat)
              (batches_of worklist)
    /\ List.length (batches_of worklist)
       = ((List.length worklist + BATCH_SIZE - 1) / BATCH_SIZE)%nat
    /\ (forall eng s,
          run_ai_processing_task eng s
          = if (List.length (fetch_worklist (committed s)) =? 0)%nat then s
            else fold_left (fun s' batch => process_batch eng batch s')
                           (batches_of (fetch_worklist (committed s))) s).
Proof.
  intros A wl.
  pose proof (Nat.div_mod_eq (List.length wl + BATCH_SIZE - 1) BATCH_SIZE) as E.
  pose proof (Nat.mod_upper_bound (List.length wl + BATCH_SIZE - 1) BATCH_SIZE) as U.
  split; [| split; [| split]].
  - unfold batches_of, range_step. rewrite batches_prefix.
    apply firstn_all2. unfold BATCH_SIZE in *. lia.
  - unfold batches_of, range_step. rewrite Forall_forall. intros b Hb.
    apply in_map_iff in Hb. destruct Hb as [i [<- Hi]].
    apply in_map_iff in Hi. destruct Hi as [k [<- Hk]].
    apply in_seq in Hk. rewrite length_firstn, length_skipn.
    unfold BATCH_SIZE in *. lia.
  - unfold batches_of, range_step. rewrite !length_map, length_seq. reflexivity.
  - intros eng s. unfold run_ai_processing_task, batches_of.
    destruct (List.length (fetch_worklist (committed s)) =? 0)%nat;
      [reflexivity |].
    apply fold_left_over_map.
Qed.

Lemma batches_partition_worklist_witness :
  batches_of (seq 0 19)
  = [seq 0 8; seq 8 8; seq 16 3]
  /\ List.concat (batches_of (seq 0 19)) = seq 0 19.
Proof.
  split; [reflexivity |].
  exact (proj1 (batches_partition_worklist nat (seq 0 19))).
Defined.

(** ** Consistency of the store under the worker *)

Section WorkerConsistency.

Lemma tag_step_refl (ok_id : Z -> Prop) (db : DB) : tag_step ok_id db db.
Proof.
  split; [trivial |]. split; [trivial |]. intros l Hl. left. exact Hl.
Qed.

Lemma tag_step_same (ok_id : Z -> Prop) (db db' : DB) :
  tags db' = tags db -> links db' = links db -> tag_step ok_id db db'.
Proof.
  intros Ht Hl. unfold tag_step, unique_tag_names. rewrite Ht, Hl.
  split; [trivial |]. split; [trivial |]. intros l H. left. exact H.
Qed.

Lemma tag_step_trans (ok_id : Z -> Prop) (a b c : DB) :
  tag_step ok_id a b -> tag_step ok_id b c -> tag_step ok_id a c.
Proof.
  intros (U1 & T1 & L1) (U2 & T2 & L2). split; [auto |]. split; [auto |].
  intros l Hl. destruct (L2 l Hl) as [Hb | Hnew]; [| right; exact Hnew].
  destruct (L1 l Hb) as [Ha | [[t [Ht Et]] Hok]]; [left; exact Ha |].
  right. split; [| exact Hok]. exists t. split; [apply T2; exact Ht | exact Et].
Qed.

Lemma find_or_create_tag_step (ok_id : Z -> Prop) (item : TagItem) (s : State) :
  exists s1 tag,
    find_or_create_tag item s = (s1, Ok tag)
    /\ In tag (tags (working s1))
    /\ links (working s1) = links (working s)
    /\ tag_step ok_id (working s) (working s1).
Proof.
  unfold find_or_create_tag. unfold bind at 1. unfold exec at 1.
  destruct (select_tag_by_name (working s) (ti_name item)) as [t|] eqn:Et.
  - exists s, t. split; [reflexivity |].
    unfold select_tag_by_name in Et. apply find_some in Et.
    split; [exact (proj1 Et) |]. split; [reflexivity | apply tag_step_refl].
  - unfold bind, add, insert_tag.
    unfold select_tag_by_name in Et. pose proof (find_none_existsb _ _ Et) as Ex.
    rewrite Ex. simpl. eexists. eexists. split; [reflexivity |].
    cbn [working tags links].
    split; [apply in_or_app; right; left; reflexivity |].
    split; [reflexivity |].
    split; [| split].
    + unfold unique_tag_names. cbn [tags]. intros Hu.
      apply NoDup_snoc_key; [exact Hu |]. simpl.
      apply (existsb_key_false tag_name String.eqb String.eqb_eq). exact Ex.
    + cbn [tags]. intros t Ht. apply in_or_app. left. exact Ht.
    + cbn [links]. intros l Hl. left. exact Hl.
Qed.

Lemma persist_tag_item_step (ok_id : Z -> Prop) (img_id : Z) (item : TagItem)
      (s : State) :
  ok_id img_id ->
  exists s',
    persist_tag_item img_id item s = (s', Ok tt)
    /\ tag_step ok_id (working s) (working s').
Proof.
  intros Hok.
  destruct (find_or_create_tag_step ok_id item s) as (s1 & tag & E & Hin & Hl & Hstep).
  unfold persist_tag_item. rewrite (bind_ok _ _ s s1 tag E).
  unfold bind at 1. unfold exec at 1.
  destruct (select_link (working s1) img_id (tag_id tag)) as [l|] eqn:El.
  - exists s1. split; [reflexivity | exact Hstep].
  - unfold add. rewrite insert_link_accepts.
    + eexists. split; [reflexivity |]. cbn [working].
      apply (tag_step_trans ok_id _ (working s1)); [exact Hstep |].
      split; [trivial |]. split; [cbn [tags]; trivial |].
      cbn [links tags]. intros l Hl'. apply in_app_or in Hl'.
      destruct Hl' as [H | [<- | []]]; [left; exact H |].
      right. split; [| exact Hok]. exists tag. split; [exact Hin | reflexivity].
    + apply link_absent_iff. apply find_none_existsb. exact El.
Qed.

Lemma persist_tags_step (ok_id : Z -> Prop) (img_id : Z) (tags_data : list TagItem) :
  ok_id img_id ->
  forall s : State,
  exists s',
    persist_tags img_id tags_data s = (s', Ok tt)
    /\ tag_step ok_id (working s) (working s').
Proof.
  intros Hok. induction tags_data as [|item rest IH]; intros s.
  - exists s. split; [reflexivity | apply tag_step_refl].
  - destruct (persist_tag_item_step ok_id img_id item s Hok) as [s1 [E1 H1]].
    destruct (IH s1) as [s' [E' H']].
    exists s'. cbn [persist_tags]. rewrite (bind_ok _ _ s s1 tt E1).
    split; [exact E' | exact (tag_step_trans _ _ _ _ H1 H')].
Qed.

Lemma persist_image_step (ok_id : Z -> Prop) (batch_images : list Image)
      (batch_results : list (list TagItem)) (idx : nat) (img_id : Z) (s : State) :
  (forall i, In i batch_images -> ok_id (image_id i)) ->
  (idx < List.length batch_results)%nat ->
  exists s',
    persist_image batch_images batch_results idx img_id s = (s', Ok tt)
    /\ tag_step ok_id (working s) (working s').
Proof.
  intros Hok Hidx. unfold persist_image.
  destruct (find (fun i => image_id i =? img_id) batch_images) as [img|] eqn:Ef.
  2:{ exists s. split; [reflexivity | apply tag_step_refl]. }
  apply find_some in Ef. destruct Ef as [Hin _].
  destruct (nth_error batch_results idx) as [tags_data|] eqn:En.
  2:{ apply nth_error_None in En. lia. }
  destruct tags_data as [|item rest].
  - eexists. split; [reflexivity |]. apply tag_step_same; reflexivity.
  - destruct (persist_tags_step ok_id (image_id img) (item :: rest)
                (Hok img Hin) s) as [s1 [E1 H1]].
    rewrite (bind_ok _ _ s s1 tt E1). eexists. split; [reflexivity |].
    apply (tag_step_trans ok_id _ (working s1)); [exact H1 |].
    apply tag_step_same; reflexivity.
Qed.

Lemma persist_images_step (ok_id : Z -> Prop) (batch_images : list Image)
      (batch_results : list (list TagItem)) (batch_tuples : list (Z * string)) :
  (forall i, In i batch_images -> ok_id (image_id i)) ->
  forall (idx : nat) (s : State),
    (idx + List.length batch_tuples <= List.length batch_results)%nat ->
    exists s',
      persist_images batch_images batch_results idx batch_tuples s = (s', Ok tt)
      /\ tag_step ok_id (working s) (working s').
Proof.
  intros Hok. induction batch_tuples as [|[img_id p] rest IH]; intros idx s Hlen.
  - exists s. split; [reflexivity | apply tag_step_refl].
  - cbn [List.length] in Hlen.
    destruct (persist_image_step ok_id batch_images batch_results idx img_id s Hok)
      as [s1 [E1 H1]]; [lia |].
    destruct (IH (S idx) s1) as [s' [E' H']]; [lia |].
    exists s'. cbn [persist_images]. rewrite (bind_ok _ _ s s1 tt E1).
    split; [exact E' | exact (tag_step_trans _ _ _ _ H1 H')].
Qed.

Lemma save_results_step (batch_tuples : list (Z * string))
      (batch_results : list (list TagItem)) (s : State) :
  (List.length batch_tuples <= List.length batch_results)%nat ->
  exists s',
    save_results batch_tuples batch_results s = (s', Ok tt)
    /\ tag_step (fun id => exists i, In i (images (working s)) /\ image_id i = id)
                (working s) (working s').
Proof.
  intros Hlen. unfold save_results. unfold bind at 1. unfold exec at 1.
  set (ok_id := fun id => exists i, In i (images (working s)) /\ image_id i = id).
  set (batch_images :=
         filter (fun i => existsb (Z.eqb (image_id i)) (map fst batch_tuples))
                (images (working s))).
  assert (Hok : forall i, In i batch_images -> ok_id (image_id i)).
  { intros i Hi. apply filter_In in Hi. exists i. split; [tauto | reflexivity]. }
  destruct (persist_images_step ok_id batch_images batch_results batch_tuples
              Hok 0%nat s) as [s1 [E H]]; [simpl; lia |].
  rewrite (bind_ok _ _ s s1 tt E). unfold commit.
  eexists. split; [reflexivity |]. cbn [working]. exact H.
Qed.

Lemma resolve_after_step (old new : DB) :
  tag_step (fun id => exists i, In i (images old) /\ image_id i = id) old new ->
  flags_grow (images old) (images new) ->
  (unique_tag_names old -> unique_tag_names new)
  /\ (links_resolve old -> links_resolve new).
Proof.
  intros (U & T & L) Hg. split; [exact U |].
  intros Hr l Hl.
  assert (Himg : forall id, (exists i, In i (images old) /\ image_id i = id) ->
                            exists i, In i (images new) /\ image_id i = id).
  { intros id [i [Hi Eid]]. destruct (flags_grow_image _ _ i Hg Hi) as [i' [Hi' E']].
    exists i'. split; [exact Hi' | congruence]. }
  destruct (L l Hl) as [Hold | [Htag Hok]].
  - destruct (Hr l Hold) as [[t [Ht Et]] Hi]. split.
    + exists t. split; [apply T; exact Ht | exact Et].
    + apply Himg. exact Hi.
  - split; [exact Htag | apply Himg; exact Hok].
Qed.

Lemma process_batch_consistent (eng : Engine) (batch_tuples : list (Z * string))
      (s : State) :
  (unique_tag_names (committed s) ->
   unique_tag_names (committed (process_batch eng batch_tuples s)))
  /\ (links_resolve (committed s) ->
      links_resolve (committed (process_batch eng batch_tuples s))).
Proof.
  unfold process_batch.
  destruct (analyze_batch eng (map snd batch_tuples)) as [results|e] eqn:Ha;
    [| split; trivial].
  pose proof (analyze_batch_length _ _ _ Ha) as Hlen. rewrite length_map in Hlen.
  unfold with_session.
  destruct (save_results_step batch_tuples results (close s)) as [s1 [E1 H1]];
    [lia |].
  destruct (save_results_spec batch_tuples results (close s))
    as [s2 [E2 [Hc [_ [Hg _]]]]]; [lia |].
  assert (s2 = s1) by congruence. subst s2.
  rewrite E1. cbn [fst close committed working] in *. rewrite Hc.
  apply resolve_after_step; assumption.
Qed.

Lemma run_consistent (eng : Engine) (s : State) :
  (unique_tag_names (committed s) ->
   unique_tag_names (committed (run_ai_processing_task eng s)))
  /\ (links_resolve (committed s) ->
      links_resolve (committed (run_ai_processing_task eng s))).
Proof.
  unfold run_ai_processing_task.
  destruct (List.length (fetch_worklist (committed s)) =? 0)%nat;
    [split; trivial |].
  generalize (fetch_worklist (committed s)). intros wl.
  generalize (range_step (List.length wl) BATCH_SIZE). intros starts.
  revert s. induction starts as [|i starts IH]; intros s; cbn [fold_left];
    [split; trivial |].
  destruct (process_batch_consistent eng (firstn BATCH_SIZE (skipn i wl)) s)
    as [U1 R1].
  destruct (IH (process_batch eng (firstn BATCH_SIZE (skipn i wl)) s))
    as [U2 R2].
  split; auto.
Qed.

End WorkerConsistency.

(** X14.  A run of the worker keeps the store consistent: tag names
    that were unique stay unique, since a tag is created only when the
    lookup by name finds none; and if every link pointed at an existing
    tag row and image row before, every link does so afterwards, the
    new ones included. *)
Theorem worker_keeps_store_consistent :
  forall (eng : Engine) (s : State),
    (unique_tag_names (committed s) ->
     unique_tag_names (committed (run_ai_processing_task eng s)))
    /\ (links_resolve (committed s) ->
        links_resolve (committed (run_ai_processing_task eng s)))
    /\ (forall batch_tuples,
          (unique_tag_names (committed s) ->
           unique_tag_names (committed (process_batch eng batch_tuples s)))
          /\ (links_resolve (committed s) ->
              links_resolve (committed (process_batch eng batch_tuples s)))).
Proof.
  intros eng s. destruct (run_consistent eng s) as [U R].
  split; [exact U |]. split; [exact R |].
  intros batch_tuples. apply process_batch_consistent.
Qed.

Lemma worker_keeps_store_consistent_witness :
  links_resolve
    (committed (run_ai_processing_task sample_engine (open_db two_images_db))).
Proof.
  apply (proj1 (proj2 (worker_keeps_store_consistent sample_engine
                         (open_db two_images_db)))).
  intros l [].
Defined.

Section WorkerOrigin.

Lemma clip_results_are_candidates (eng : Engine) (image_paths : list string)
      (items : list TagItem) (item : TagItem) :
  In items (analyze_batch_semantics eng image_paths) ->
  In item items -> candidate eng item.
Proof.
  unfold analyze_batch_semantics. intros Hin Hitem.
  destruct (clip_raises eng image_paths); apply in_map_iff in Hin;
    destruct Hin as [p [<- _]]; [destruct Hitem |].
  destruct (clip_probs eng p) as [probs|]; [| destruct Hitem].
  apply (Permutation_in _ (sort_desc_perm _)) in Hitem.
  destruct (above_threshold_sound eng probs item Hitem) as (H1 & _ & _ & H4 & _).
  left. split; assumption.
Qed.

Lemma ocr_results_are_candidates (eng : Engine) (p : string) (item : TagItem) :
  In item (analyze_image_text eng p) -> candidate eng item.
Proof.
  unfold analyze_image_text. intros Hin.
  destruct (ocr_enabled eng); [| destruct Hin].
  destruct (ocr_reader_loads eng); [| destruct Hin]. simpl in Hin.
  destruct (readtext eng p) as [texts|]; [| destruct Hin].
  destruct (classify_texts_in (tables eng) texts item Hin)
    as (text & items & _ & E & Hitem).
  right.
  destruct (classified_item (tables eng) text items item E Hitem)
    as [_ [-> | ->]]; simpl; split; auto.
Qed.

Lemma analyze_batch_candidates (eng : Engine) (image_paths : list string)
      (batch_results : list (list TagItem)) (items : list TagItem) (item : TagItem) :
  analyze_batch eng image_paths = Ok batch_results ->
  In items batch_results -> In item items -> candidate eng item.
Proof.
  intros Ha Hin Hitem.
  rewrite (analyze_batch_ok_rows eng image_paths batch_results Ha) in Hin.
  apply in_map_iff in Hin. destruct Hin as [[c p] [<- Hcp]].
  apply in_app_or in Hitem. destruct Hitem as [H | H].
  - exact (clip_results_are_candidates eng image_paths c item
             (in_combine_l _ _ _ _ Hcp) H).
  - exact (ocr_results_are_candidates eng p item H).
Qed.

Lemma process_batch_made (eng : Engine) (batch_tuples : list (Z * string))
      (s : State) (l : ImageTagLink) :
  In l (links (committed (process_batch eng batch_tuples s))) ->
  In l (links (committed s)) \/ worker_made eng l.
Proof.
  intros Hl.
  destruct (analyze_batch eng (map snd batch_tuples)) as [results|e] eqn:Ha.
  - destruct (process_batch_spec eng batch_tuples results s Ha) as [_ [_ [Ho _]]].
    destruct (Ho l Hl) as [H | (k & id & p & td & tag & item & _ & Hr & Hit & ->)];
      [left; exact H |].
    right.
    pose proof (analyze_batch_candidates eng _ results td item Ha
                  (nth_error_In _ _ Hr) Hit) as Hc.
    unfold worker_made, new_link. simpl. split; [reflexivity | exact Hc].
  - unfold process_batch in Hl. rewrite Ha in Hl. left. exact Hl.
Qed.

Lemma run_made (eng : Engine) (s : State) (l : ImageTagLink) :
  In l (links (committed (run_ai_processing_task eng s))) ->
  In l (links (committed s)) \/ worker_made eng l.
Proof.
  unfold run_ai_processing_task.
  destruct (List.length (fetch_worklist (committed s)) =? 0)%nat;
    [intros H; left; exact H |].
  generalize (fetch_worklist (committed s)). intros wl.
  generalize (range_step (List.length wl) BATCH_SIZE). intros starts.
  revert s. induction starts as [|i starts IH]; intros s; cbn [fold_left];
    [intros H; left; exact H |].
  intros H. destruct (IH _ H) as [H1 | H1]; [| right; exact H1].
  exact (process_batch_made eng _ s l H1).
Qed.

Lemma process_batch_broken (eng : Engine) (batch_tuples : list (Z * string))
      (s : State) :
  ocr_enabled eng = true -> ocr_reader_loads eng = false ->
  process_batch eng batch_tuples s = s.
Proof.
  intros He Hr. unfold process_batch, analyze_batch. rewrite He, Hr.
  reflexivity.
Qed.

Lemma fetch_worklist_done (db : DB) :
  (forall i, In i (images db) -> is_processed i = true) ->
  fetch_worklist db = [].
Proof.
  unfold fetch_worklist. intros H.
  induction (images db) as [|i l IH]; [reflexivity |]. simpl.
  rewrite (H i (or_introl eq_refl)). simpl. apply IH.
  intros j Hj. apply H. right. exact Hj.
Qed.

Lemma flags_grow_map {B : Type} (f : Image -> B) (old new : list Image) :
  (forall i, f (set_processed i) = f i) ->
  flags_grow old new -> map f new = map f old.
Proof.
  intros Hf [g [-> Hg]]. rewrite map_map. apply map_ext.
  intros i. destruct (Hg i) as [E | E]; rewrite E; [reflexivity | apply Hf].
Qed.

End WorkerOrigin.

(** X15.  Every link that is in the store after a run of the worker
    and was not there before is unverified; it has either source
    "ai_clip" and a confidence strictly above the configured threshold,
    or source "ai_ocr" and confidence 0.90 or 0.80.  The worker writes
    no verified link and no manual one. *)
Theorem worker_links_are_unverified :
  forall (eng : Engine) (s : State) (l : ImageTagLink),
    In l (links (committed (run_ai_processing_task eng s))) ->
    In l (links (committed s))
    \/ (is_verified l = false
        /\ source l <> "manual"
        /\ ((source l = "ai_clip"
             /\ PrimFloat.ltb (clip_threshold eng) (confidence l) = true)
            \/ (source l = "ai_ocr"
                /\ (confidence l = 0.90%float \/ confidence l = 0.80%float)))).
Proof.
  intros eng s l Hl. destruct (run_made eng s l Hl) as [H | [Hv Hs]];
    [left; exact H | right].
  split; [exact Hv |]. split; [| exact Hs].
  destruct Hs as [[E _] | [E _]]; rewrite E; discriminate.
Qed.

Lemma worker_links_are_unverified_witness :
  let l := {| link_image_id := 1; link_tag_id := 1;
              confidence := 0.75%float; source := "ai_clip";
              is_verified := false |} in
  links (committed (run_ai_processing_task sample_engine (open_db two_images_db)))
  = [l]
  /\ (In l (links two_images_db)
      \/ (is_verified l = false
          /\ source l <> "manual"
          /\ ((source l = "ai_clip"
               /\ PrimFloat.ltb (clip_threshold sample_engine) (confidence l)
                  = true)
              \/ (source l = "ai_ocr"
                  /\ (confidence l = 0.90%float \/ confidence l = 0.80%float))))).
Proof.
  intros l. split; [reflexivity |].
  apply (worker_links_are_unverified sample_engine (open_db two_images_db) l).
  left. reflexivity.
Defined.

(** X16.  When the recognizer is enabled and its reader cannot be
    loaded, every batch fails before anything is written: the run
    returns the store as it found it, so each image of the worklist is
    still unprocessed and is taken up again by the next run. *)
Theorem worker_failure_leaves_store :
  forall (eng : Engine) (s : State),
    ocr_enabled eng = true -> ocr_reader_loads eng = false ->
    run_ai_processing_task eng s = s
    /\ fetch_worklist (committed (run_ai_processing_task eng s))
       = fetch_worklist (committed s).
Proof.
  intros eng s He Hr.
  assert (E : run_ai_processing_task eng s = s).
  { assert (F : forall (wl : list (Z * string)) (starts : list nat),
               fold_left (fun s' i =>
                            process_batch eng (firstn BATCH_SIZE (skipn i wl)) s')
                         starts s = s).
    { intros wl starts. induction starts as [|i starts IH]; cbn [fold_left];
        [reflexivity |].
      rewrite (process_batch_broken eng _ s He Hr). exact IH. }
    unfold run_ai_processing_task.
    destruct (List.length (fetch_worklist (committed s)) =? 0)%nat;
      [reflexivity | apply F]. }
  rewrite E. split; reflexivity.
Qed.

Lemma worker_failure_leaves_store_witness :
  run_ai_processing_task broken_engine (open_db two_images_db)
  = open_db two_images_db.
Proof.
  apply (proj1 (worker_failure_leaves_store broken_engine
                  (open_db two_images_db) eq_refl eq_refl)).
Defined.

(** X17.  After a run in which the analyzers could not fail, the
    worklist is empty: a further run, with whatever engine, finds
    nothing to do and returns the store untouched. *)
Theorem worker_second_run_is_noop :
  forall (eng eng' : Engine) (s : State),
    (ocr_enabled eng = true -> ocr_reader_loads eng = true) ->
    fetch_worklist (committed (run_ai_processing_task eng s)) = []
    /\ run_ai_processing_task eng' (run_ai_processing_task eng s)
       = run_ai_processing_task eng s.
Proof.
  intros eng eng' s Hocr.
  assert (E : fetch_worklist (committed (run_ai_processing_task eng s)) = []).
  { apply fetch_worklist_done. apply run_marks_everything. exact Hocr. }
  split; [exact E |].
  unfold run_ai_processing_task at 1. rewrite E. reflexivity.
Qed.

Lemma worker_second_run_is_noop_witness :
  run_ai_processing_task broken_engine
    (run_ai_processing_task sample_engine (open_db two_images_db))
  = run_ai_processing_task sample_engine (open_db two_images_db).
Proof.
  apply (proj2 (worker_second_run_is_noop sample_engine broken_engine
                  (open_db two_images_db) (fun _ => eq_refl))).
Defined.

(** X18.  The worker changes nothing of the image table but the
    processed flag, and that only from false to true: after a run the
    table has the same rows in the same order with the same id,
    fingerprint, path, album and deleted flag, and a row that was
    processed still is. *)
Theorem worker_only_sets_processed :
  forall (eng : Engine) (s : State),
    let s' := run_ai_processing_task eng s in
    map image_id (images (committed s')) = map image_id (images (committed s))
    /\ map file_hash (images (committed s'))
       = map file_hash (images (committed s))
    /\ map path (images (committed s')) = map path (images (committed s))
    /\ map image_album_id (images (committed s'))
       = map image_album_id (images (committed s))
    /\ map is_deleted (images (committed s'))
       = map is_deleted (images (committed s))
    /\ List.length (images (committed s')) = List.length (images (committed s))
    /\ (forall k i i',
          nth_error (images (committed s)) k = Some i ->
          nth_error (images (committed s')) k = Some i' ->
          i' = i \/ (i' = set_processed i))
    /\ (forall k i,
          nth_error (images (committed s)) k = Some i ->
          is_processed i = true ->
          nth_error (images (committed s')) k = Some i).
Proof.
  intros eng s s'.
  destruct (run_ai_processing_task_grows eng s) as [_ Hg]. fold s' in Hg.
  split; [apply flags_grow_map; [reflexivity | exact Hg] |].
  split; [apply flags_grow_map; [reflexivity | exact Hg] |].
  split; [apply flags_grow_map; [reflexivity | exact Hg] |].
  split; [apply flags_grow_map; [reflexivity | exact Hg] |].
  split; [apply flags_grow_map; [reflexivity | exact Hg] |].
  destruct Hg as [g [Eg Hg]]. rewrite Eg.
  split; [apply length_map |]. split.
  - intros k i i' Hi Hi'. rewrite nth_error_map, Hi in Hi'.
    inversion Hi'. exact (Hg i).
  - intros k i Hi Hp. rewrite nth_error_map, Hi. simpl. f_equal.
    destruct (Hg i) as [E | E]; rewrite E; [reflexivity |].
    destruct i; simpl in *. subst. reflexivity.
Qed.

Lemma worker_only_sets_processed_witness :
  map file_hash
      (images (committed (run_ai_processing_task sample_engine
                            (open_db two_images_db))))
  = ["ha"; "hb"].
Proof.
  exact (proj1 (proj2 (worker_only_sets_processed sample_engine
                         (open_db two_images_db)))).
Defined.

(** ** Review decisions *)

Section ReviewDecisions.

Lemma review_tag_approve_store (s : State) (i t : Z) (l : ImageTagLink) :
  select_link (committed s) i t = Some l ->
  review_tag i t "approve" s
  = ({| committed := update_link_approved (committed s) i t;
        working := update_link_approved (committed s) i t;
        thumbnails := thumbnails s |}, Ok "success").
Proof.
  intros H. unfold review_tag, with_session, bind, exec. simpl.
  rewrite H. reflexivity.
Qed.

Lemma review_tag_reject_store (s : State) (i t : Z) (l : ImageTagLink) :
  select_link (committed s) i t = Some l ->
  review_tag i t "reject" s
  = ({| committed := delete_link (committed s) i t;
        working := delete_link (committed s) i t;
        thumbnails := thumbnails s |}, Ok "success").
Proof.
  intros H. unfold review_tag, with_session, bind, exec. simpl.
  rewrite H. reflexivity.
Qed.

Lemma review_tag_missing (s : State) (i t : Z) (action : string) :
  select_link (committed s) i t = None ->
  review_tag i t action s
  = (close s, Raise (HTTPException 404 "Tag link not found")).
Proof.
  intros H. unfold review_tag, with_session, bind, exec. simpl.
  rewrite H. reflexivity.
Qed.

Lemma approved_link_not_selected (db : DB) (i t : Z)
      (link : ImageTagLink) (image : Image) (tag : Tag) :
  In (link, image, tag) (review_rows (update_link_approved db i t)) ->
  link_key_eqb i t link = false.
Proof.
  intros H. apply review_rows_spec in H.
  destruct H as (Hl & _ & _ & _ & _ & Hw).
  unfold update_link_approved in Hl. cbn [links] in Hl.
  apply in_map_iff in Hl. destruct Hl as [l0 [E Hl0]].
  destruct (link_key_eqb i t l0) eqn:K.
  - subst link. unfold review_where, needs_verification in Hw. simpl in Hw.
    discriminate Hw.
  - subst link. exact K.
Qed.

Lemma rejected_link_not_selected (db : DB) (i t : Z)
      (link : ImageTagLink) (image : Image) (tag : Tag) :
  In (link, image, tag) (review_rows (delete_link db i t)) ->
  link_key_eqb i t link = false.
Proof.
  intros H. apply review_rows_spec in H. destruct H as (Hl & _).
  unfold delete_link in Hl. cbn [links] in Hl. apply filter_In in Hl.
  destruct Hl as [_ Hl]. apply negb_true_iff in Hl. exact Hl.
Qed.

Lemma review_item_key (limit : Z) (db : DB) (item : ReviewItem) :
  In item (get_review_items limit db) ->
  exists link image tag,
    In (link, image, tag) (review_rows db)
    /\ ri_image_id item = link_image_id link
    /\ ri_tag_id item = link_tag_id link.
Proof.
  unfold get_review_items. intros H. apply in_map_iff in H.
  destruct H as [[[link image] tag] [<- H]]. apply sql_limit_incl in H.
  exists link, image, tag. split; [exact H |].
  apply review_rows_spec in H. destruct H as (_ & _ & _ & E1 & E2 & _).
  simpl. split; symmetry; assumption.
Qed.

Lemma approved_twice (l : ImageTagLink) : approved (approved l) = approved l.
Proof. reflexivity. Qed.

Lemma update_link_approved_idem (db : DB) (i t : Z) :
  update_link_approved (update_link_approved db i t) i t
  = update_link_approved db i t.
Proof.
  unfold update_link_approved. cbn [links images albums tags]. f_equal.
  rewrite map_map. apply map_ext. intros l.
  destruct (link_key_eqb i t l) eqn:K.
  - assert (K' : link_key_eqb i t (approved l) = true) by exact K.
    rewrite K'. reflexivity.
  - rewrite K. reflexivity.
Qed.

End ReviewDecisions.

(** X19.  Once a link has been approved or rejected, no item for its
    (image, tag) pair is returned by the review query, whatever the
    limit; rows of the query for other links are the same as before,
    and neither decision touches the image or the tag table. *)
Theorem reviewed_link_leaves_queue :
  forall (s : State) (image_id0 tag_id0 : Z) (action : string)
         (link : ImageTagLink),
    select_link (committed s) image_id0 tag_id0 = Some link ->
    action = "approve" \/ action = "reject" ->
    let s' := fst (review_tag image_id0 tag_id0 action s) in
    (forall limit item,
       In item (get_review_items limit (committed s')) ->
       ~ (ri_image_id item = image_id0 /\ ri_tag_id item = tag_id0))
    /\ (forall other image tag,
          link_key_eqb image_id0 tag_id0 other = false ->
          (In (other, image, tag) (review_rows (committed s'))
           <-> In (other, image, tag) (review_rows (committed s))))
    /\ images (committed s') = images (committed s)
    /\ tags (committed s') = tags (committed s).
Proof.
  intros s i t action link Hsel Hact s'.
  assert (Hnot : forall l im tg,
            In (l, im, tg) (review_rows (committed s')) ->
            link_key_eqb i t l = false).
  { intros l im tg H. subst s'. destruct Hact as [-> | ->].
    - rewrite (review_tag_approve_store s i t link Hsel) in H. cbn in H.
      exact (approved_link_not_selected _ i t l im tg H).
    - rewrite (review_tag_reject_store s i t link Hsel) in H. cbn in H.
      exact (rejected_link_not_selected _ i t l im tg H). }
  split; [| split].
  - intros limit item Hin [E1 E2].
    destruct (review_item_key limit _ item Hin) as (l & im & tg & Hrow & K1 & K2).
    pose proof (Hnot l im tg Hrow) as F.
    assert (T : link_key_eqb i t l = true)
      by (apply link_key_eqb_true; split; congruence).
    congruence.
  - intros other image tag K. rewrite !review_rows_spec.
    assert (Hl : In other (links (committed s')) <-> In other (links (committed s))).
    { subst s'. destruct Hact as [-> | ->].
      - rewrite (review_tag_approve_store s i t link Hsel). cbn.
        rewrite in_map_iff. split.
        + intros [l0 [E H0]]. destruct (link_key_eqb i t l0) eqn:K0.
          * subst other. assert (link_key_eqb i t (approved l0) = true) by exact K0.
            congruence.
          * subst other. exact H0.
        + intros H0. exists other. rewrite K. split; [reflexivity | exact H0].
      - rewrite (review_tag_reject_store s i t link Hsel). cbn.
        rewrite filter_In, K. simpl. tauto. }
    assert (Hi : images (committed s') = images (committed s)).
    { subst s'. destruct Hact as [-> | ->];
        [rewrite (review_tag_approve_store s i t link Hsel)
        | rewrite (review_tag_reject_store s i t link Hsel)]; reflexivity. }
    assert (Ht : tags (committed s') = tags (committed s)).
    { subst s'. destruct Hact as [-> | ->];
        [rewrite (review_tag_approve_store s i t link Hsel)
        | rewrite (review_tag_reject_store s i t link Hsel)]; reflexivity. }
    rewrite Hi, Ht, Hl. reflexivity.
  - subst s'. destruct Hact as [-> | ->];
      [rewrite (review_tag_approve_store s i t link Hsel)
      | rewrite (review_tag_reject_store s i t link Hsel)]; split; reflexivity.
Qed.

Lemma reviewed_link_leaves_queue_witness :
  let link := {| link_image_id := 1; link_tag_id := 2;
                 confidence := 0.5%float; source := "ai_clip";
                 is_verified := false |} in
  let s' := fst (review_tag 1 2 "approve" (open_db (crowded_db 3))) in
  select_link (crowded_db 3) 1 2 = Some link
  /\ List.length (get_review_items DEFAULT_LIMIT (crowded_db 3)) = 3%nat
  /\ List.length (get_review_items DEFAULT_LIMIT (committed s')) = 2%nat
  /\ (forall limit item,
        In item (get_review_items limit (committed s')) ->
        ~ (ri_image_id item = 1 /\ ri_tag_id item = 2)).
Proof.
  intros link s'. split; [reflexivity |]. split; [reflexivity |].
  split; [reflexivity |].
  exact (proj1 (reviewed_link_leaves_queue (open_db (crowded_db 3)) 1 2 "approve"
                  link eq_refl (or_introl eq_refl))).
Defined.

(** X20.  Decisions compose as a one-way street: after a reject, any
    further decision on the pair fails with status 404; approving twice
    leaves the store as approving once; and a reject after an approve
    still removes the link. *)
Theorem review_decisions_compose :
  forall (s : State) (image_id0 tag_id0 : Z) (link : ImageTagLink),
    select_link (committed s) image_id0 tag_id0 = Some link ->
    let approved1 := fst (review_tag image_id0 tag_id0 "approve" s) in
    let rejected1 := fst (review_tag image_id0 tag_id0 "reject" s) in
    (forall action,
       review_tag image_id0 tag_id0 action rejected1
       = (rejected1, Raise (HTTPException 404 "Tag link not found")))
    /\ review_tag image_id0 tag_id0 "approve" approved1
       = (approved1, Ok "success")
    /\ (exists s2,
          review_tag image_id0 tag_id0 "reject" approved1 = (s2, Ok "success")
          /\ select_link (committed s2) image_id0 tag_id0 = None).
Proof.
  intros s i t link Hsel approved1 rejected1.
  subst approved1 rejected1.
  rewrite (review_tag_approve_store s i t link Hsel).
  rewrite (review_tag_reject_store s i t link Hsel). cbn [fst].
  split; [| split].
  - intros action. rewrite review_tag_missing.
    + reflexivity.
    + cbn [committed]. apply select_link_after_delete.
  - erewrite review_tag_approve_store.
    + cbn [committed thumbnails]. rewrite update_link_approved_idem. reflexivity.
    + cbn [committed]. rewrite select_link_after_approve, Hsel. reflexivity.
  - erewrite review_tag_reject_store.
    + eexists. split; [reflexivity |]. cbn [committed].
      apply select_link_after_delete.
    + cbn [committed]. rewrite select_link_after_approve, Hsel. reflexivity.
Qed.

Lemma review_decisions_compose_witness :
  snd (review_tag 1 2 "approve"
         (fst (review_tag 1 2 "reject" (open_db (crowded_db 3)))))
  = Raise (HTTPException 404 "Tag link not found").
Proof.
  rewrite (proj1 (review_decisions_compose (open_db (crowded_db 3)) 1 2
                    {| link_image_id := 1; link_tag_id := 2;
                       confidence := 0.5%float; source := "ai_clip";
                       is_verified := false |} eq_refl) "approve").
  reflexivity.
Defined.

(** * The scanner *)

Lemma lower_char_dot (c : ascii) :
  Ascii.eqb (lower_char c) "."%char = Ascii.eqb c "."%char.
Proof.
  destruct c as [[] [] [] [] [] [] [] []]; reflexivity.
Qed.

Lemma rsplit_dot_lower (s : string) :
  rsplit_dot (str_lower s)
  = match rsplit_dot s with
    | Some (stem, ext) => Some (str_lower stem, str_lower ext)
    | None => None
    end.
Proof.
  induction s as [| c rest IH]; [reflexivity |].
  cbn [str_lower rsplit_dot]. rewrite IH.
  destruct (rsplit_dot rest) as [[stem ext] |]; [reflexivity |].
  rewrite lower_char_dot. destruct (Ascii.eqb c "."%char); reflexivity.
Qed.

Lemma rsplit_dot_free (s : string) :
  dot_free s -> rsplit_dot s = None.
Proof.
  unfold dot_free. induction s as [| c rest IH]; [reflexivity |].
  cbn [pystr.any_char rsplit_dot]. intros H.
  apply orb_false_iff in H. destruct H as [Hc Hr].
  rewrite (IH Hr). unfold is_dot in Hc. rewrite Hc. reflexivity.
Qed.

(** A name ends with an extension exactly when the extension is what
    follows its last dot. *)
Lemma endswith_extension (e s : string) :
  dot_free e ->
  str_endswith (String "."%char e) s
  = match rsplit_dot s with
    | Some (_, ext) => String.eqb (String "."%char e) ext
    | None => false
    end.
Proof.
  intros He. induction s as [| c rest IH]; [reflexivity |].
  cbn [str_endswith rsplit_dot]. rewrite IH.
  destruct (rsplit_dot rest) as [[stem ext] |] eqn:E.
  - destruct (String.eqb_spec (String "."%char e) (String c rest)) as [Heq | _];
      [| reflexivity].
    injection Heq as _ Hrest. subst rest.
    rewrite (rsplit_dot_free e He) in E. discriminate.
  - destruct (Ascii.eqb c "."%char) eqn:Ec.
    + apply orb_false_r.
    + rewrite orb_false_r. cbn [String.eqb].
      rewrite Ascii.eqb_sym, Ec. reflexivity.
Qed.

Lemma rsplit_slash_free (s : string) :
  slash_free s -> posixpath.rsplit s = (EmptyString, s).
Proof.
  unfold slash_free. induction s as [| c rest IH]; [reflexivity |].
  cbn [pystr.any_char posixpath.rsplit]. intros H.
  apply orb_false_iff in H. destruct H as [Hc Hr].
  rewrite (IH Hr), Hc. reflexivity.
Qed.

Lemma visible_stem (file stem ext : string) :
  rsplit_dot file = Some (stem, ext) ->
  startswith_dot file = false ->
  pystr.any_char (fun c => negb (Ascii.eqb c "."%char)) stem = true.
Proof.
  destruct file as [| c rest]; [discriminate |].
  cbn [rsplit_dot startswith_dot]. intros E Hd.
  destruct (rsplit_dot rest) as [[a b] |].
  - injection E as <- _. cbn [pystr.any_char]. rewrite Hd. reflexivity.
  - rewrite Hd in E. discriminate.
Qed.

Lemma walk_spec (abspath : string -> string) (n : scanner.Node) :
  forall root path,
    In path (scanner.walk abspath root n) <->
    exists file p,
      visible_file n root file p
      /\ scanner.accepts file = true
      /\ path = abspath p.
Proof.
  induction n as [file | d entries IH] using Node_forall_ind; intros root path.
  - split; [intros [] |]. intros (file0 & p & V & _). inversion V.
  - rewrite Forall_forall in IH. cbn [scanner.walk].
    rewrite in_app_iff, !in_flat_map. split.
    + intros [(e & He & Hin) | (e & He & Hin)].
      * destruct e as [file | sub es]; [| destruct Hin].
        destruct (scanner.accepts file) eqn:Ha; [| destruct Hin].
        destruct Hin as [<- | []].
        exists file, (os_path_join root file).
        split; [apply visible_here; exact He |]. split; [exact Ha | reflexivity].
      * destruct e as [file | sub es]; [destruct Hin |].
        destruct (startswith_dot sub) eqn:Hd; [destruct Hin |].
        apply (IH _ He) in Hin. destruct Hin as (file & p & V & Ha & ->).
        exists file, p. split; [| split; [exact Ha | reflexivity]].
        exact (visible_below d entries root sub es file p He Hd V).
    + intros (file & p & V & Ha & ->). inversion V; subst.
      * left. exists (scanner.File file). split; [assumption |].
        rewrite Ha. left. reflexivity.
      * right. exists (scanner.Dir sub subentries). split; [assumption |].
        match goal with H : startswith_dot sub = false |- _ => rewrite H end.
        apply (IH (scanner.Dir sub subentries)); [assumption |].
        exists file, p. split; [assumption |]. split; [exact Ha | reflexivity].
Qed.

Lemma accepts_spec (file : string) :
  scanner.accepts file = true <->
  startswith_dot file = false
  /\ In (str_lower (snd (os_path_splitext file))) scanner.SUPPORTED_EXTENSIONS.
Proof.
  unfold scanner.accepts. rewrite andb_true_iff, negb_true_iff, existsb_exists.
  split.
  - intros [Hd (e & He & Heq)]. apply String.eqb_eq in Heq. subst e.
    split; assumption.
  - intros [Hd Hin]. split; [exact Hd |].
    exists (str_lower (snd (os_path_splitext file))).
    split; [exact Hin | apply String.eqb_refl].
Qed.

(** X21.  The scanner returns exactly the absolute paths of the files
    that can be reached from the root without passing through a
    directory whose name starts with a dot, whose own name does not
    start with a dot, and whose extension, in lower case, is one of
    the four supported ones; a root that does not exist gives none. *)
Theorem scanner_finds_visible_images :
  forall (abspath : string -> string) (lookup : string -> option scanner.Node)
         (root_path path : string),
    In path (scanner.list_image_files abspath lookup root_path) <->
    exists n file p,
      lookup root_path = Some n
      /\ visible_file n root_path file p
      /\ startswith_dot file = false
      /\ In (str_lower (snd (os_path_splitext file))) scanner.SUPPORTED_EXTENSIONS
      /\ path = abspath p.
Proof.
  intros abspath lookup root_path path. unfold scanner.list_image_files.
  destruct (lookup root_path) as [n |].
  - rewrite walk_spec. split.
    + intros (file & p & V & Ha & E). apply accepts_spec in Ha.
      destruct Ha as [Hd Hin]. exists n, file, p. repeat split; assumption.
    + intros (n0 & file & p & En & V & Hd & Hin & E). injection En as <-.
      exists file, p. split; [exact V |]. split; [| exact E].
      apply accepts_spec. split; assumption.
  - split; [intros [] |]. intros (n0 & file & p & En & _). discriminate.
Qed.

Lemma scanner_finds_visible_images_witness :
  let lookup := fun p => if String.eqb p "/photos" then Some holiday_tree
                         else None in
  scanner.list_image_files (fun p => p) lookup "/photos"
  = ["/photos/a.JPG"; "/photos/2024/d.webp"]
  /\ In "/photos/2024/d.webp"
        (scanner.list_image_files (fun p => p) lookup "/photos").
Proof.
  intros lookup. split; [reflexivity |].
  apply (proj2 (scanner_finds_visible_images
                  (fun p => p) lookup "/photos" "/photos/2024/d.webp")).
  exists holiday_tree, "d.webp", "/photos/2024/d.webp".
  split; [reflexivity |]. split.
  - apply (visible_below "photos" _ "/photos" "2024" [scanner.File "d.webp"]
                         "d.webp" "/photos/2024/d.webp").
    + right. right. right. right. left. reflexivity.
    + reflexivity.
    + exact (visible_here "2024" [scanner.File "d.webp"] "/photos/2024"
                          "d.webp" (or_introl eq_refl)).
  - split; [reflexivity |]. split; [| reflexivity].
    right. right. right. left. reflexivity.
Defined.

(** X22.  For a name without a separator, the scanner's test is: the
    name does not start with a dot and, put in lower case, ends with
    one of the supported extensions. *)
Theorem scanner_extension_is_case_insensitive :
  forall file : string,
    slash_free file ->
    scanner.accepts file
    = negb (startswith_dot file)
      && existsb (fun e => str_endswith e (str_lower file))
                 scanner.SUPPORTED_EXTENSIONS.
Proof.
  intros file Hs. unfold scanner.accepts, os_path_splitext.
  rewrite (rsplit_slash_free file Hs).
  destruct (startswith_dot file) eqn:Hd; [reflexivity |].
  cbn [negb andb]. unfold scanner.SUPPORTED_EXTENSIONS. cbn [existsb].
  rewrite !endswith_extension by reflexivity.
  rewrite rsplit_dot_lower.
  destruct (rsplit_dot file) as [[stem ext] |] eqn:E.
  - rewrite (visible_stem file stem ext E Hd). cbn [snd].
    rewrite !(String.eqb_sym (str_lower ext)). reflexivity.
  - reflexivity.
Qed.

Lemma scanner_extension_is_case_insensitive_witness :
  slash_free "Holiday.JPG"
  /\ scanner.accepts "Holiday.JPG"
     = negb (startswith_dot "Holiday.JPG")
       && existsb (fun e => str_endswith e (str_lower "Holiday.JPG"))
                  scanner.SUPPORTED_EXTENSIONS.
Proof.
  split; [reflexivity |].
  apply (scanner_extension_is_case_insensitive "Holiday.JPG"). reflexivity.
Defined.

(** * Archives *)

Lemma replace_absent (old new s : string) :
  str_contains old s = false -> replace_from old new 0 s = s.
Proof.
  induction s as [| c rest IH]; [reflexivity |].
  cbn [str_contains replace_from]. intros H.
  apply orb_false_iff in H. destruct H as [Hp Hr].
  rewrite Hp, (IH Hr). reflexivity.
Qed.

Lemma existsb_eqb_in (x : string) (l : list string) :
  existsb (String.eqb x) l = true <-> In x l.
Proof.
  rewrite existsb_exists. split.
  - intros (y & Hy & E). apply String.eqb_eq in E. subst y. exact Hy.
  - intros H. exists x. split; [exact H | apply String.eqb_refl].
Qed.









(** X24.  The target directory is computed by removing the lower-case
    text [.zip] from the path.  For an archive on disk whose path does
    not contain it, such as one with the extension in capitals, which
    the pre-scan of the import accepts, the target is the archive
    itself: it is reported as already extracted and never opened. *)
Theorem capital_extension_is_never_unpacked :
  forall (zip_extract : string -> list (list string) * bool)
         (zip_path : string) (disk : list string),
    str_contains ".zip" zip_path = false ->
    In zip_path disk ->
    extract_zip_in_place zip_extract zip_path disk = (disk, Some zip_path).
Proof.
  intros m zp disk Hc Hin. unfold extract_zip_in_place, str_replace.
  rewrite (replace_absent ".zip" "" zp Hc).
  apply existsb_eqb_in in Hin. rewrite Hin. reflexivity.
Qed.

Lemma capital_extension_is_never_unpacked_witness :
  is_zip_name "TRIP.ZIP" = true
  /\ extract_zip_in_place (fun _ => ([["a.jpg"]], true)) "/in/TRIP.ZIP"
                          ["/in/TRIP.ZIP"]
     = (["/in/TRIP.ZIP"], Some "/in/TRIP.ZIP").
Proof.
  split; [reflexivity |].
  apply (capital_extension_is_never_unpacked
           (fun _ => ([["a.jpg"]], true)) "/in/TRIP.ZIP" ["/in/TRIP.ZIP"]).
  - reflexivity.
  - left. reflexivity.
Defined.

(** * Managing images, tags and albums *)

Lemma with_session_closed {A : Type} (body : Txn A) (s : State) :
  close (fst (with_session body s)) = fst (with_session body s).
Proof.
  unfold with_session. destruct (body (close s)) as [s1 r]. reflexivity.
Qed.

Lemma find_all_false {A : Type} (p : A -> bool) (l : list A) :
  (forall x, In x l -> p x = false) -> find p l = None.
Proof.
  intros H. destruct (find p l) as [x |] eqn:F; [| reflexivity].
  apply find_some in F. destruct F as [Hin Hp].
  rewrite (H x Hin) in Hp. discriminate.
Qed.

Lemma in_ids_spec (image_ids : list Z) (i : Image) :
  in_ids image_ids i = true <-> In (image_id i) image_ids.
Proof.
  unfold in_ids. rewrite existsb_exists. split.
  - intros (x & Hx & E). apply Z.eqb_eq in E. rewrite E. exact Hx.
  - intros H. exists (image_id i). split; [exact H | apply Z.eqb_refl].
Qed.

Lemma delete_images_batch_store (u : User) (image_ids : list Z) (s : State) :
  delete_images_batch (Some u) image_ids s
  = match image_ids with
    | [] => (close s, Ok Processed0)
    | _ =>
        ({| committed := update_images (mark_listed image_ids) (committed s);
            working := update_images (mark_listed image_ids) (committed s);
            thumbnails := thumbnails s |},
         Ok (BatchDeleted
               (Z.of_nat (List.length (filter (in_ids image_ids)
                                              (images (committed s)))))))
    end.
Proof.
  destruct image_ids; reflexivity.
Qed.

Lemma delete_images_batch_images (u : User) (image_ids : list Z) (s : State) :
  images (committed (fst (delete_images_batch (Some u) image_ids s)))
  = map (mark_listed image_ids) (images (committed s))
  /\ albums (committed (fst (delete_images_batch (Some u) image_ids s)))
     = albums (committed s)
  /\ tags (committed (fst (delete_images_batch (Some u) image_ids s)))
     = tags (committed s)
  /\ links (committed (fst (delete_images_batch (Some u) image_ids s)))
     = links (committed s).
Proof.
  rewrite delete_images_batch_store. destruct image_ids as [| z l].
  - cbn [fst close committed]. split; [| repeat split].
    symmetry. apply map_id.
  - cbn [fst committed update_images images albums tags links]. repeat split.
Qed.

Lemma mark_listed_keeps (image_ids : list Z) (i : Image) :
  image_id (mark_listed image_ids i) = image_id i
  /\ file_hash (mark_listed image_ids i) = file_hash i
  /\ path (mark_listed image_ids i) = path i.
Proof.
  unfold mark_listed. destruct (in_ids image_ids i); repeat split.
Qed.

Lemma listed_rows_deleted (image_ids : list Z) (l : list Image) (i : Image) :
  In i (map (mark_listed image_ids) l) ->
  In (image_id i) image_ids -> is_deleted i = true.
Proof.
  intros Hin Hid. apply in_map_iff in Hin. destruct Hin as (i0 & <- & _).
  unfold mark_listed in *. destruct (in_ids image_ids i0) eqn:E; [reflexivity |].
  apply in_ids_spec in Hid. congruence.
Qed.

(** X25.  A batch deletion is a soft one: no row is removed and no
    fingerprint changes; every row whose id is listed ends with its
    deleted flag set, rows that are not listed stay as they were, and
    albums, tags and links are not touched.  The number answered
    counts the stored rows with a listed id.  Without a user the call
    is refused. *)
Theorem delete_images_batch_marks_listed :
  forall (u : User) (image_ids : list Z) (s : State),
    let out := delete_images_batch (Some u) image_ids s in
    let db := committed s in
    let db' := committed (fst out) in
    snd out
    = Ok (match image_ids with
          | [] => Processed0
          | _ => BatchDeleted
                   (Z.of_nat (List.length
                      (filter (fun i => existsb (Z.eqb (image_id i)) image_ids)
                              (images db))))
          end)
    /\ map image_id (images db') = map image_id (images db)
    /\ map file_hash (images db') = map file_hash (images db)
    /\ (forall i, In i (images db') -> In (image_id i) image_ids ->
                  is_deleted i = true)
    /\ (forall i, In i (images db) -> ~ In (image_id i) image_ids ->
                  In i (images db'))
    /\ albums db' = albums db /\ tags db' = tags db /\ links db' = links db
    /\ delete_images_batch None image_ids s
       = (close s, Raise (HTTPException 401 "Authentication required")).
Proof.
  intros u ids s out db db'. subst out db db'.
  destruct (delete_images_batch_images u ids s) as (Hi & Ha & Ht & Hl).
  rewrite Hi, Ha, Ht, Hl. rewrite !map_map.
  split; [rewrite delete_images_batch_store; destruct ids; reflexivity |].
  split; [apply map_ext; intros i; apply mark_listed_keeps |].
  split; [apply map_ext; intros i; apply mark_listed_keeps |].
  split; [intros i; apply listed_rows_deleted |].
  split; [| repeat split].
  intros i Hin Hnot. apply in_map_iff. exists i. split; [| exact Hin].
  unfold mark_listed. destruct (in_ids ids i) eqn:E; [| reflexivity].
  apply in_ids_spec in E. contradiction.
Qed.

Lemma delete_images_batch_marks_listed_witness :
  snd (delete_images_batch (Some sample_user) [2; 5] (open_db tagged_db))
  = Ok (BatchDeleted 1)
  /\ map is_deleted
         (images (committed (fst (delete_images_batch (Some sample_user) [2; 5]
                                                      (open_db tagged_db)))))
     = [false; true].
Proof.
  split; [| reflexivity].
  exact (proj1 (delete_images_batch_marks_listed
                  sample_user [2; 5] (open_db tagged_db))).
Defined.

Lemma get_image_detail_hidden (image_id0 : Z) (s : State) :
  (forall i, In i (images (committed s)) -> image_id i = image_id0 ->
             is_deleted i = true) ->
  get_image_detail image_id0 s
  = (close s, Raise (HTTPException 404 "Image not found")).
Proof.
  intros H. unfold get_image_detail, with_session, bind, exec.
  cbn [close working committed].
  rewrite find_all_false; [reflexivity |].
  intros i Hin. destruct (image_id i =? image_id0) eqn:E; [| reflexivity].
  apply Z.eqb_eq in E. rewrite (H i Hin E). reflexivity.
Qed.

(** X26.  After a batch deletion, the detail endpoint answers 404 for
    every listed id, and the review queue holds no item of a listed
    image, whatever its limit. *)
Theorem deleted_image_is_hidden :
  forall (u : User) (image_ids : list Z) (s : State) (image_id0 : Z),
    In image_id0 image_ids ->
    let s' := fst (delete_images_batch (Some u) image_ids s) in
    get_image_detail image_id0 s'
    = (s', Raise (HTTPException 404 "Image not found"))
    /\ forall limit item,
         In item (get_review_items limit (committed s')) ->
         ri_image_id item <> image_id0.
Proof.
  intros u ids s id Hid s'.
  destruct (delete_images_batch_images u ids s) as (Hi & _).
  fold s' in Hi. split.
  - rewrite get_image_detail_hidden.
    + subst s'. unfold delete_images_batch.
      rewrite with_session_closed. reflexivity.
    + intros i Hin E. rewrite Hi in Hin.
      apply (listed_rows_deleted ids _ i Hin). rewrite E. exact Hid.
  - intros limit item Hitem E.
    destruct (review_item_key limit _ item Hitem)
      as (link & image & tag & Hrow & K1 & _).
    apply review_rows_spec in Hrow.
    destruct Hrow as (_ & Him & _ & E1 & _ & Hw).
    rewrite Hi in Him.
    assert (Hd : is_deleted image = true).
    { apply (listed_rows_deleted ids _ image Him). congruence. }
    unfold review_where in Hw. rewrite Hd, andb_false_r in Hw. discriminate.
Qed.

Lemma deleted_image_is_hidden_witness :
  let s' := fst (delete_images_batch (Some sample_user) [1] (open_db tagged_db)) in
  get_image_detail 1 s' = (s', Raise (HTTPException 404 "Image not found"))
  /\ forall limit item,
       In item (get_review_items limit (committed s')) -> ri_image_id item <> 1.
Proof.
  apply (deleted_image_is_hidden sample_user [1] (open_db tagged_db) 1).
  left. reflexivity.
Defined.

(** X27.  A deleted image stays deleted: its row keeps the
    fingerprint, so a later import of the same content is skipped and
    the store is left as it is.  The file endpoint does not look at
    the flag and answers as it did before the deletion. *)
Theorem deleted_image_is_not_reingested :
  forall (env : Env) (owner : Z) (u : User) (image_ids : list Z) (s : State)
         (p h : string) (i : Image),
    calculate_file_hash env p = Ok h ->
    select_image_by_hash (committed s) h = Some i ->
    let s' := fst (delete_images_batch (Some u) image_ids s) in
    process_file env owner p s' = (s', Ok Skipped)
    /\ forall os_path_exists image_id0,
         snd (get_image_file os_path_exists image_id0 s')
         = snd (get_image_file os_path_exists image_id0 s).
Proof.
  intros env owner u ids s p h i Hh Hsel s'.
  destruct (delete_images_batch_images u ids s) as (Hi & _).
  fold s' in Hi.
  assert (Hc : close s' = s').
  { subst s'. unfold delete_images_batch. apply with_session_closed. }
  split.
  - apply (process_file_skips env owner p h s' (mark_listed ids i) Hh).
    rewrite <- Hc. cbn [close working].
    unfold select_image_by_hash in *. rewrite Hi.
    rewrite find_map_same.
    + rewrite Hsel. reflexivity.
    + intros x. destruct (mark_listed_keeps ids x) as (_ & -> & _). reflexivity.
  - intros ex id. unfold get_image_file, with_session, bind, exec.
    cbn [close working committed]. unfold select_image_by_id. rewrite Hi.
    rewrite find_map_same.
    + destruct (find (fun i0 => image_id i0 =? id) (images (committed s)))
        as [x |]; [| reflexivity].
      cbn [option_map]. destruct (mark_listed_keeps ids x) as (_ & _ & ->).
      destruct (ex (path x)); reflexivity.
    + intros x. destruct (mark_listed_keeps ids x) as (-> & _). reflexivity.
Qed.

Lemma deleted_image_is_not_reingested_witness :
  let env := sample_env ["/photos/race/a.jpg"] no_writer in
  let s' := fst (delete_images_batch (Some sample_user) [1]
                                     (open_db {| images := [sample_image 1 "JP" false false];
                                                 albums := []; tags := []; links := [] |})) in
  process_file env 1 "/photos/race/a.jpg" s' = (s', Ok Skipped)
  /\ forall os_path_exists image_id0,
       snd (get_image_file os_path_exists image_id0 s')
       = snd (get_image_file os_path_exists image_id0
                (open_db {| images := [sample_image 1 "JP" false false];
                            albums := []; tags := []; links := [] |})).
Proof.
  intros env.
  apply (deleted_image_is_not_reingested env 1 sample_user [1]
           (open_db {| images := [sample_image 1 "JP" false false];
                       albums := []; tags := []; links := [] |})
           "/photos/race/a.jpg" "JP" (sample_image 1 "JP" false false));
    reflexivity.
Defined.

Lemma select_image_by_id_key (db : DB) (id0 : Z) (img : Image) :
  select_image_by_id db id0 = Some img -> image_id img = id0.
Proof.
  intros H. apply find_some in H. destruct H as [_ E].
  apply Z.eqb_eq in E. exact E.
Qed.

Lemma select_link_absent (db : DB) (i t : Z) :
  select_link db i t = None -> ~ In (i, t) (map link_key (links db)).
Proof.
  intros H. apply link_absent_iff. apply find_none_existsb. exact H.
Qed.

Lemma add_image_tag_present (u : User) (id0 : Z) (name0 : string) (s : State)
      (img : Image) (tag : Tag) (l : ImageTagLink) :
  select_image_by_id (committed s) id0 = Some img ->
  select_tag_by_name (committed s) name0 = Some tag ->
  select_link (committed s) (image_id img) (tag_id tag) = Some l ->
  add_image_tag (Some u) id0 name0 s = (close s, Ok (Some tag)).
Proof.
  intros Hi Ht Hl. unfold add_image_tag, with_session, bind, exec, ret.
  cbn [close working committed]. rewrite Hi.
  cbn [close working committed]. rewrite Ht.
  cbn [close working committed]. rewrite Hl. reflexivity.
Qed.

Lemma add_image_tag_cases (u : User) (id0 : Z) (name0 : string) (s : State)
      (img : Image) :
  select_image_by_id (committed s) id0 = Some img ->
  exists tag db' answer,
    add_image_tag (Some u) id0 name0 s
    = ({| committed := db'; working := db'; thumbnails := thumbnails s |},
       Ok answer)
    /\ tag_name tag = name0
    /\ select_tag_by_name db' name0 = Some tag
    /\ images db' = images (committed s)
    /\ albums db' = albums (committed s)
    /\ ((tags db' = tags (committed s)
         /\ select_tag_by_name (committed s) name0 = Some tag)
        \/ (tags db' = tags (committed s) ++ [tag]
            /\ select_tag_by_name (committed s) name0 = None
            /\ category tag = "manual"))
    /\ ((links db' = links (committed s)
         /\ answer = Some tag
         /\ exists l, select_link (committed s) id0 (tag_id tag) = Some l)
        \/ (links db' = links (committed s) ++ [manual_link img tag]
            /\ answer = None
            /\ select_link (committed s) id0 (tag_id tag) = None)).
Proof.
  intros Hi. pose proof (select_image_by_id_key _ _ _ Hi) as Hid.
  destruct (select_tag_by_name (committed s) name0) as [tag |] eqn:Et.
  - assert (Hn : tag_name tag = name0).
    { unfold select_tag_by_name in Et. apply find_some in Et.
      destruct Et as [_ E]. apply String.eqb_eq in E. exact E. }
    destruct (select_link (committed s) (image_id img) (tag_id tag))
      as [l |] eqn:El.
    + exists tag, (committed s), (Some tag).
      split; [exact (add_image_tag_present u id0 name0 s img tag l Hi Et El) |].
      split; [exact Hn |]. split; [exact Et |].
      split; [reflexivity |]. split; [reflexivity |].
      split; [left; split; reflexivity |].
      left. split; [reflexivity |]. split; [reflexivity |].
      exists l. rewrite <- Hid. exact El.
    + exists tag.
      exists {| images := images (committed s); albums := albums (committed s);
                tags := tags (committed s);
                links := links (committed s) ++ [manual_link img tag] |}.
      exists None.
      split.
      * unfold add_image_tag, with_session, bind, exec, ret.
        cbn [close working committed]. rewrite Hi.
        cbn [close working committed]. rewrite Et.
        cbn [close working committed]. rewrite El.
        unfold add. cbn [close working committed thumbnails].
        rewrite insert_link_accepts; [reflexivity |].
        apply select_link_absent. exact El.
      * split; [exact Hn |]. split; [exact Et |].
        split; [reflexivity |]. split; [reflexivity |].
        split; [left; split; reflexivity |].
        right. split; [reflexivity |]. split; [reflexivity |].
        rewrite <- Hid. exact El.
  - pose proof (find_none_existsb _ _ Et) as Ex.
    set (tag := {| tag_id := next_id (map tag_id (tags (committed s)));
                   tag_name := name0; category := "manual" |}).
    set (db1 := {| images := images (committed s); albums := albums (committed s);
                   tags := tags (committed s) ++ [tag];
                   links := links (committed s) |}).
    assert (Hins : insert_tag (committed s) name0 "manual" = Ok (tag, db1)).
    { unfold insert_tag. rewrite Ex, andb_false_r. reflexivity. }
    assert (Hsel : forall ls,
              select_tag_by_name
                {| images := images (committed s);
                   albums := albums (committed s);
                   tags := tags (committed s) ++ [tag]; links := ls |} name0
              = Some tag).
    { intros ls. unfold select_tag_by_name in *. cbn [tags].
      rewrite (find_app_missing _ _ _ Et). cbn [find tag_name tag].
      rewrite String.eqb_refl. reflexivity. }
    destruct (select_link (committed s) (image_id img) (tag_id tag))
      as [l |] eqn:El.
    + exists tag, db1, (Some tag). split.
      * unfold add_image_tag, with_session, bind, exec, ret.
        cbn [close working committed]. rewrite Hi.
        cbn [close working committed]. rewrite Et.
        unfold add, commit. cbn [close working committed thumbnails].
        rewrite Hins. cbn [working committed thumbnails].
        replace (select_link db1 (image_id img) (tag_id tag))
          with (select_link (committed s) (image_id img) (tag_id tag))
          by reflexivity.
        rewrite El. reflexivity.
      * split; [reflexivity |]. split; [apply Hsel |].
        split; [reflexivity |]. split; [reflexivity |].
        split; [right; repeat split |].
        left. split; [reflexivity |]. split; [reflexivity |].
        exists l. rewrite <- Hid. exact El.
    + exists tag.
      exists {| images := images (committed s); albums := albums (committed s);
                tags := tags (committed s) ++ [tag];
                links := links (committed s) ++ [manual_link img tag] |}.
      exists None.
      split.
      * unfold add_image_tag, with_session, bind, exec, ret.
        cbn [close working committed]. rewrite Hi.
        cbn [close working committed]. rewrite Et.
        unfold add, commit. cbn [close working committed thumbnails].
        rewrite Hins. cbn [working committed thumbnails].
        replace (select_link db1 (image_id img) (tag_id tag))
          with (select_link (committed s) (image_id img) (tag_id tag))
          by reflexivity.
        rewrite El. cbn [working committed thumbnails].
        rewrite (insert_link_accepts db1 (manual_link img tag));
          [reflexivity |].
        apply (select_link_absent (committed s)). exact El.
      * split; [reflexivity |]. split; [apply Hsel |].
        split; [reflexivity |]. split; [reflexivity |].
        split; [right; repeat split |].
        right. split; [reflexivity |]. split; [reflexivity |].
        rewrite <- Hid. exact El.
Qed.

(** X28.  Tagging an image by hand finds the tag of that name or
    creates it in category [manual].  If the image already carries the
    tag, the link is left as it is, whoever made it, and the answer
    carries the tag.  Otherwise one link is appended, from source
    [manual], with confidence 1.0 and verified, and the answer carries
    a tag without fields: the commit of the link has expired them.
    Images are not touched, and the same call again changes nothing
    and answers with the tag. *)
Theorem add_image_tag_links_once :
  forall (u : User) (image_id0 : Z) (tag_name0 : string) (s : State)
         (img : Image),
    select_image_by_id (committed s) image_id0 = Some img ->
    exists tag answer s',
      add_image_tag (Some u) image_id0 tag_name0 s = (s', Ok answer)
      /\ tag_name tag = tag_name0
      /\ select_tag_by_name (committed s') tag_name0 = Some tag
      /\ images (committed s') = images (committed s)
      /\ (((exists l, select_link (committed s) image_id0 (tag_id tag) = Some l)
           /\ links (committed s') = links (committed s)
           /\ answer = Some tag)
          \/ (select_link (committed s) image_id0 (tag_id tag) = None
              /\ links (committed s')
                 = links (committed s) ++ [manual_link img tag]
              /\ answer = None))
      /\ add_image_tag (Some u) image_id0 tag_name0 s' = (s', Ok (Some tag)).
Proof.
  intros u id0 name0 s img Hi.
  pose proof (select_image_by_id_key _ _ _ Hi) as Hid.
  destruct (add_image_tag_cases u id0 name0 s img Hi)
    as (tag & db' & answer & E & Hn & Ht' & Him & _ & _ & Hl).
  exists tag, answer,
    {| committed := db'; working := db'; thumbnails := thumbnails s |}.
  split; [exact E |]. cbn [committed].
  assert (Hl' : exists l, select_link db' (image_id img) (tag_id tag) = Some l).
  { unfold select_link in *. rewrite Hid.
    destruct Hl as [(-> & _ & l & Hs) | (-> & _ & Hs)]; [exists l; exact Hs |].
    exists (manual_link img tag). rewrite (find_app_missing _ _ _ Hs).
    cbn [find]. replace (link_key_eqb id0 (tag_id tag) (manual_link img tag))
      with true; [reflexivity |].
    symmetry. apply link_key_eqb_true. split; [exact Hid | reflexivity]. }
  split; [exact Hn |]. split; [exact Ht' |]. split; [exact Him |].
  split.
  - destruct Hl as [(E1 & E2 & E3) | (E1 & E2 & E3)]; [left | right];
      (split; [assumption |]); split; assumption.
  - destruct Hl' as [l Hl'].
    refine (add_image_tag_present
              u id0 name0
              {| committed := db'; working := db'; thumbnails := thumbnails s |}
              img tag l _ Ht' Hl').
    cbn [committed]. unfold select_image_by_id in *. rewrite Him. exact Hi.
Qed.

Lemma add_image_tag_links_once_witness :
  exists s',
    add_image_tag (Some sample_user) 1 "dusk" (open_db two_images_db)
    = (s', Ok None)
    /\ (exists tag,
          select_tag_by_name (committed s') "dusk" = Some tag
          /\ links (committed s')
             = links two_images_db ++ [manual_link image_a tag]
          /\ add_image_tag (Some sample_user) 1 "dusk" s' = (s', Ok (Some tag)))
    /\ snd (add_image_tag (Some sample_user) 1 "car" (open_db two_images_db))
       = Ok None
    /\ snd (add_image_tag (Some sample_user) 1 "car"
              (fst (add_image_tag (Some sample_user) 1 "car"
                      (open_db two_images_db))))
       = Ok (Some car_tag).
Proof.
  destruct (add_image_tag_links_once sample_user 1 "dusk"
              (open_db two_images_db) image_a eq_refl)
    as (tag & answer & s' & E & _ & Ht & _ & Hl & Hagain).
  exists s'.
  assert (Ha : answer = None).
  { assert (H : snd (add_image_tag (Some sample_user) 1 "dusk"
                       (open_db two_images_db)) = Ok None) by reflexivity.
    rewrite E in H. cbn [snd] in H. congruence. }
  subst answer. split; [exact E |].
  split; [| split; reflexivity].
  exists tag. split; [exact Ht |]. split; [| exact Hagain].
  destruct Hl as [(_ & _ & F) | (_ & Hl & _)]; [discriminate F | exact Hl].
Defined.

Lemma remove_image_tag_store (u : User) (i t : Z) (s : State) (l : ImageTagLink) :
  select_link (committed s) i t = Some l ->
  remove_image_tag (Some u) i t s
  = ({| committed := delete_link (committed s) i t;
        working := delete_link (committed s) i t;
        thumbnails := thumbnails s |}, Ok "success").
Proof.
  intros H. unfold remove_image_tag, with_session, bind, exec.
  cbn [close working committed]. rewrite H. reflexivity.
Qed.

Lemma remove_image_tag_missing (u : User) (i t : Z) (s : State) :
  select_link (committed s) i t = None ->
  remove_image_tag (Some u) i t s
  = (close s, Raise (HTTPException 404 "Tag not linked to image")).
Proof.
  intros H. unfold remove_image_tag, with_session, bind, exec.
  cbn [close working committed]. rewrite H. reflexivity.
Qed.

Lemma filter_all_true {A : Type} (p : A -> bool) (l : list A) :
  (forall x, In x l -> p x = true) -> filter p l = l.
Proof.
  induction l as [| x l IH]; [reflexivity |]. intros H. cbn [filter].
  rewrite (H x (or_introl eq_refl)). f_equal. apply IH.
  intros y Hy. apply H. right. exact Hy.
Qed.

Lemma find_none_all {A : Type} (p : A -> bool) (l : list A) :
  find p l = None -> forall x, In x l -> p x = false.
Proof.
  intros H x Hx. exact (find_none p l H x Hx).
Qed.

(** X29.  Adding a tag by hand to an image that did not carry it and
    removing it again brings the link table back to what it was; the
    tag row stays, images are not touched, and a second removal is
    answered with 404 and changes nothing. *)
Theorem manual_tag_round_trip :
  forall (u : User) (image_id0 : Z) (tag_name0 : string) (s s1 : State)
         (img : Image) (tag : Tag) (answer : option Tag),
    select_image_by_id (committed s) image_id0 = Some img ->
    add_image_tag (Some u) image_id0 tag_name0 s = (s1, Ok answer) ->
    select_tag_by_name (committed s1) tag_name0 = Some tag ->
    select_link (committed s) image_id0 (tag_id tag) = None ->
    exists s2,
      remove_image_tag (Some u) image_id0 (tag_id tag) s1 = (s2, Ok "success")
      /\ links (committed s2) = links (committed s)
      /\ images (committed s2) = images (committed s)
      /\ select_tag_by_name (committed s2) tag_name0 = Some tag
      /\ remove_image_tag (Some u) image_id0 (tag_id tag) s2
         = (s2, Raise (HTTPException 404 "Tag not linked to image")).
Proof.
  intros u id0 name0 s s1 img tag answer Hi Hadd Htag Hnone.
  pose proof (select_image_by_id_key _ _ _ Hi) as Hid.
  destruct (add_image_tag_cases u id0 name0 s img Hi)
    as (tag0 & db' & answer0 & E & Hn & Ht' & Him & _ & Ht & Hl).
  rewrite Hadd in E. injection E as -> <-. cbn [committed] in Htag.
  assert (tag0 = tag) by congruence. subst tag0.
  destruct Hl as [(_ & _ & l & Hs) | (Hl & _)]; [congruence |].
  assert (Hsel : select_link db' id0 (tag_id tag) = Some (manual_link img tag)).
  { unfold select_link in *. rewrite Hl, (find_app_missing _ _ _ Hnone).
    cbn [find]. replace (link_key_eqb id0 (tag_id tag) (manual_link img tag))
      with true; [reflexivity |].
    symmetry. apply link_key_eqb_true. split; [exact Hid | reflexivity]. }
  eexists. split.
  { apply (remove_image_tag_store u id0 (tag_id tag) _ (manual_link img tag)).
    exact Hsel. }
  cbn [committed].
  assert (Hback : links (delete_link db' id0 (tag_id tag)) = links (committed s)).
  { unfold delete_link. cbn [links]. rewrite Hl, filter_app. cbn [filter].
    replace (link_key_eqb id0 (tag_id tag) (manual_link img tag)) with true.
    - cbn [negb]. rewrite app_nil_r. apply filter_all_true.
      intros x Hx. unfold select_link in Hnone.
      rewrite (find_none_all _ _ Hnone x Hx). reflexivity.
    - symmetry. apply link_key_eqb_true. split; [exact Hid | reflexivity]. }
  split; [exact Hback |]. split; [exact Him |]. split.
  - unfold select_tag_by_name in *. cbn [delete_link tags].
    destruct Ht as [[-> Hs] | (-> & Hs & _)]; [exact Hs |].
    rewrite (find_app_missing _ _ _ Hs). cbn [find].
    rewrite Hn, String.eqb_refl. reflexivity.
  - rewrite remove_image_tag_missing; [reflexivity |].
    cbn [committed]. apply select_link_after_delete.
Qed.

Lemma manual_tag_round_trip_witness :
  exists s2,
    remove_image_tag (Some sample_user) 1 1
      (fst (add_image_tag (Some sample_user) 1 "car" (open_db two_images_db)))
    = (s2, Ok "success")
    /\ links (committed s2) = links two_images_db
    /\ images (committed s2) = images two_images_db
    /\ select_tag_by_name (committed s2) "car" = Some car_tag
    /\ remove_image_tag (Some sample_user) 1 1 s2
       = (s2, Raise (HTTPException 404 "Tag not linked to image")).
Proof.
  exact (manual_tag_round_trip sample_user 1 "car" (open_db two_images_db)
           _ image_a car_tag None eq_refl eq_refl eq_refl eq_refl).
Defined.

Lemma delete_album_store (u : User) (album_id0 : Z) (cascade : bool)
      (s : State) (a : Album) :
  select_album_by_id (committed s) album_id0 = Some a ->
  exists db',
    delete_album (Some u) album_id0 cascade s
    = ({| committed := db'; working := db'; thumbnails := thumbnails s |},
       Ok (album_name a,
           if cascade
           then Z.of_nat (List.length
                            (filter (fun i => image_album_id i =? album_id0)
                                    (images (committed s))))
           else 0))
    /\ albums db' = map (mark_album album_id0) (albums (committed s))
    /\ images db' = (if cascade
                     then map (mark_album_images album_id0) (images (committed s))
                     else images (committed s))
    /\ tags db' = tags (committed s)
    /\ links db' = links (committed s).
Proof.
  intros H. unfold delete_album, with_session, bind, exec.
  cbn [close working committed]. rewrite H.
  destruct cascade; eexists; (split; [reflexivity |]); repeat split.
Qed.

(** X30.  Deleting an album sets its flag and answers with its name;
    other albums stay as they were, and so do tags and links.  Without
    [cascade] no image is changed.  With it, every image of the album
    ends deleted, no row is removed, images of other albums stay as
    they were, and the number answered counts the album's images.  The
    album keeps its row and its slug: an import that looks up the slug
    of a directory which led to this album gets the deleted album
    back, not a new one. *)
Theorem delete_album_keeps_row :
  forall (u : User) (album_id0 : Z) (cascade : bool) (s : State) (a : Album),
    select_album_by_id (committed s) album_id0 = Some a ->
    exists s',
      delete_album (Some u) album_id0 cascade s
      = (s', Ok (album_name a,
                 if cascade
                 then Z.of_nat (List.length
                                  (filter (fun i => image_album_id i =? album_id0)
                                          (images (committed s))))
                 else 0))
      /\ select_album_by_id (committed s') album_id0 = Some (set_album_deleted a)
      /\ (forall b, In b (albums (committed s)) -> album_id b <> album_id0 ->
                    In b (albums (committed s')))
      /\ tags (committed s') = tags (committed s)
      /\ links (committed s') = links (committed s)
      /\ (cascade = false -> images (committed s') = images (committed s))
      /\ (cascade = true ->
          map image_id (images (committed s')) = map image_id (images (committed s))
          /\ (forall i, In i (images (committed s')) ->
                        image_album_id i = album_id0 -> is_deleted i = true)
          /\ (forall i, In i (images (committed s)) ->
                        image_album_id i <> album_id0 ->
                        In i (images (committed s'))))
      /\ (forall (env : Env) (owner : Z) (file_path : string),
            select_album_by_slug (committed s) (album_slug_of env file_path)
            = Some a ->
            resolve_album env owner file_path s'
            = (s', Ok (set_album_deleted a))).
Proof.
  intros u id0 cascade s a Hsel.
  destruct (delete_album_store u id0 cascade s a Hsel)
    as (db' & E & Ha & Hi & Ht & Hl).
  exists {| committed := db'; working := db'; thumbnails := thumbnails s |}.
  split; [exact E |]. cbn [committed].
  assert (Hid : album_id a = id0).
  { apply find_some in Hsel. destruct Hsel as [_ K]. apply Z.eqb_eq in K. exact K. }
  assert (Hmark : mark_album id0 a = set_album_deleted a).
  { unfold mark_album. rewrite Hid, Z.eqb_refl. reflexivity. }
  split.
  { unfold select_album_by_id in *. rewrite Ha, find_map_same.
    - rewrite Hsel. cbn [option_map]. rewrite Hmark. reflexivity.
    - intros x. unfold mark_album.
      destruct (album_id x =? id0) eqn:K; [cbn; exact K | exact K]. }
  split.
  { intros b Hb Hne. rewrite Ha. apply in_map_iff. exists b.
    split; [| exact Hb]. unfold mark_album.
    destruct (album_id b =? id0) eqn:K; [| reflexivity].
    apply Z.eqb_eq in K. contradiction. }
  split; [exact Ht |]. split; [exact Hl |].
  split; [intros ->; exact Hi |].
  split.
  { intros ->. rewrite Hi. split; [| split].
    - rewrite map_map. apply map_ext. intros i. unfold mark_album_images.
      destruct (image_album_id i =? id0); reflexivity.
    - intros i Hin K. apply in_map_iff in Hin. destruct Hin as (i0 & <- & _).
      unfold mark_album_images in *.
      destruct (image_album_id i0 =? id0) eqn:K0; [reflexivity |].
      apply Z.eqb_neq in K0. contradiction.
    - intros i Hin Hne. apply in_map_iff. exists i. split; [| exact Hin].
      unfold mark_album_images.
      destruct (image_album_id i =? id0) eqn:K; [| reflexivity].
      apply Z.eqb_eq in K. contradiction. }
  intros env owner p Hslug.
  apply resolve_album_found. cbn [working].
  unfold select_album_by_slug in *. rewrite Ha, find_map_same.
  - rewrite Hslug. cbn [option_map]. rewrite Hmark. reflexivity.
  - intros x. unfold mark_album. destruct (album_id x =? id0); reflexivity.
Qed.

Lemma delete_album_keeps_row_witness :
  let a := {| album_id := 1; album_name := "race"; slug := "race";
              root_path := "/photos/race"; album_is_deleted := false;
              album_owner_id := Some 1 |} in
  select_album_by_id one_image_db 1 = Some a
  /\ exists s',
       delete_album (Some sample_user) 1 true (open_db one_image_db)
       = (s', Ok ("race", 1))
       /\ select_album_by_id (committed s') 1 = Some (set_album_deleted a)
       /\ (forall b, In b (albums one_image_db) -> album_id b <> 1 ->
                     In b (albums (committed s')))
       /\ tags (committed s') = tags one_image_db
       /\ links (committed s') = links one_image_db
       /\ (true = false -> images (committed s') = images one_image_db)
       /\ (true = true ->
           map image_id (images (committed s')) = map image_id (images one_image_db)
           /\ (forall i, In i (images (committed s')) ->
                         image_album_id i = 1 -> is_deleted i = true)
           /\ (forall i, In i (images one_image_db) ->
                         image_album_id i <> 1 ->
                         In i (images (committed s'))))
       /\ (forall (env : Env) (owner : Z) (file_path : string),
             select_album_by_slug one_image_db (album_slug_of env file_path)
             = Some a ->
             resolve_album env owner file_path s'
             = (s', Ok (set_album_deleted a))).
Proof.
  intros a. split; [reflexivity |].
  exact (delete_album_keeps_row sample_user 1 true (open_db one_image_db) a
           eq_refl).
Defined.
